(** * HeadGestureManager.js: sliding windows and the anomaly segmenter

    A shallow embedding of [src/assets/js/HeadGestureManager.js]:
    - the class [Window] (a fixed-capacity buffer of three axis arrays that can
      slide), the class [SensorDataHandler] (two windows advanced together), and
    - the function [processDataV2] with the top-level variables it mutates (the
      threshold-based anomaly segmenter), and the listener that calls it;
    - [updateProgressBar], [playAnimation], [switchBackToIdle] and the
      handler of predictions in [makePredictionV2], over a document that is
      modelled by the properties these functions assign.

    JavaScript numbers are kept abstract behind the interface [Number]; the
    code is written once against it.  The numbers of the program are IEEE 754
    binary64 (the kernel's primitive floats).  A second implementation, exact
    arithmetic on the rationals extended with the two infinities and NaN, is
    the reference for what a computation would give without rounding and
    overflow.  Array lengths and the window sizes are integers ([nat], [Z]);
    the two run counters are [nat].

    Methods that read or mutate [this] are computations in a small monad that
    threads the object and returns a completion: a normal value or a thrown
    error.  A throw keeps the mutations made before it, as in JavaScript. *)

From Stdlib Require Import String.
From Stdlib Require Import ZArith List Lia Bool.
From Stdlib Require Import QArith Qabs Qcanon Qcabs Qpower.
From Stdlib Require Import Floats Numbers.Cyclic.Int63.Uint63.
Import ListNotations.

(* Numbers are written with their scope keys; lists keep the brackets. *)
Close Scope Qc_scope.
Close Scope Q_scope.

(* ------------------------------------------------------------------ *)
(** ** JavaScript numbers *)

(** The operations on numbers that the source uses: the literal [0] and
    integer literals, [+], [/], unary [-], [>], [<=], [NaN], [Math.abs],
    and [Math.min] / [Math.max] applied to a spread array. *)
Class Number (num : Type) : Type := {
  num_of_Z : Z -> num;
  num_add : num -> num -> num;
  num_div : num -> num -> num;
  num_neg : num -> num;
  num_gt : num -> num -> bool;
  num_le : num -> num -> bool;
  NaN : num;
  Math_abs : num -> num;
  Math_min : list num -> num;
  Math_max : list num -> num
}.

(** *** Exact arithmetic: rationals, the two infinities and NaN *)
Module Exact.

Inductive xnum : Type :=
| Fin (q : Qc)
| PosInf
| NegInf
| XNaN.

Definition Qc_ltb (a b : Qc) : bool :=
  match (a ?= b)%Qc with Lt => true | _ => false end.

Definition Qc_leb (a b : Qc) : bool :=
  match (a ?= b)%Qc with Gt => false | _ => true end.

Definition of_Z (n : Z) : xnum := Fin (Q2Qc (inject_Z n)).

Definition add (a b : xnum) : xnum :=
  match a, b with
  | XNaN, _ | _, XNaN => XNaN
  | Fin p, Fin q => Fin (p + q)%Qc
  | PosInf, NegInf | NegInf, PosInf => XNaN
  | PosInf, _ | _, PosInf => PosInf
  | NegInf, _ | _, NegInf => NegInf
  end.

Definition neg (a : xnum) : xnum :=
  match a with
  | Fin p => Fin (- p)%Qc
  | PosInf => NegInf
  | NegInf => PosInf
  | XNaN => XNaN
  end.

(** Division as in IEEE 754, with a single (positive) zero. *)
Definition div (a b : xnum) : xnum :=
  match a, b with
  | XNaN, _ | _, XNaN => XNaN
  | Fin p, Fin q =>
      if Qc_eq_bool q 0%Qc then
        match (p ?= 0)%Qc with Eq => XNaN | Gt => PosInf | Lt => NegInf end
      else Fin (p / q)%Qc
  | Fin _, _ => Fin 0%Qc
  | PosInf, Fin q => if Qc_ltb q 0%Qc then NegInf else PosInf
  | NegInf, Fin q => if Qc_ltb q 0%Qc then PosInf else NegInf
  | _, _ => XNaN
  end.

Definition abs (a : xnum) : xnum :=
  match a with
  | Fin p => Fin (Qcabs p)
  | PosInf | NegInf => PosInf
  | XNaN => XNaN
  end.

(** [ltb a b] is [a < b]; any comparison with NaN is false. *)
Definition ltb (a b : xnum) : bool :=
  match a, b with
  | XNaN, _ | _, XNaN => false
  | Fin p, Fin q => Qc_ltb p q
  | NegInf, NegInf => false
  | NegInf, _ => true
  | _, PosInf => match a with PosInf => false | _ => true end
  | _, _ => false
  end.

Definition leb (a b : xnum) : bool :=
  match a, b with
  | XNaN, _ | _, XNaN => false
  | Fin p, Fin q => Qc_leb p q
  | NegInf, _ => true
  | _, PosInf => true
  | _, _ => false
  end.

(** One step of [Math.min]: NaN is absorbing, otherwise the smaller wins. *)
Definition min2 (lowest v : xnum) : xnum :=
  match lowest, v with
  | XNaN, _ | _, XNaN => XNaN
  | _, _ => if ltb v lowest then v else lowest
  end.

Definition max2 (highest v : xnum) : xnum :=
  match highest, v with
  | XNaN, _ | _, XNaN => XNaN
  | _, _ => if ltb highest v then v else highest
  end.

(** [Math.min()] is [+Infinity] and [Math.max()] is [-Infinity]. *)
Definition min_of (vs : list xnum) : xnum := fold_left min2 vs PosInf.
Definition max_of (vs : list xnum) : xnum := fold_left max2 vs NegInf.

#[global] Instance number : Number xnum := {|
  num_of_Z := of_Z;
  num_add := add;
  num_div := div;
  num_neg := neg;
  num_gt := fun a b => ltb b a;
  num_le := leb;
  NaN := XNaN;
  Math_abs := abs;
  Math_min := min_of;
  Math_max := max_of
|}.

End Exact.

(** *** IEEE 754 binary64, the representation JavaScript engines use *)
Module Binary64.

(** The Number value of an integer: the integer itself when binary64
    holds it, otherwise the nearest binary64 value (ties to even), which is
    an infinity for the integers beyond the binary64 range. *)
Definition spec_of_Z (n : Z) : spec_float :=
  binary_normalize prec emax n 0 false.

Definition of_Z (n : Z) : float := SF2Prim (spec_of_Z n).

(** The binary64 form of the integer with sign [s] and magnitude [m], for a
    magnitude of at most 53 bits: the magnitude shifted up to 53 bits. *)
Definition normal (s : bool) (m : positive) : spec_float :=
  match (prec - Zpos (digits2_pos m))%Z with
  | Zpos k => S754_finite s (Pos.iter xO m k) (- Zpos k)
  | _ => S754_finite s m 0
  end.


Definition is_neg_zero (v : float) : bool :=
  PrimFloat.is_zero v && PrimFloat.get_sign v.

(** One step of [Math.min]: NaN is absorbing and [-0] is below [+0]. *)
Definition min2 (lowest v : float) : float :=
  if PrimFloat.is_nan lowest || PrimFloat.is_nan v then PrimFloat.nan
  else if PrimFloat.ltb v lowest then v
  else if PrimFloat.is_zero lowest && is_neg_zero v then v
  else lowest.

Definition max2 (highest v : float) : float :=
  if PrimFloat.is_nan highest || PrimFloat.is_nan v then PrimFloat.nan
  else if PrimFloat.ltb highest v then v
  else if is_neg_zero highest && PrimFloat.is_zero v then v
  else highest.

Definition min_of (vs : list float) : float :=
  fold_left min2 vs PrimFloat.infinity.
Definition max_of (vs : list float) : float :=
  fold_left max2 vs PrimFloat.neg_infinity.

#[global] Instance number : Number float := {|
  num_of_Z := of_Z;
  num_add := PrimFloat.add;
  num_div := PrimFloat.div;
  num_neg := PrimFloat.opp;
  num_gt := fun a b => PrimFloat.ltb b a;
  num_le := PrimFloat.leb;
  NaN := PrimFloat.nan;
  Math_abs := PrimFloat.abs;
  Math_min := min_of;
  Math_max := max_of
|}.

End Binary64.

(* ------------------------------------------------------------------ *)
(** ** Completions and the method monad *)

(** The two errors the source throws: [Error("Window is full")] in
    [addData] and [Error("Window is not full")] in [slide]. *)
Inductive Error : Type :=
| WindowIsFull
| WindowIsNotFull.

(** How a call ends: it returns a value or it throws. *)
Inductive completion (A : Type) : Type :=
| Normal (a : A)
| Throw (e : Error).
Arguments Normal {A} a.
Arguments Throw {A} e.

(** A method over an object of type [St]: it ends in a completion and leaves
    the object in some state, also when it throws. *)
Definition M (St A : Type) : Type := St -> completion A * St.

Definition ret {St A} (a : A) : M St A := fun s => (Normal a, s).

Definition bind {St A B} (m : M St A) (k : A -> M St B) : M St B :=
  fun s =>
    match m s with
    | (Normal a, s') => k a s'
    | (Throw e, s') => (Throw e, s')
    end.

Definition throw {St A} (e : Error) : M St A := fun s => (Throw e, s).

Definition get {St} : M St St := fun s => (Normal s, s).

Definition modify {St} (f : St -> St) : M St unit := fun s => (Normal tt, f s).

(** Run a method of a field object inside the object that owns it. *)
Definition zoom {Outer Inner A} (proj : Outer -> Inner)
  (upd : Inner -> Outer -> Outer) (m : M Inner A) : M Outer A :=
  fun o => let (r, i) := m (proj o) in (r, upd i o).

Declare Scope method_scope.
Delimit Scope method_scope with method.
Notation "v <- m ;; k" := (bind m (fun v => k))
  (at level 61, m at next level, right associativity) : method_scope.
Notation "m ;; k" := (bind m (fun _ => k))
  (at level 61, right associativity) : method_scope.
Open Scope method_scope.

(** [Array.prototype.slice(start)] for an integer [start]: a negative start
    counts from the end, and the start is clamped to the array. *)
Definition slice {A} (start : Z) (a : list A) : list A :=
  let len := Z.of_nat (length a) in
  let k := if (start <? 0)%Z then Z.max (len + start) 0 else Z.min start len in
  skipn (Z.to_nat k) a.

(* ------------------------------------------------------------------ *)
(** ** class Window *)

Module Window.
Section WithNumber.
Context {num : Type} `{Number num}.

(** The fields set by the constructor; [x], [y] and [z] are the three axis
    arrays. *)
Record t : Type := mk {
  windowSize : Z;
  sensorType : string;
  overlapSize : Z;
  x : list num;
  y : list num;
  z : list num
}.

Definition set_x (a : list num) (w : t) : t :=
  mk (windowSize w) (sensorType w) (overlapSize w) a (y w) (z w).
Definition set_y (a : list num) (w : t) : t :=
  mk (windowSize w) (sensorType w) (overlapSize w) (x w) a (z w).
Definition set_z (a : list num) (w : t) : t :=
  mk (windowSize w) (sensorType w) (overlapSize w) (x w) (y w) a.

(** [constructor(windowSize, sensorType, overlapSize = 0)]; a missing
    argument is [None], and [overlapSize || 0] replaces a falsy [0] by [0]. *)
Definition new (windowSize : Z) (sensorType : string)
  (overlapSize : option Z) : t :=
  let overlapSize := match overlapSize with Some v => v | None => 0%Z end in
  mk windowSize sensorType
     (if (overlapSize =? 0)%Z then 0%Z else overlapSize)
     [] [] [].

(** [getLength()]: the length of the x-axis array. *)
Definition getLength : M t nat :=
  this <- get ;; ret (length (x this)).

Definition getMaxLength : M t Z :=
  this <- get ;; ret (windowSize this).

(** [isFull()]: [this.x.length >= this.windowSize]. *)
Definition isFull : M t bool :=
  this <- get ;; ret (Z.of_nat (length (x this)) >=? windowSize this)%Z.

(** [addData(x, y, z)]: throws when full, else pushes on the three arrays. *)
Definition addData (vx vy vz : num) : M t unit :=
  full <- isFull ;;
  if full then throw WindowIsFull
  else
    modify (fun this => set_x (x this ++ [vx]) this) ;;
    modify (fun this => set_y (y this ++ [vy]) this) ;;
    modify (fun this => set_z (z this ++ [vz]) this).

(** The object [{ mean, min, max }]. *)
Record AxisFeatures : Type := mkAxis {
  mean : num;
  min : num;
  max : num
}.

(** The summation loop of [getAxisFeatures]: [sum] starts at [0] and
    [sum += axisData[i]] runs over the indices in increasing order. *)
Definition sum_loop (axisData : list num) : num :=
  fold_left num_add axisData (num_of_Z 0).

(** [getAxisFeatures(axisData)]; it does not touch [this]. *)
Definition getAxisFeatures (axisData : list num) : AxisFeatures :=
  let axisLength := length axisData in
  let sum := sum_loop axisData in
  let mean := num_div sum (num_of_Z (Z.of_nat axisLength)) in
  let min := Math_min axisData in
  let max := Math_max axisData in
  mkAxis mean min max.

(** The object [{ x, y, z }] of per-axis features. *)
Record Features : Type := mkFeatures {
  fx : AxisFeatures;
  fy : AxisFeatures;
  fz : AxisFeatures
}.

Definition nanFeatures : AxisFeatures := mkAxis NaN NaN NaN.

(** [extractFeatures()]: an axis of length 0 is falsy and gets the NaN
    triple. *)
Definition extractFeatures : M t Features :=
  this <- get ;;
  ret (mkFeatures
         (if (length (x this) =? 0)%nat then nanFeatures
          else getAxisFeatures (x this))
         (if (length (y this) =? 0)%nat then nanFeatures
          else getAxisFeatures (y this))
         (if (length (z this) =? 0)%nat then nanFeatures
          else getAxisFeatures (z this))).

(** [slide()]: throws unless the x axis has reached [windowSize], else keeps
    of each axis what [slice(windowSize - overlapSize)] keeps. *)
Definition slide : M t unit :=
  this <- get ;;
  if (Z.of_nat (length (x this)) <? windowSize this)%Z
  then throw WindowIsNotFull
  else
    modify (fun this =>
      set_x (slice (windowSize this - overlapSize this) (x this)) this) ;;
    modify (fun this =>
      set_y (slice (windowSize this - overlapSize this) (y this)) this) ;;
    modify (fun this =>
      set_z (slice (windowSize this - overlapSize this) (z this)) this).

End WithNumber.
Arguments t num : clear implicits.
Arguments AxisFeatures num : clear implicits.
Arguments Features num : clear implicits.
End Window.

(* ------------------------------------------------------------------ *)
(** ** class SensorDataHandler *)

Module SensorDataHandler.
Section WithNumber.
Context {num : Type} `{Number num}.

Record t : Type := mk {
  accWindow : Window.t num;
  gyroWindow : Window.t num
}.

Definition set_accWindow (w : Window.t num) (h : t) : t := mk w (gyroWindow h).
Definition set_gyroWindow (w : Window.t num) (h : t) : t := mk (accWindow h) w.

Definition new (windowSize : Z) (overlapSize : option Z) : t :=
  mk (Window.new windowSize "accelerometer"%string overlapSize)
     (Window.new windowSize "gyroscope"%string overlapSize).

(** A method call on [this.accWindow] / [this.gyroWindow]. *)
Definition onAcc {A} (m : M (Window.t num) A) : M t A :=
  zoom accWindow set_accWindow m.
Definition onGyro {A} (m : M (Window.t num) A) : M t A :=
  zoom gyroWindow set_gyroWindow m.

(** The object [{ accelerometer, gyroscope }]. *)
Record Summary : Type := mkSummary {
  accelerometer : Window.Features num;
  gyroscope : Window.Features num
}.

(** [handleData(acc, gyro)]: each argument is an array of three numbers that
    is spread into [addData]; the result is the summary or [null] ([None]). *)
Definition handleData (acc gyro : num * num * num) : M t (option Summary) :=
  let '(ax, ay, az) := acc in
  let '(gx, gy, gz) := gyro in
  onAcc (Window.addData ax ay az) ;;
  onGyro (Window.addData gx gy gz) ;;
  accFull <- onAcc Window.isFull ;;
  bothFull <- (if accFull : bool then onGyro Window.isFull else ret false) ;;
  if bothFull : bool then
    accFeatures <- onAcc Window.extractFeatures ;;
    gyroFeatures <- onGyro Window.extractFeatures ;;
    onAcc Window.slide ;;
    onGyro Window.slide ;;
    ret (Some (mkSummary accFeatures gyroFeatures))
  else ret None.

End WithNumber.
Arguments t num : clear implicits.
Arguments Summary num : clear implicits.
End SensorDataHandler.

(* ------------------------------------------------------------------ *)
(** ** processDataV2: the anomaly segmenter *)

(** The objects [accData] and [gyroData]: [{ X, Y, Z }]. *)
Module Reading.
Record t (num : Type) : Type := mk { X : num; Y : num; Z : num }.
Arguments mk {num} X Y Z.
Arguments X {num} _.
Arguments Y {num} _.
Arguments Z {num} _.
End Reading.

Section Segmenter.
Context {num : Type} `{Number num}.

(** The six top-level constants.  They are fields of a record so that the
    properties below are proved for every choice of thresholds;
    [sourceConstants] holds the values written in the source. *)
Record Constants : Type := mkConstants {
  gyroscopeYThreshold : num;
  anomalyEndThresholdLow : num;
  anomalyEndThresholdHigh : num;
  startThresholdCount : nat;
  minimumAnomalyLength : nat;
  counterThreshold : nat
}.

Definition sourceConstants : Constants := {|
  gyroscopeYThreshold := num_div (num_of_Z 3) (num_of_Z 2); (* 1.5 *)
  anomalyEndThresholdLow := num_neg (num_of_Z 1);
  anomalyEndThresholdHigh := num_of_Z 1;
  startThresholdCount := 1;
  minimumAnomalyLength := 20;
  counterThreshold := 5
|}.

(** The five top-level variables [processDataV2] reads and assigns. *)
Record Globals : Type := mkGlobals {
  accSequence : list num;
  gyroSequence : list num;
  collectingData : bool;
  inThresholdCounter : nat;
  aboveThresholdCounter : nat
}.

(** Their initial values. *)
Definition initialGlobals : Globals := mkGlobals [] [] false 0 0.

Definition set_accSequence (v : list num) (g : Globals) : Globals :=
  let '(mkGlobals _ gy collecting inCount aboveCount) := g in
  mkGlobals v gy collecting inCount aboveCount.
Definition set_gyroSequence (v : list num) (g : Globals) : Globals :=
  let '(mkGlobals ac _ collecting inCount aboveCount) := g in
  mkGlobals ac v collecting inCount aboveCount.
Definition set_collectingData (v : bool) (g : Globals) : Globals :=
  let '(mkGlobals ac gy _ inCount aboveCount) := g in
  mkGlobals ac gy v inCount aboveCount.
Definition set_inThresholdCounter (v : nat) (g : Globals) : Globals :=
  let '(mkGlobals ac gy collecting _ aboveCount) := g in
  mkGlobals ac gy collecting v aboveCount.
Definition set_aboveThresholdCounter (v : nat) (g : Globals) : Globals :=
  let '(mkGlobals ac gy collecting inCount _) := g in
  mkGlobals ac gy collecting inCount v.

Variable c : Constants.

(** The test [Math.abs(gyroData.Y) > gyroscopeYThreshold]. *)
Definition aboveThreshold (gyroData : Reading.t num) : bool :=
  num_gt (Math_abs (Reading.Y gyroData)) (gyroscopeYThreshold c).

(** The test [anomalyEndThresholdLow <= gyroData.Y &&
    gyroData.Y <= anomalyEndThresholdHigh]. *)
Definition inEndBand (gyroData : Reading.t num) : bool :=
  num_le (anomalyEndThresholdLow c) (Reading.Y gyroData)
  && num_le (Reading.Y gyroData) (anomalyEndThresholdHigh c).

(** First statement of [processDataV2]: count or reset
    [aboveThresholdCounter]. *)
Definition anomalyDetection (gyroData : Reading.t num) (g : Globals)
  : Globals :=
  if aboveThreshold gyroData
  then set_aboveThresholdCounter (aboveThresholdCounter g + 1) g
  else set_aboveThresholdCounter 0 g.

(** Second statement: start collecting once the counter has reached
    [startThresholdCount], unless already collecting. *)
Definition startCollecting (g : Globals) : Globals :=
  if (startThresholdCount c <=? aboveThresholdCounter g)%nat then
    if negb (collectingData g) then
      set_inThresholdCounter 0
        (set_gyroSequence [] (set_accSequence [] (set_collectingData true g)))
    else g
  else g.

(** Third statement: while collecting, push the sample, update
    [inThresholdCounter], and stop after [counterThreshold] samples in the
    end band.  The second component is the argument of the call to
    [makePredictionV2], when the call is made. *)
Definition midAnomaly (accData gyroData : Reading.t num) (g : Globals)
  : Globals * option (list num) :=
  if collectingData g then
    let g := set_gyroSequence
               (gyroSequence g ++ [num_neg (Reading.Y gyroData)]) g in
    let g := set_accSequence (accSequence g ++ [Reading.X accData]) g in
    let g := if inEndBand gyroData
             then set_inThresholdCounter (inThresholdCounter g + 1) g
             else set_inThresholdCounter 0 g in
    if (counterThreshold c <=? inThresholdCounter g)%nat then
      let g := set_collectingData false g in
      let call :=
        if (minimumAnomalyLength c <=? length (gyroSequence g))%nat
        then Some (gyroSequence g ++ accSequence g)
        else None in
      (set_gyroSequence [] (set_accSequence [] g), call)
    else (g, None)
  else (g, None).

Definition processDataV2 (accData gyroData : Reading.t num) (g : Globals)
  : Globals * option (list num) :=
  midAnomaly accData gyroData (startCollecting (anomalyDetection gyroData g)).

(** Feeding a stream of samples, one call of [processDataV2] each. *)
Definition Sample : Type := Reading.t num * Reading.t num.

Definition step (g : Globals) (s : Sample) : Globals :=
  fst (processDataV2 (fst s) (snd s) g).

Definition prediction (g : Globals) (s : Sample) : option (list num) :=
  snd (processDataV2 (fst s) (snd s) g).

Definition feed (samples : list Sample) (g : Globals) : Globals :=
  fold_left step samples g.

End Segmenter.
Arguments Constants num : clear implicits.
Arguments Globals num : clear implicits.
Arguments Sample num : clear implicits.

(* ------------------------------------------------------------------ *)
(** ** Callers and the vocabulary of the properties *)

Module WindowCalls.
Section WithNumber.
Context {num : Type} `{Number num}.

(** A call of one of the three methods that the properties range over. *)
Inductive Call : Type :=
| CallAddData (vx vy vz : num)
| CallSlide
| CallExtractFeatures.

(** The window after a call, whether the call returned or threw. *)
Definition after (w : Window.t num) (call : Call) : Window.t num :=
  match call with
  | CallAddData vx vy vz => snd (Window.addData vx vy vz w)
  | CallSlide => snd (Window.slide w)
  | CallExtractFeatures => snd (Window.extractFeatures w)
  end.

Definition afterAll (calls : list Call) (w : Window.t num) : Window.t num :=
  fold_left after calls w.

(** A caller that adds the samples one at a time and never slides. *)
Definition addAll (samples : list (num * num * num)) (w : Window.t num)
  : Window.t num :=
  afterAll (map (fun '(vx, vy, vz) => CallAddData vx vy vz) samples) w.

(** The three axis arrays have one length. *)
Definition lockstep (w : Window.t num) : Prop :=
  length (Window.y w) = length (Window.x w)
  /\ length (Window.z w) = length (Window.x w).

(** The invariant of the data model. *)
Definition invariant (w : Window.t num) : Prop :=
  lockstep w
  /\ (0 <= Z.of_nat (length (Window.x w)) <= Window.windowSize w)%Z.

End WithNumber.
End WindowCalls.

Module HandlerCalls.
Section WithNumber.
Context {num : Type} `{Number num}.

Definition Input : Type := (num * num * num) * (num * num * num).

(** One call of [handleData] per input; the completions in call order and
    the handler after the last call. *)
Fixpoint handleAll (inputs : list Input) (h : SensorDataHandler.t num)
  : list (completion (option (SensorDataHandler.Summary num)))
    * SensorDataHandler.t num :=
  match inputs with
  | [] => ([], h)
  | (acc, gyro) :: rest =>
      let (r, h') := SensorDataHandler.handleData acc gyro h in
      let (rs, h'') := handleAll rest h' in
      (r :: rs, h'')
  end.

(** What a caller can tell apart in a completion of [handleData]. *)
Inductive Outcome : Type :=
| NoOutput      (* returned null *)
| FeatureSummary (* returned a summary *)
| Failure (e : Error).

Definition outcome (r : completion (option (SensorDataHandler.Summary num)))
  : Outcome :=
  match r with
  | Normal None => NoOutput
  | Normal (Some _) => FeatureSummary
  | Throw e => Failure e
  end.

(** A window of capacity [C] and overlap [V] whose three axes hold [L]
    samples each, and a handler whose two windows are such windows. *)
Definition filled (C V L : Z) (w : Window.t num) : Prop :=
  Window.windowSize w = C
  /\ Window.overlapSize w = V
  /\ Z.of_nat (length (Window.x w)) = L
  /\ Z.of_nat (length (Window.y w)) = L
  /\ Z.of_nat (length (Window.z w)) = L.

Definition level (C V L : Z) (h : SensorDataHandler.t num) : Prop :=
  filled C V L (SensorDataHandler.accWindow h)
  /\ filled C V L (SensorDataHandler.gyroWindow h).

End WithNumber.

(** The calls on which a summary is due, numbered from 1: the [C]-th call
    and every [C - V]-th call after it. *)
Definition summaryDue (C V : Z) (k : nat) : bool :=
  ((C <=? Z.of_nat k) && ((Z.of_nat k - C) mod (C - V) =? 0))%Z.

Definition expected (C V : Z) (k : nat) : Outcome :=
  if summaryDue C V k then FeatureSummary else NoOutput.

(** The number of samples that each axis holds after [k] calls. *)
Definition levelAfter (C V : Z) (k : nat) : Z :=
  if (Z.of_nat k <? C)%Z then Z.of_nat k
  else (V + (Z.of_nat k - C) mod (C - V))%Z.

End HandlerCalls.

Section Runs.
Context {A : Type}.
Variable p : A -> bool.

(** The number of elements at the start of [l] that all satisfy [p]. *)
Fixpoint leadingRun (l : list A) : nat :=
  match l with
  | [] => 0
  | a :: l' => if p a then S (leadingRun l') else 0
  end.

(** The number of elements at the end of [l] that all satisfy [p]. *)
Definition trailingRun (l : list A) : nat := leadingRun (rev l).

(** [l] contains [n] consecutive elements that satisfy [p]. *)
Definition hasRun (n : nat) (l : list A) : Prop :=
  exists before run after,
    l = before ++ run ++ after
    /\ length run = n
    /\ Forall (fun a => p a = true) run.

(** [l] ends with [n] consecutive elements that satisfy [p]. *)
Definition endsWithRun (n : nat) (l : list A) : Prop :=
  exists before run,
    l = before ++ run
    /\ length run = n
    /\ Forall (fun a => p a = true) run.

End Runs.

Section SegmenterVocabulary.
Context {num : Type} `{Number num}.
Variable c : Constants num.

(** The two threshold tests and the two collected values of a sample. *)
Definition sampleAbove (s : Sample num) : bool := aboveThreshold c (snd s).
Definition sampleInBand (s : Sample num) : bool := inEndBand c (snd s).
Definition negatedGyroY (s : Sample num) : num := num_neg (Reading.Y (snd s)).
Definition accX (s : Sample num) : num := Reading.X (fst s).

(** The sample [s] is fed while collecting: when the call reaches its third
    statement, [collectingData] is true (it was true before the call, or the
    second statement has just set it). *)
Definition collected (g : Globals num) (s : Sample num) : bool :=
  collectingData (startCollecting c (anomalyDetection c (snd s) g)).

(** The variables after the samples of [history], fed from the start. *)
Definition stateAfter (history : list (Sample num)) : Globals num :=
  feed c history initialGlobals.

(** [capture] is the capture that the last sample of [history] belongs to:
    the samples fed since the call that started collecting.  Collecting was
    off before its first sample, every sample of it was fed while
    collecting, and collecting stayed on between its samples. *)
Definition captureOf (history capture : list (Sample num)) : Prop :=
  exists before,
    history = before ++ capture
    /\ capture <> []
    /\ collectingData (stateAfter before) = false
    /\ forall part s rest,
         capture = part ++ s :: rest ->
         collected (stateAfter (before ++ part)) s = true
         /\ (part <> [] -> collectingData (stateAfter (before ++ part)) = true).

(** What a closed capture sends to [makePredictionV2]. *)
Definition payload (capture : list (Sample num)) : list num :=
  map negatedGyroY capture ++ map accX capture.

(** How the variables [g] relate to the samples of [history]: the sequences
    are empty while not collecting, and while collecting they hold the
    collected values of the current capture, whose samples in the end band
    the counter has counted. *)
Definition tracksCapture (history : list (Sample num)) (g : Globals num)
  : Prop :=
  (collectingData g = false -> gyroSequence g = [] /\ accSequence g = [])
  /\ (collectingData g = true ->
      exists capture,
        captureOf history capture
        /\ gyroSequence g = map negatedGyroY capture
        /\ accSequence g = map accX capture
        /\ inThresholdCounter g = trailingRun sampleInBand capture).

End SegmenterVocabulary.





(** Samples that the comparisons order: none of them is NaN. *)
Definition comparable (axisData : list float) : Prop :=
  forall v, In v axisData -> PrimFloat.is_nan v = false.

(** The sum of integers, and samples that are integers. *)
Definition Z_sum (ks : list Z) : Z := fold_right Z.add 0%Z ks.

Definition integers (ks : list Z) : list float := map Binary64.of_Z ks.

(* ------------------------------------------------------------------ *)
(** ** More of the source: the sensor listener *)

Section SensorListener.
Context {num : Type} `{Number num}.

(** The object passed to the listener, as far as the listener reads it:
    [{ sensorId, ACC: { X, Y, Z }, GYRO: { X, Y, Z } }]. *)
Record SensorData : Type := mkSensorData {
  sensorId : Z;
  ACC : Reading.t num;
  GYRO : Reading.t num
}.

Variable c : Constants num.

(** The arrow function given to [subscribeOnSensorDataReceived]: data of
    another sensor than the IMU (id 0) is dropped; otherwise the two
    readings are copied field by field and passed to [processDataV2]. *)
Definition onSensorDataReceived (sensorData : SensorData) (g : Globals num)
  : Globals num * option (list num) :=
  if negb (sensorId sensorData =? 0)%Z then (g, None)
  else
    let accData := Reading.mk (Reading.X (ACC sensorData))
                              (Reading.Y (ACC sensorData))
                              (Reading.Z (ACC sensorData)) in
    let gyroData := Reading.mk (Reading.X (GYRO sensorData))
                               (Reading.Y (GYRO sensorData))
                               (Reading.Z (GYRO sensorData)) in
    processDataV2 c accData gyroData g.

(** The sensor manager calls the listener once per datum, in order; the
    second component lists what was sent to [makePredictionV2], in order. *)
Fixpoint receiveAll (data : list SensorData) (g : Globals num)
  : Globals num * list (list num) :=
  match data with
  | [] => (g, [])
  | d :: rest =>
      let (g', call) := onSensorDataReceived d g in
      let (g'', calls) := receiveAll rest g' in
      (g'', match call with Some sent => sent :: calls | None => calls end)
  end.

(** The same for direct calls of [processDataV2]. *)
Fixpoint feedAll (samples : list (Sample num)) (g : Globals num)
  : Globals num * list (list num) :=
  match samples with
  | [] => (g, [])
  | s :: rest =>
      let (g', call) := processDataV2 c (fst s) (snd s) g in
      let (g'', calls) := feedAll rest g' in
      (g'', match call with Some sent => sent :: calls | None => calls end)
  end.

(** The data of the IMU, as samples. *)
Definition fromIMU (d : SensorData) : bool := (sensorId d =? 0)%Z.
Definition sampleOf (d : SensorData) : Sample num := (ACC d, GYRO d).

End SensorListener.
Arguments SensorData num : clear implicits.

(* ------------------------------------------------------------------ *)
(** ** More vocabulary for the windows *)

(** The last [n] elements of [l] (all of [l] when it has fewer). *)
Definition lastn {A : Type} (n : nat) (l : list A) : list A :=
  skipn (length l - n) l.

Module HandlerStreams.
Section WithNumber.
Context {num : Type} `{Number num}.

(** The window holds exactly these samples, oldest first. *)
Definition holds (w : Window.t num) (samples : list (num * num * num))
  : Prop :=
  Window.x w = map (fun s => fst (fst s)) samples
  /\ Window.y w = map (fun s => snd (fst s)) samples
  /\ Window.z w = map (fun s => snd s) samples.

(** The per-axis features of a non-empty list of samples. *)
Definition featuresOver (samples : list (num * num * num))
  : Window.Features num :=
  Window.mkFeatures
    (Window.getAxisFeatures (map (fun s => fst (fst s)) samples))
    (Window.getAxisFeatures (map (fun s => snd (fst s)) samples))
    (Window.getAxisFeatures (map (fun s => snd s) samples)).

End WithNumber.

(** How many samples a full window of capacity [C] keeps when it slides
    with overlap [V], for every integer [V]: what
    [slice(C - V)] keeps of an array of length [C]. *)
Definition effectiveOverlap (C V : Z) : Z :=
  if (V <? 0)%Z then 0%Z
  else if (V <=? C)%Z then V
  else if (V <? 2 * C)%Z then (V - C)%Z
  else C.

(** What the calls give when a slide keeps the whole window, numbered
    from 1: nothing before the [C]-th call, a summary on it, and an error on
    every call after it. *)
Definition stuckOutcome (C : Z) (k : nat) : HandlerCalls.Outcome :=
  if (Z.of_nat k <? C)%Z then HandlerCalls.NoOutput
  else if (Z.of_nat k =? C)%Z then HandlerCalls.FeatureSummary
  else HandlerCalls.Failure WindowIsFull.

End HandlerStreams.

(* ------------------------------------------------------------------ *)
(** ** More of the source: the page *)

(** [*] is used by [updateProgressBar] only. *)
Class Multiplication (num : Type) : Type := num_mul : num -> num -> num.

#[global] Instance binary64_multiplication : Multiplication float :=
  PrimFloat.mul.

Module Page.
Section WithNumber.
Context {num : Type} `{Number num} `{Multiplication num}.

(** What the code assigns to [style.width]: a number followed by ["%"].
    The text of the number is not modelled, the number is. *)
Inductive Width : Type :=
| WidthOfStylesheet
| Percent (value : num).

(** An element of the document, by the properties that the code assigns
    and the methods it calls: [style.height], [style.opacity],
    [style.width], [currentTime], [play({ repetitions })] (the repetitions
    of each call, latest first) and [addEventListener("finished", ...)]
    (the [modelID] that each listener passes to [switchBackToIdle], latest
    first). *)
Record Element : Type := mkElement {
  style_height : string;
  style_opacity : string;
  style_width : Width;
  currentTime : Z;
  plays : list Z;
  finishedListeners : list string
}.

Definition set_style_height (v : string) (e : Element) : Element :=
  let '(mkElement _ o w t p l) := e in mkElement v o w t p l.
Definition set_style_opacity (v : string) (e : Element) : Element :=
  let '(mkElement h _ w t p l) := e in mkElement h v w t p l.
Definition set_style_width (v : Width) (e : Element) : Element :=
  let '(mkElement h o _ t p l) := e in mkElement h o v t p l.
Definition set_currentTime (v : Z) (e : Element) : Element :=
  let '(mkElement h o w _ p l) := e in mkElement h o w v p l.
Definition play (repetitions : Z) (e : Element) : Element :=
  let '(mkElement h o w t p l) := e in mkElement h o w t (repetitions :: p) l.
Definition addFinishedListener (modelID : string) (e : Element) : Element :=
  let '(mkElement h o w t p l) := e in mkElement h o w t p (modelID :: l).

(** The variable [isAnimationPlaying] and the document: its elements that
    have an id, in document order. *)
Record t : Type := mk {
  isAnimationPlaying : bool;
  document : list (string * Element)
}.

Definition set_isAnimationPlaying (v : bool) (p : t) : t :=
  mk v (document p).

(** [document.getElementById(id)]: the first element with this id, or
    [null]. *)
Fixpoint getElementById (id : string) (doc : list (string * Element))
  : option Element :=
  match doc with
  | [] => None
  | (id', e) :: rest =>
      if (id' =? id)%string then Some e else getElementById id rest
  end.

(** The document after [f] has changed the element that [getElementById]
    finds. *)
Fixpoint change (id : string) (f : Element -> Element)
  (doc : list (string * Element)) : list (string * Element) :=
  match doc with
  | [] => []
  | (id', e) :: rest =>
      if (id' =? id)%string then (id', f e) :: rest
      else (id', e) :: change id f rest
  end.

(** What a script can throw: a [TypeError] for a property of [null], or an
    error of a window. *)
Inductive Thrown : Type :=
| TypeError
| WindowError (e : Error).

Inductive Completion (A : Type) : Type :=
| Done (a : A)
| Threw (e : Thrown).
Arguments Done {A} a.
Arguments Threw {A} e.

Definition Script (A : Type) : Type := t -> Completion A * t.

Definition done {A} (a : A) : Script A := fun p => (Done a, p).

Definition andThen {A B} (s : Script A) (k : A -> Script B) : Script B :=
  fun p =>
    match s p with
    | (Done a, p') => k a p'
    | (Threw e, p') => (Threw e, p')
    end.

(** A statement [element.property = value] or a method call on the element
    with this id, the element having been looked up with
    [getElementById]: a [TypeError] when there is no such element. *)
Definition onElement (id : string) (f : Element -> Element) : Script unit :=
  fun p =>
    match getElementById id (document p) with
    | Some _ => (Done tt, mk (isAnimationPlaying p) (change id f (document p)))
    | None => (Threw TypeError, p)
    end.

Definition assignPlaying (v : bool) : Script unit :=
  fun p => (Done tt, set_isAnimationPlaying v p).

(** [playAnimation(modelID)]. *)
Definition playAnimation (modelID : string) : Script unit :=
  fun p =>
    if isAnimationPlaying p && negb (modelID =? "idle_model")%string
    then (Done tt, p)
    else
      andThen (assignPlaying true) (fun _ =>
      andThen (onElement "idle_model" (set_style_height "0")) (fun _ =>
      andThen (onElement "idle_model_indicator" (set_style_opacity "30%"))
        (fun _ =>
      andThen (onElement modelID (set_style_height "30vh")) (fun _ =>
      andThen (onElement (modelID ++ "_indicator")
                         (set_style_opacity "100%")) (fun _ =>
      andThen (onElement modelID (set_currentTime 0)) (fun _ =>
      andThen (onElement modelID (play 1)) (fun _ =>
      onElement modelID (addFinishedListener modelID)))))))) p.

(** [switchBackToIdle(modelID)]. *)
Definition switchBackToIdle (modelID : string) : Script unit :=
  andThen (onElement modelID (set_style_height "0")) (fun _ =>
  andThen (onElement (modelID ++ "_indicator") (set_style_opacity "30%"))
    (fun _ =>
  andThen (onElement "idle_model" (set_style_height "30vh")) (fun _ =>
  andThen (onElement "idle_model_indicator" (set_style_opacity "100%"))
    (fun _ =>
  assignPlaying false)))).

(** The second [then] of [makePredictionV2], given [data.prediction]: the
    [switch] over the five gestures (the [console.log] is left out). *)
Definition predictionReceived (prediction : string) : Script unit :=
  if (prediction =? "Left Slip")%string then playAnimation "leftslip_model"
  else if (prediction =? "Right Slip")%string
       then playAnimation "rightslip_model"
  else if (prediction =? "Left Roll")%string
       then playAnimation "leftroll_model"
  else if (prediction =? "Right Roll")%string
       then playAnimation "rightroll_model"
  else if (prediction =? "Pull Back")%string
       then playAnimation "pullback_model"
  else done tt.

(** [updateProgressBar()], given the handler that the variable
    [sensorDataHandler] holds. *)
Definition updateProgressBar (sensorDataHandler : SensorDataHandler.t num)
  : Script unit :=
  fun p =>
    match Window.getLength (SensorDataHandler.accWindow sensorDataHandler)
    with
    | (Throw e, _) => (Threw (WindowError e), p)
    | (Normal windowLength, _) =>
        match Window.getMaxLength
                (SensorDataHandler.accWindow sensorDataHandler) with
        | (Throw e, _) => (Threw (WindowError e), p)
        | (Normal windowSize, _) =>
            onElement "progressBar"
              (set_style_width
                 (Percent
                    (num_mul
                       (num_div (num_of_Z (Z.of_nat windowLength))
                                (num_of_Z windowSize))
                       (num_of_Z 100)))) p
        end
    end.

End WithNumber.
Arguments Done {A} a.
Arguments Threw {A} e.
Arguments Width num : clear implicits.
Arguments Element num : clear implicits.
Arguments t num : clear implicits.
End Page.

(** The height and the opacity that the element with this id has, if there
    is one. *)
Definition heightOf {num : Type} (id : string) (p : Page.t num)
  : option string :=
  option_map Page.style_height (Page.getElementById id (Page.document p)).

Definition opacityOf {num : Type} (id : string) (p : Page.t num)
  : option string :=
  option_map Page.style_opacity (Page.getElementById id (Page.document p)).

(** A document with the idle model, one gesture model, their indicators and
    the progress bar. *)
Definition samplePage (num : Type) : Page.t num :=
  let shown := Page.mkElement "30vh" "100%" Page.WidthOfStylesheet 0 [] [] in
  let hidden := Page.mkElement "0" "30%" Page.WidthOfStylesheet 0 [] [] in
  Page.mk false
    [("progressBar", shown); ("idle_model", shown);
     ("idle_model_indicator", shown); ("leftslip_model", hidden);
     ("leftslip_model_indicator", hidden)]%string.

(** Decide the comparisons of ids that a lookup meets. *)
Ltac compare_ids :=
  repeat match goal with
         | |- context [(?a =? ?a)%string] => rewrite (String.eqb_refl a)
         | Hne : ?a <> ?b |- context [(?a =? ?b)%string] =>
             rewrite (proj2 (String.eqb_neq a b) Hne)
         | Hne : ?a <> ?b |- context [(?b =? ?a)%string] =>
             rewrite (proj2 (String.eqb_neq b a) (not_eq_sym Hne))
         end.

(** *** Proof steps that recur *)

(** Reduce the field reads and writes of a handler. *)
Ltac handler_fields :=
  cbn [SensorDataHandler.accWindow SensorDataHandler.gyroWindow
       SensorDataHandler.set_accWindow SensorDataHandler.set_gyroWindow].

(** Unfold a call of [processDataV2] down to its tests. *)
Ltac unfold_call :=
  unfold step, prediction, collected, processDataV2, midAnomaly,
    startCollecting, anomalyDetection, sampleAbove, sampleInBand,
    negatedGyroY, accX in *;
  cbn in *.

(** Decide the tests one after the other. *)
Ltac decide_tests :=
  repeat match goal with
         | |- context [if ?b then _ else _] => destruct b eqn:?; cbn in *
         end;
  try congruence.

(* ------------------------------------------------------------------ *)
(** ** Lists and slices *)

Lemma slice_nonneg {A} (k : Z) (a : list A) :
  (0 <= k <= Z.of_nat (length a))%Z ->
  slice k a = skipn (Z.to_nat k) a.
Proof.
  intros Hk. unfold slice.
  destruct (k <? 0)%Z eqn:E; [lia|].
  now rewrite Z.min_l by lia.
Qed.

Lemma slice_length {A} (k : Z) (a : list A) :
  (0 <= k <= Z.of_nat (length a))%Z ->
  Z.of_nat (length (slice k a)) = (Z.of_nat (length a) - k)%Z.
Proof.
  intros Hk. rewrite slice_nonneg by assumption.
  rewrite length_skipn. lia.
Qed.

Lemma slice_suffix {A} (k : Z) (a : list A) :
  (0 <= k <= Z.of_nat (length a))%Z ->
  a = firstn (Z.to_nat k) a ++ slice k a.
Proof.
  intros Hk. rewrite slice_nonneg by assumption.
  symmetry. apply firstn_skipn.
Qed.

Lemma slice_length_le {A} (k : Z) (a : list A) :
  (length (slice k a) <= length a)%nat.
Proof.
  unfold slice. rewrite length_skipn. lia.
Qed.

(* ------------------------------------------------------------------ *)
(** ** Window: what each method does *)

Section WindowFacts.
Context {num : Type} `{Number num}.
Import WindowCalls.

Lemma addData_not_full (w : Window.t num) (vx vy vz : num) :
  (Z.of_nat (length (Window.x w)) < Window.windowSize w)%Z ->
  Window.addData vx vy vz w
  = (Normal tt,
     Window.mk (Window.windowSize w) (Window.sensorType w)
               (Window.overlapSize w)
               (Window.x w ++ [vx]) (Window.y w ++ [vy]) (Window.z w ++ [vz])).
Proof.
  intros Hlen.
  unfold Window.addData, Window.isFull, bind, get, ret, modify, throw.
  destruct (Z.geb_spec (Z.of_nat (length (Window.x w))) (Window.windowSize w));
    [lia | reflexivity].
Qed.

Lemma addData_full (w : Window.t num) (vx vy vz : num) :
  (Window.windowSize w <= Z.of_nat (length (Window.x w)))%Z ->
  Window.addData vx vy vz w = (Throw WindowIsFull, w).
Proof.
  intros Hlen.
  unfold Window.addData, Window.isFull, bind, get, ret, modify, throw.
  destruct (Z.geb_spec (Z.of_nat (length (Window.x w))) (Window.windowSize w));
    [reflexivity | lia].
Qed.

Lemma slide_full (w : Window.t num) :
  (Window.windowSize w <= Z.of_nat (length (Window.x w)))%Z ->
  Window.slide w
  = (Normal tt,
     let k := (Window.windowSize w - Window.overlapSize w)%Z in
     Window.mk (Window.windowSize w) (Window.sensorType w)
               (Window.overlapSize w)
               (slice k (Window.x w)) (slice k (Window.y w))
               (slice k (Window.z w))).
Proof.
  intros Hlen.
  unfold Window.slide, bind, get, ret, modify, throw.
  destruct (Z.ltb_spec (Z.of_nat (length (Window.x w))) (Window.windowSize w));
    [lia | reflexivity].
Qed.

Lemma slide_not_full (w : Window.t num) :
  (Z.of_nat (length (Window.x w)) < Window.windowSize w)%Z ->
  Window.slide w = (Throw WindowIsNotFull, w).
Proof.
  intros Hlen.
  unfold Window.slide, bind, get, ret, modify, throw.
  destruct (Z.ltb_spec (Z.of_nat (length (Window.x w))) (Window.windowSize w));
    [reflexivity | lia].
Qed.

Lemma extractFeatures_pure (w : Window.t num) :
  snd (Window.extractFeatures w) = w.
Proof. reflexivity. Qed.

Lemma isFull_spec (w : Window.t num) :
  Window.isFull w
  = (Normal (Window.windowSize w <=? Z.of_nat (length (Window.x w)))%Z, w).
Proof.
  unfold Window.isFull, bind, get, ret. now rewrite Z.geb_leb.
Qed.

(** Each call keeps the invariant, whether it returns or throws. *)
Lemma after_invariant (w : Window.t num) (call : Call) :
  invariant w -> invariant (after w call).
Proof.
  unfold invariant, lockstep. intros [[Hy Hz] Hlen].
  destruct call as [vx vy vz | | ]; simpl.
  - destruct (Z.lt_ge_cases (Z.of_nat (length (Window.x w)))
                            (Window.windowSize w)) as [Hlt | Hge].
    + rewrite addData_not_full by assumption. simpl.
      rewrite !length_app. simpl. lia.
    + rewrite addData_full by assumption. simpl. lia.
  - destruct (Z.lt_ge_cases (Z.of_nat (length (Window.x w)))
                            (Window.windowSize w)) as [Hlt | Hge].
    + rewrite slide_not_full by assumption. simpl. lia.
    + rewrite slide_full by assumption. cbn -[slice].
      pose proof (slice_length_le
        (Window.windowSize w - Window.overlapSize w) (Window.x w)).
      unfold slice. rewrite !length_skipn, Hy, Hz. lia.
  - lia.
Qed.

Lemma afterAll_invariant (calls : list Call) (w : Window.t num) :
  invariant w -> invariant (afterAll calls w).
Proof.
  revert w. induction calls as [| call calls IH]; intros w Hw; simpl.
  - exact Hw.
  - apply IH. now apply after_invariant.
Qed.

Lemma new_invariant (C : Z) (sensor : string) (V : option Z) :
  (0 <= C)%Z -> invariant (Window.new (num := num) C sensor V).
Proof.
  intros HC. unfold invariant, lockstep, Window.new. simpl. lia.
Qed.

Lemma after_windowSize (w : Window.t num) (call : Call) :
  Window.windowSize (after w call) = Window.windowSize w.
Proof.
  destruct call as [vx vy vz | |]; simpl.
  - destruct (Z.lt_ge_cases (Z.of_nat (length (Window.x w)))
                            (Window.windowSize w)).
    + now rewrite addData_not_full.
    + now rewrite addData_full.
  - destruct (Z.lt_ge_cases (Z.of_nat (length (Window.x w)))
                            (Window.windowSize w)).
    + now rewrite slide_not_full.
    + now rewrite slide_full.
  - reflexivity.
Qed.

Lemma afterAll_windowSize (calls : list Call) (w : Window.t num) :
  Window.windowSize (afterAll calls w) = Window.windowSize w.
Proof.
  revert w. induction calls as [| call calls IH]; intros w; simpl.
  - reflexivity.
  - unfold afterAll in *. cbn [fold_left]. now rewrite IH, after_windowSize.
Qed.

End WindowFacts.

(* ------------------------------------------------------------------ *)
(** ** Window: the properties *)

Section WindowProperties.
Context {num : Type} `{Number num}.
Import WindowCalls.

(** A caller that only adds fills the room that is left and no more. *)
Lemma addAll_contents (samples : list (num * num * num)) (w : Window.t num) :
  let room :=
    Z.to_nat (Window.windowSize w - Z.of_nat (length (Window.x w))) in
  let taken := firstn room samples in
  addAll samples w
  = Window.mk (Window.windowSize w) (Window.sensorType w)
              (Window.overlapSize w)
              (Window.x w ++ map (fun s => fst (fst s)) taken)
              (Window.y w ++ map (fun s => snd (fst s)) taken)
              (Window.z w ++ map (fun s => snd s) taken).
Proof.
  revert w. induction samples as [| [[vx vy] vz] rest IH]; intros w; cbn zeta.
  - rewrite firstn_nil. simpl. rewrite !app_nil_r. now destruct w.
  - unfold addAll in *. cbn [map afterAll fold_left after].
    destruct (Z.lt_ge_cases (Z.of_nat (length (Window.x w)))
                            (Window.windowSize w)) as [Hlt | Hge].
    + rewrite addData_not_full by assumption. cbn [snd].
      unfold afterAll in IH. rewrite IH. cbn [Window.windowSize Window.x
        Window.y Window.z Window.sensorType Window.overlapSize].
      rewrite length_app. cbn [length].
      replace (Z.to_nat (Window.windowSize w
                         - Z.of_nat (length (Window.x w))))
        with (S (Z.to_nat (Window.windowSize w
                           - Z.of_nat (length (Window.x w) + 1)))) by lia.
      cbn [firstn map fst snd]. now rewrite <- !app_assoc.
    + rewrite addData_full by assumption. cbn [snd].
      unfold afterAll in IH. rewrite IH.
      replace (Z.to_nat (Window.windowSize w
                         - Z.of_nat (length (Window.x w)))) with 0%nat by lia.
      now rewrite !firstn_0.
Qed.

(** C5. In a fresh window of capacity [C >= 0], a caller that makes [n] calls
    of [addData] and never slides ends with the first [min(n, C)] samples in
    the window, so that [getLength()] returns [min(n, C)]; a call of
    [addData] on a window shorter than its capacity returns and appends the
    sample to each axis; a call on a window that has reached its capacity
    throws "Window is full" and leaves the window as it was. *)
Theorem addData_fills_to_capacity
  (C : Z) (sensor : string) (V : option Z) (samples : list (num * num * num)) :
  (0 <= C)%Z ->
  let w := addAll samples (Window.new C sensor V) in
  Window.getLength w
  = (Normal (Z.to_nat (Z.min (Z.of_nat (length samples)) C)), w)
  /\ Window.x w = map (fun s => fst (fst s)) (firstn (Z.to_nat C) samples)
  /\ Window.y w = map (fun s => snd (fst s)) (firstn (Z.to_nat C) samples)
  /\ Window.z w = map (fun s => snd s) (firstn (Z.to_nat C) samples)
  /\ (forall (w' : Window.t num) vx vy vz,
        (Z.of_nat (length (Window.x w')) < Window.windowSize w')%Z ->
        Window.addData vx vy vz w'
        = (Normal tt,
           Window.set_z (Window.z w' ++ [vz])
             (Window.set_y (Window.y w' ++ [vy])
                (Window.set_x (Window.x w' ++ [vx]) w'))))
  /\ (forall (w' : Window.t num) vx vy vz,
        Z.of_nat (length (Window.x w')) = Window.windowSize w' ->
        Window.addData vx vy vz w' = (Throw WindowIsFull, w')).
Proof.
  intros HC w. subst w. rewrite addAll_contents.
  cbn [Window.new Window.windowSize Window.x Window.y Window.z length app].
  rewrite Z.sub_0_r.
  repeat split; try reflexivity.
  - unfold Window.getLength, bind, get, ret. cbn [Window.x].
    rewrite length_map, length_firstn. do 2 f_equal. lia.
  - intros w' vx vy vz Hlt. now rewrite addData_not_full.
  - intros w' vx vy vz Heq. apply addData_full. lia.
Qed.


(** C4. On a window whose three axes hold exactly [windowSize] samples, with
    [0 <= overlapSize <= windowSize], [slide()] returns and leaves on each
    axis exactly [overlapSize] samples: the last ones of that axis, in their
    order (none when [overlapSize] is 0).  On a window shorter than
    [windowSize], [slide()] throws "Window is not full" and leaves the window
    as it was. *)
Theorem slide_keeps_last_overlap (w : Window.t num) :
  ((Z.of_nat (length (Window.x w)) < Window.windowSize w)%Z ->
   Window.slide w = (Throw WindowIsNotFull, w))
  /\ (lockstep w ->
      (0 <= Window.overlapSize w <= Window.windowSize w)%Z ->
      Z.of_nat (length (Window.x w)) = Window.windowSize w ->
      exists w' dx dy dz,
        Window.slide w = (Normal tt, w')
        /\ Window.windowSize w' = Window.windowSize w
        /\ Window.overlapSize w' = Window.overlapSize w
        /\ Window.x w = dx ++ Window.x w'
        /\ Window.y w = dy ++ Window.y w'
        /\ Window.z w = dz ++ Window.z w'
        /\ Z.of_nat (length (Window.x w')) = Window.overlapSize w
        /\ Z.of_nat (length (Window.y w')) = Window.overlapSize w
        /\ Z.of_nat (length (Window.z w')) = Window.overlapSize w
        /\ (Window.overlapSize w = 0%Z ->
            Window.x w' = [] /\ Window.y w' = [] /\ Window.z w' = [])).
Proof.
  split; [apply slide_not_full |].
  intros [Hy Hz] HV Hlen.
  set (k := (Window.windowSize w - Window.overlapSize w)%Z).
  assert (Hkx : (0 <= k <= Z.of_nat (length (Window.x w)))%Z) by (subst k; lia).
  assert (Hky : (0 <= k <= Z.of_nat (length (Window.y w)))%Z) by (rewrite Hy; lia).
  assert (Hkz : (0 <= k <= Z.of_nat (length (Window.z w)))%Z) by (rewrite Hz; lia).
  eexists _, (firstn (Z.to_nat k) (Window.x w)),
    (firstn (Z.to_nat k) (Window.y w)), (firstn (Z.to_nat k) (Window.z w)).
  split; [apply slide_full; lia |].
  cbn zeta. cbn [Window.windowSize Window.overlapSize Window.x Window.y Window.z].
  fold k.
  pose proof (slice_length k (Window.x w) Hkx) as Lx.
  pose proof (slice_length k (Window.y w) Hky) as Ly.
  pose proof (slice_length k (Window.z w) Hkz) as Lz.
  repeat split; try (now apply slice_suffix); try (subst k; lia).
  all: intros; apply length_zero_iff_nil; subst k; lia.
Qed.


(** C9. Every window that a caller can reach from the constructor (with a
    capacity [C >= 0]) by calls of [addData], [slide] and [extractFeatures],
    returning or throwing, has its three axes of one length, between 0 and
    the capacity.  On such a window [addData] appends one sample to each of
    the three axes or leaves the window as it was, [slide] drops the same
    number of leading samples from each of the three axes, and
    [extractFeatures] leaves the window as it was. *)
Theorem window_axes_in_lockstep
  (C : Z) (sensor : string) (V : option Z) (calls : list Call) :
  (0 <= C)%Z ->
  let w := afterAll calls (Window.new C sensor V) in
  invariant w
  /\ Window.windowSize w = C
  /\ (forall vx vy vz,
        let w' := after w (CallAddData vx vy vz) in
        w' = w
        \/ (Window.x w' = Window.x w ++ [vx]
            /\ Window.y w' = Window.y w ++ [vy]
            /\ Window.z w' = Window.z w ++ [vz]))
  /\ (exists k,
        let w' := after w CallSlide in
        Window.x w' = skipn k (Window.x w)
        /\ Window.y w' = skipn k (Window.y w)
        /\ Window.z w' = skipn k (Window.z w))
  /\ after w CallExtractFeatures = w.
Proof.
  intros HC w.
  assert (Hinv : invariant w)
    by (apply afterAll_invariant, new_invariant; exact HC).
  split; [exact Hinv |].
  split; [subst w; now rewrite afterAll_windowSize |].
  destruct Hinv as [[Hy Hz] Hlen].
  split; [| split].
  - intros vx vy vz. cbn zeta. cbn [after].
    destruct (Z.lt_ge_cases (Z.of_nat (length (Window.x w)))
                            (Window.windowSize w)) as [Hlt | Hge].
    + right. now rewrite addData_not_full.
    + left. now rewrite addData_full.
  - cbn zeta. cbn [after].
    destruct (Z.lt_ge_cases (Z.of_nat (length (Window.x w)))
                            (Window.windowSize w)) as [Hlt | Hge].
    + exists 0%nat. now rewrite slide_not_full.
    + rewrite slide_full by assumption. cbn -[slice]. unfold slice.
      rewrite Hy, Hz. eexists. repeat split; reflexivity.
  - reflexivity.
Qed.

End WindowProperties.

(** Witness for C5: capacity 2, three additions. *)
Lemma addData_fills_to_capacity_witness :
  (0 <= 2)%Z
  /\ Window.getLength
       (WindowCalls.addAll [(1, 2, 3); (4, 5, 6); (7, 8, 9)]%float
               (Window.new 2 "accelerometer"%string None))
     = (Normal 2%nat,
        Window.mk 2 "accelerometer"%string 0 [1; 4]%float [2; 5]%float [3; 6]%float).
Proof.
  split; [lia |].
  exact (proj1 (addData_fills_to_capacity (num := float) 2 "accelerometer"%string None
                  [(1, 2, 3); (4, 5, 6); (7, 8, 9)]%float
                  ltac:(lia))).
Defined.
(** Witness for C4: capacity 3, overlap 1; a full window and a short one. *)
Lemma slide_keeps_last_overlap_witness :
  Window.slide (Window.mk 3 "gyroscope"%string 1 [1; 2]%float [4; 5]%float [7; 8]%float)
  = (Throw WindowIsNotFull,
     Window.mk 3 "gyroscope"%string 1 [1; 2]%float [4; 5]%float [7; 8]%float)
  /\ exists w' dx dy dz,
       Window.slide (Window.mk 3 "gyroscope"%string 1 [1; 2; 3]%float [4; 5; 6]%float
                               [7; 8; 9]%float)
       = (Normal tt, w')
       /\ [1; 2; 3]%float = dx ++ Window.x w'
       /\ [4; 5; 6]%float = dy ++ Window.y w'
       /\ [7; 8; 9]%float = dz ++ Window.z w'
       /\ Z.of_nat (length (Window.x w')) = 1%Z.
Proof.
  split.
  - apply (proj1 (slide_keeps_last_overlap (num := float)
       (Window.mk 3 "gyroscope"%string 1 [1; 2]%float [4; 5]%float [7; 8]%float))).
    simpl. lia.
  - destruct (proj2 (slide_keeps_last_overlap (num := float)
       (Window.mk 3 "gyroscope"%string 1 [1; 2; 3]%float [4; 5; 6]%float
                  [7; 8; 9]%float)))
      as (w' & dx & dy & dz & Hs & _ & _ & Hx & Hy & Hz & Lx & _).
    + split; reflexivity.
    + simpl. lia.
    + reflexivity.
    + exists w', dx, dy, dz. repeat split; assumption.
Defined.

(* ------------------------------------------------------------------ *)
(** ** Exact arithmetic: the comparison of rationals *)

Lemma Qc_ltb_lt (a b : Qc) : Exact.Qc_ltb a b = true <-> (a < b)%Qc.
Proof.
  unfold Exact.Qc_ltb. rewrite Qclt_alt.
  destruct (a ?= b)%Qc; split; congruence.
Qed.

(* ------------------------------------------------------------------ *)
(** ** Binary64: the order of the comparisons *)

Section Binary64Order.

Lemma SFcompare_refl (a : spec_float) :
  a <> S754_nan -> SFcompare a a = Some Eq.
Proof.
  destruct a as [s | s | | s m e]; intros Ha; try congruence; cbn.
  - reflexivity.
  - now destruct s.
  - rewrite Z.compare_refl, Pos.compare_cont_refl. now destruct s.
Qed.

Lemma SFleb_refl (a : spec_float) : a <> S754_nan -> SFleb a a = true.
Proof. intros Ha. unfold SFleb. now rewrite SFcompare_refl. Qed.

Lemma SFltb_leb (a b : spec_float) : SFltb a b = true -> SFleb a b = true.
Proof. unfold SFltb, SFleb. now destruct (SFcompare a b) as [[| |] |]. Qed.

Lemma SFcompare_antisym (a b : spec_float) :
  SFcompare b a = option_map CompOpp (SFcompare a b).
Proof.
  destruct a as [sa | sa | | sa ma ea], b as [sb | sb | | sb mb eb]; cbn;
    try reflexivity; try (now destruct sa); try (now destruct sb);
    try (now destruct sa, sb).
  change (Pos.compare_cont Eq) with Pos.compare.
  destruct sa, sb; cbn; try reflexivity;
    destruct (Z.compare_spec ea eb), (Z.compare_spec eb ea);
    try lia; cbn; try reflexivity; subst;
    destruct (Pos.compare_spec ma mb), (Pos.compare_spec mb ma);
    try lia; cbn; try reflexivity.
Qed.

Lemma SFleb_total (a b : spec_float) :
  a <> S754_nan -> b <> S754_nan -> SFltb b a = false -> SFleb a b = true.
Proof.
  intros Ha Hb. unfold SFltb, SFleb. rewrite (SFcompare_antisym a b).
  destruct (SFcompare a b) as [[| |] |] eqn:E; cbn; try congruence.
  destruct a, b; cbn in E; congruence.
Qed.

Lemma SFleb_trans (a b c : spec_float) :
  SFleb a b = true -> SFleb b c = true -> SFleb a c = true.
Proof.
  unfold SFleb.
  destruct a as [sa | sa | | sa ma ea], b as [sb | sb | | sb mb eb],
    c as [sc | sc | | sc mc ec]; cbn; try congruence;
    try (destruct sa; congruence); try (destruct sb; congruence);
    try (destruct sc; congruence);
    try (destruct sa, sb; congruence); try (destruct sb, sc; congruence);
    try (destruct sa, sc; congruence);
    try (destruct sa, sb, sc; congruence).
  all: change (Pos.compare_cont Eq) with Pos.compare.
  all: destruct sa, sb, sc; try congruence.
  all: destruct (Z.compare_spec ea eb), (Z.compare_spec eb ec),
         (Z.compare_spec ea ec); try congruence; try lia; subst.
  all: destruct (Pos.compare_spec ma mb), (Pos.compare_spec mb mc),
         (Pos.compare_spec ma mc); cbn; try congruence; try lia.
Qed.


Lemma binary64_is_nan (v : float) :
  PrimFloat.is_nan v = true <-> Prim2SF v = S754_nan.
Proof.
  unfold PrimFloat.is_nan. rewrite FloatAxioms.eqb_spec. unfold SFeqb.
  split.
  - intros Hv. destruct (Prim2SF v) eqn:E; try reflexivity;
      rewrite SFcompare_refl in Hv by congruence; discriminate.
  - intros ->. reflexivity.
Qed.

Lemma binary64_not_nan (v : float) :
  PrimFloat.is_nan v = false <-> Prim2SF v <> S754_nan.
Proof.
  rewrite <- binary64_is_nan. now destruct (PrimFloat.is_nan v).
Qed.

Lemma binary64_leb_refl (v : float) :
  PrimFloat.is_nan v = false -> PrimFloat.leb v v = true.
Proof.
  intros Hv. rewrite FloatAxioms.leb_spec.
  now apply SFleb_refl, binary64_not_nan.
Qed.

Lemma binary64_ltb_leb (a b : float) :
  PrimFloat.ltb a b = true -> PrimFloat.leb a b = true.
Proof.
  rewrite FloatAxioms.ltb_spec, FloatAxioms.leb_spec. apply SFltb_leb.
Qed.

Lemma binary64_leb_total (a b : float) :
  PrimFloat.is_nan a = false -> PrimFloat.is_nan b = false ->
  PrimFloat.ltb b a = false -> PrimFloat.leb a b = true.
Proof.
  rewrite !binary64_not_nan, FloatAxioms.ltb_spec, FloatAxioms.leb_spec.
  apply SFleb_total.
Qed.

Lemma binary64_leb_trans (a b c : float) :
  PrimFloat.leb a b = true -> PrimFloat.leb b c = true ->
  PrimFloat.leb a c = true.
Proof. rewrite !FloatAxioms.leb_spec. apply SFleb_trans. Qed.

(** The two zeros compare equal. *)
Lemma binary64_is_zero (v : float) :
  PrimFloat.is_zero v = true -> exists s, Prim2SF v = S754_zero s.
Proof.
  unfold PrimFloat.is_zero. rewrite FloatAxioms.eqb_spec.
  change (Prim2SF PrimFloat.zero) with (S754_zero false).
  unfold SFeqb. destruct (Prim2SF v) as [s | s | | s m e]; cbn;
    try discriminate; try (now destruct s).
  intros _. now exists s.
Qed.

Lemma binary64_zeros_leb (a b : float) :
  PrimFloat.is_zero a = true -> PrimFloat.is_zero b = true ->
  PrimFloat.leb a b = true.
Proof.
  intros Ha Hb. apply binary64_is_zero in Ha, Hb.
  destruct Ha as (sa & Ea), Hb as (sb & Eb).
  rewrite FloatAxioms.leb_spec, Ea, Eb. reflexivity.
Qed.

End Binary64Order.

Section Binary64Extremes.
Import Binary64.

Lemma min2_cases (lowest v : float) :
  PrimFloat.is_nan lowest = false -> PrimFloat.is_nan v = false ->
  (min2 lowest v = lowest \/ min2 lowest v = v)
  /\ PrimFloat.leb (min2 lowest v) lowest = true
  /\ PrimFloat.leb (min2 lowest v) v = true.
Proof.
  intros Hl Hv. unfold min2. rewrite Hl, Hv. cbn [orb].
  destruct (PrimFloat.ltb v lowest) eqn:Hlt.
  - repeat split; [now right | now apply binary64_ltb_leb
                   | now apply binary64_leb_refl].
  - unfold is_neg_zero.
    destruct (PrimFloat.is_zero lowest) eqn:Zl,
             (PrimFloat.is_zero v) eqn:Zv; cbn [andb];
      try destruct (PrimFloat.get_sign v);
      repeat split; auto using binary64_leb_refl, binary64_leb_total,
                      binary64_zeros_leb.
Qed.

Lemma max2_cases (highest v : float) :
  PrimFloat.is_nan highest = false -> PrimFloat.is_nan v = false ->
  (max2 highest v = highest \/ max2 highest v = v)
  /\ PrimFloat.leb highest (max2 highest v) = true
  /\ PrimFloat.leb v (max2 highest v) = true.
Proof.
  intros Hh Hv. unfold max2. rewrite Hh, Hv. cbn [orb].
  destruct (PrimFloat.ltb highest v) eqn:Hlt.
  - repeat split; [now right | now apply binary64_ltb_leb
                   | now apply binary64_leb_refl].
  - unfold is_neg_zero.
    destruct (PrimFloat.is_zero highest) eqn:Zh,
             (PrimFloat.is_zero v) eqn:Zv; cbn [andb];
      try destruct (PrimFloat.get_sign highest);
      repeat split; auto using binary64_leb_refl, binary64_leb_total,
                      binary64_zeros_leb.
Qed.

(** [Math.min] from a running minimum that is not NaN, over samples that
    are not NaN: the result is the running minimum or a sample, and it is
    below the running minimum and below every sample. *)
Lemma binary64_min_from (vs : list float) (lowest : float) :
  PrimFloat.is_nan lowest = false -> comparable vs ->
  let m := fold_left min2 vs lowest in
  (m = lowest \/ In m vs)
  /\ PrimFloat.leb m lowest = true
  /\ (forall v, In v vs -> PrimFloat.leb m v = true).
Proof.
  revert lowest. induction vs as [| v vs IH]; intros lowest Hl Hvs; cbn.
  - repeat split; auto using binary64_leb_refl; intros v [].
  - assert (Hv : PrimFloat.is_nan v = false) by (apply Hvs; now left).
    destruct (min2_cases lowest v Hl Hv) as (Hcase & Hlow & Hlev).
    assert (Hm : PrimFloat.is_nan (min2 lowest v) = false)
      by (destruct Hcase as [-> | ->]; assumption).
    destruct (IH (min2 lowest v) Hm) as (Hin & Hle & Hall).
    { intros u Hu. apply Hvs. now right. }
    repeat split.
    + destruct Hin as [-> | Hin]; [| now right; right].
      destruct Hcase as [-> | ->]; [now left | now right; left].
    + eapply binary64_leb_trans; eassumption.
    + intros u [<- | Hu]; [| now apply Hall].
      eapply binary64_leb_trans; eassumption.
Qed.

Lemma binary64_max_from (vs : list float) (highest : float) :
  PrimFloat.is_nan highest = false -> comparable vs ->
  let m := fold_left max2 vs highest in
  (m = highest \/ In m vs)
  /\ PrimFloat.leb highest m = true
  /\ (forall v, In v vs -> PrimFloat.leb v m = true).
Proof.
  revert highest. induction vs as [| v vs IH]; intros highest Hh Hvs; cbn.
  - repeat split; auto using binary64_leb_refl; intros v [].
  - assert (Hv : PrimFloat.is_nan v = false) by (apply Hvs; now left).
    destruct (max2_cases highest v Hh Hv) as (Hcase & Hlow & Hlev).
    assert (Hm : PrimFloat.is_nan (max2 highest v) = false)
      by (destruct Hcase as [-> | ->]; assumption).
    destruct (IH (max2 highest v) Hm) as (Hin & Hle & Hall).
    { intros u Hu. apply Hvs. now right. }
    repeat split.
    + destruct Hin as [-> | Hin]; [| now right; right].
      destruct Hcase as [-> | ->]; [now left | now right; left].
    + eapply binary64_leb_trans; eassumption.
    + intros u [<- | Hu]; [| now apply Hall].
      eapply binary64_leb_trans; eassumption.
Qed.

End Binary64Extremes.

(* ------------------------------------------------------------------ *)
(** ** Binary64: integers, their sums and their quotients *)

Section Binary64Integers.
Import Binary64.

(** Shifting a mantissa left by [k] bits. *)
Lemma digits2_pos_shift (m k : positive) :
  digits2_pos (Pos.iter xO m k) = (digits2_pos m + k)%positive.
Proof.
  induction k as [| k IH] using Pos.peano_ind.
  - cbn. lia.
  - rewrite Pos.iter_succ. cbn [digits2_pos]. rewrite IH. lia.
Qed.

Lemma Zpos_shift (m k : positive) :
  Zpos (Pos.iter xO m k) = (Zpos m * 2 ^ Zpos k)%Z.
Proof.
  induction k as [| k IH] using Pos.peano_ind.
  - cbn. lia.
  - rewrite Pos.iter_succ, Pos2Z.inj_xO, IH, Pos2Z.inj_succ.
    rewrite Z.pow_succ_r by lia. lia.
Qed.

(** Shifting right the bits that a left shift added loses nothing. *)
Lemma shr_shift (m k : positive) :
  iter_pos shr_1 k (Build_shr_record (Zpos (Pos.iter xO m k)) false false)
  = Build_shr_record (Zpos m) false false.
Proof.
  revert m. induction k as [k IH | k IH |]; intros m; cbn [iter_pos Pos.iter].
  - cbn [shr_1 orb]. now rewrite !IH.
  - now rewrite !IH.
  - reflexivity.
Qed.

Lemma fexp_small (e : Z) :
  (-1021 <= e)%Z -> fexp prec emax e = (e - 53)%Z.
Proof. intros He. unfold fexp, emin, prec, emax. lia. Qed.

(** A mantissa that is canonical for its exponent is left as it is. *)
Lemma binary_round_aux_canonical (s : bool) (m : positive) (e : Z) :
  canonical_mantissa prec emax m e = true -> (e <= emax - prec)%Z ->
  binary_round_aux prec emax s (Zpos m) e loc_Exact = S754_finite s m e.
Proof.
  unfold canonical_mantissa. intros Hc He. apply Z.eqb_eq in Hc.
  unfold binary_round_aux, shr_fexp.
  cbn [Zdigits2 shr_record_of_loc]. rewrite Hc, Z.sub_diag.
  cbn [shr shr_m loc_of_shr_record round_nearest_even Zdigits2
       shr_record_of_loc].
  rewrite Hc, Z.sub_diag. cbn [shr shr_m].
  apply Z.leb_le in He. now rewrite He.
Qed.

(** ... and trailing zero bits in front of it are shifted out. *)
Lemma binary_round_aux_shifted (s : bool) (m k : positive) (e : Z) :
  canonical_mantissa prec emax m (e + Zpos k) = true ->
  (e + Zpos k <= emax - prec)%Z ->
  binary_round_aux prec emax s (Zpos (Pos.iter xO m k)) e loc_Exact
  = S754_finite s m (e + Zpos k).
Proof.
  unfold canonical_mantissa. intros Hc He. apply Z.eqb_eq in Hc.
  unfold binary_round_aux, shr_fexp.
  cbn [Zdigits2 shr_record_of_loc]. rewrite digits2_pos_shift.
  replace (Z.pos (digits2_pos m + k) + e)%Z
    with (Z.pos (digits2_pos m) + (e + Z.pos k))%Z by lia.
  rewrite Hc. replace (e + Z.pos k - e)%Z with (Z.pos k) by lia.
  cbn [shr]. rewrite shr_shift.
  cbn [shr_m loc_of_shr_record round_nearest_even Zdigits2
       shr_record_of_loc].
  rewrite Hc, Z.sub_diag. cbn [shr shr_m].
  apply Z.leb_le in He. now rewrite He.
Qed.


Lemma canonical_53 (m : positive) (e : Z) :
  (Zpos (digits2_pos m) = 53)%Z -> (-1021 <= 53 + e)%Z ->
  canonical_mantissa prec emax m e = true.
Proof.
  intros Hd He. unfold canonical_mantissa. apply Z.eqb_eq.
  rewrite Hd, fexp_small by lia. lia.
Qed.

Lemma binary_round_integer (s : bool) (m : positive) :
  (Zpos (digits2_pos m) <= 53)%Z ->
  binary_round prec emax s m 0 = normal s m.
Proof.
  intros Hd. unfold binary_round, normal, shl_align.
  rewrite fexp_small by lia.
  replace (Z.pos (digits2_pos m) + 0 - 53 - 0)%Z
    with (- (prec - Z.pos (digits2_pos m)))%Z by (unfold prec; lia).
  destruct (prec - Z.pos (digits2_pos m))%Z as [| k | k] eqn:E;
    unfold prec in E; cbn [Z.opp]; try lia.
  - apply binary_round_aux_canonical; [| unfold emax, prec; lia].
    apply canonical_53; lia.
  - replace (Z.pos (digits2_pos m) + 0 - 53)%Z with (- Z.pos k)%Z by lia.
    apply binary_round_aux_canonical; [| unfold emax, prec; lia].
    apply canonical_53; [rewrite digits2_pos_shift |]; lia.
Qed.

Lemma binary_round_shifted_integer (s : bool) (m k : positive) :
  (Zpos (digits2_pos m) <= 53)%Z ->
  binary_round prec emax s (Pos.iter xO m k) (- Zpos k) = normal s m.
Proof.
  intros Hd. unfold binary_round, normal, shl_align.
  rewrite digits2_pos_shift.
  rewrite fexp_small by lia.
  replace (Z.pos (digits2_pos m + k) + - Z.pos k - 53 - - Z.pos k)%Z
    with (Z.pos k - (prec - Z.pos (digits2_pos m)))%Z by (unfold prec; lia).
  replace (Z.pos (digits2_pos m + k) + - Z.pos k - 53)%Z
    with (- (prec - Z.pos (digits2_pos m)))%Z by (unfold prec; lia).
  destruct (prec - Z.pos (digits2_pos m))%Z as [| j | j] eqn:E;
    unfold prec in E; try lia.
  - (* the magnitude has 53 bits: shift the [k] zero bits out *)
    cbn [Z.sub Z.opp Z.add].
    rewrite (binary_round_aux_shifted s m k (Z.neg k)).
    + f_equal. lia.
    + apply canonical_53; lia.
    + unfold emax, prec. lia.
  - destruct (Z.pos k - Z.pos j)%Z as [| n | n] eqn:F.
    + assert (k = j) by lia. subst j.
      apply binary_round_aux_canonical; [| unfold emax, prec; lia].
      apply canonical_53; [rewrite digits2_pos_shift |]; lia.
    + (* more zero bits than needed: shift [n] of them out *)
      assert (k = (n + j)%positive) by lia. subst k.
      rewrite Pos.iter_add.
      rewrite (binary_round_aux_shifted s (Pos.iter xO m j) n).
      * f_equal. lia.
      * apply canonical_53; [rewrite digits2_pos_shift |]; lia.
      * unfold emax, prec. lia.
    + (* fewer zero bits than needed: add [n] more *)
      assert (j = (n + k)%positive) by lia. subst j.
      rewrite <- Pos.iter_add. cbn [Z.opp].
      apply binary_round_aux_canonical; [| unfold emax, prec; lia].
      apply canonical_53; [rewrite digits2_pos_shift |]; lia.
Qed.


Lemma digits2_pos_size (m : positive) : digits2_pos m = Pos.size m.
Proof. induction m; cbn; congruence. Qed.

Lemma digits2_pos_le (m : positive) (n : Z) :
  (0 <= n)%Z -> (Zpos m < 2 ^ n)%Z -> (Zpos (digits2_pos m) <= n)%Z.
Proof.
  intros Hn Hm. rewrite digits2_pos_size.
  pose proof (Pos.size_le m) as Hle.
  apply Pos2Z.pos_le_pos in Hle. rewrite Pos2Z.inj_pow, (Pos2Z.inj_xO m) in Hle.
  destruct (Z.le_gt_cases (Zpos (Pos.size m)) n) as [| Hgt]; [assumption |].
  exfalso.
  assert (Hpow : (2 ^ Z.succ n <= 2 ^ Zpos (Pos.size m))%Z)
    by (apply Z.pow_le_mono_r; lia).
  rewrite Z.pow_succ_r in Hpow by assumption. lia.
Qed.

Lemma normal_form (s : bool) (m : positive) :
  (Zpos (digits2_pos m) <= 53)%Z ->
  exists M e,
    normal s m = S754_finite s M e
    /\ e = (Zpos (digits2_pos m) - 53)%Z
    /\ (Zpos M = Zpos m * 2 ^ (- e))%Z
    /\ Zpos (digits2_pos M) = 53%Z
    /\ valid_binary (S754_finite s M e) = true.
Proof.
  intros Hd. unfold normal.
  destruct (prec - Z.pos (digits2_pos m))%Z as [| k | k] eqn:E;
    unfold prec in E; try lia.
  - exists m, 0%Z. repeat split; try lia.
    cbn [valid_binary]. unfold bounded.
    rewrite canonical_53 by lia. reflexivity.
  - exists (Pos.iter xO m k), (- Zpos k)%Z. repeat split; try lia.
    + rewrite Zpos_shift. f_equal.
    + rewrite digits2_pos_shift. lia.
    + cbn [valid_binary]. unfold bounded.
      rewrite canonical_53 by (rewrite ?digits2_pos_shift; lia).
      apply Z.leb_le. unfold emax, prec. lia.
Qed.

Lemma shl_align_value (M : positive) (e e' : Z) :
  (e' <= e)%Z ->
  (Zpos (fst (shl_align M e e')) = Zpos M * 2 ^ (e - e'))%Z.
Proof.
  intros He. unfold shl_align.
  destruct (e' - e)%Z as [| d | d] eqn:E; try lia; cbn [fst].
  - replace (e - e')%Z with 0%Z by lia. lia.
  - rewrite Zpos_shift. f_equal. f_equal. lia.
Qed.

(** An integer below [2^53] in magnitude, scaled by a power of two and
    given with the opposite exponent, normalises to the integer. *)
Lemma binary_normalize_scaled (z k : Z) :
  (Z.abs z < 2 ^ 53)%Z -> (0 <= k)%Z ->
  binary_normalize prec emax (z * 2 ^ k) (- k) false
  = spec_of_Z z.
Proof.
  intros Hz Hk. unfold spec_of_Z.
  destruct z as [| m | m].
  - reflexivity.
  - assert (Hd : (Zpos (digits2_pos m) <= 53)%Z)
      by (apply digits2_pos_le; lia).
    destruct k as [| k | k]; try lia.
    + rewrite Z.pow_0_r, Z.mul_1_r. reflexivity.
    + rewrite <- Zpos_shift. cbn [binary_normalize].
      now rewrite binary_round_shifted_integer, binary_round_integer.
  - assert (Hd : (Zpos (digits2_pos m) <= 53)%Z)
      by (apply digits2_pos_le; lia).
    destruct k as [| k | k]; try lia.
    + rewrite Z.pow_0_r, Z.mul_1_r. reflexivity.
    + change (Z.neg m) with (- Z.pos m)%Z at 1.
      rewrite Z.mul_opp_l, <- Zpos_shift. cbn [Z.opp binary_normalize].
      now rewrite binary_round_shifted_integer, binary_round_integer.
Qed.

Lemma spec_of_Z_signed (s : bool) (m : positive) :
  (Zpos m < 2 ^ 53)%Z ->
  spec_of_Z (cond_Zopp s (Zpos m)) = normal s m.
Proof.
  intros Hm. unfold spec_of_Z.
  destruct s; cbn [cond_Zopp Z.opp binary_normalize];
    apply binary_round_integer, digits2_pos_le; lia.
Qed.

Lemma signed_cases (z : Z) :
  z = 0%Z \/ exists s m, z = cond_Zopp s (Zpos m).
Proof.
  destruct z as [| m | m]; [now left | right | right].
  - now exists false, m.
  - now exists true, m.
Qed.

Lemma cond_Zopp_mul (s : bool) (a b : Z) :
  (cond_Zopp s a * b = cond_Zopp s (a * b))%Z.
Proof. destruct s; cbn; lia. Qed.

Lemma cond_Zopp_abs (s : bool) (m : positive) :
  Z.abs (cond_Zopp s (Zpos m)) = Zpos m.
Proof. now destruct s. Qed.

(** Adding two integers in binary64 is exact as long as the integers and
    their sum are below [2^53] in magnitude. *)
Lemma SF64add_integers (a b : Z) :
  (Z.abs a < 2 ^ 53)%Z -> (Z.abs b < 2 ^ 53)%Z ->
  (Z.abs (a + b) < 2 ^ 53)%Z ->
  SF64add (spec_of_Z a) (spec_of_Z b)
  = spec_of_Z (a + b).
Proof.
  intros Ha Hb Hab.
  destruct (signed_cases a) as [-> | (sa & ma & ->)],
           (signed_cases b) as [-> | (sb & mb & ->)].
  - reflexivity.
  - rewrite cond_Zopp_abs in Hb. rewrite Z.add_0_l.
    rewrite spec_of_Z_signed by assumption.
    destruct (normal_form sb mb) as (M & e & -> & _);
      [apply digits2_pos_le; lia |].
    reflexivity.
  - rewrite cond_Zopp_abs in Ha. rewrite Z.add_0_r.
    rewrite spec_of_Z_signed by assumption.
    destruct (normal_form sa ma) as (M & e & -> & _);
      [apply digits2_pos_le; lia |].
    reflexivity.
  - rewrite cond_Zopp_abs in Ha, Hb.
    rewrite !spec_of_Z_signed by assumption.
    destruct (normal_form sa ma) as (Ma & ea & -> & Hea & HMa & _);
      [apply digits2_pos_le; lia |].
    destruct (normal_form sb mb) as (Mb & eb & -> & Heb & HMb & _);
      [apply digits2_pos_le; lia |].
    assert (Hda : (0 < Zpos (digits2_pos ma))%Z) by lia.
    assert (Hdb : (0 < Zpos (digits2_pos mb))%Z) by lia.
    assert (Hda' : (Zpos (digits2_pos ma) <= 53)%Z)
      by (apply digits2_pos_le; lia).
    assert (Hdb' : (Zpos (digits2_pos mb) <= 53)%Z)
      by (apply digits2_pos_le; lia).
    unfold SF64add, SFadd.
    rewrite !shl_align_value by lia.
    rewrite HMa, HMb, <- !Z.mul_assoc, <- !Z.pow_add_r by lia.
    replace (- ea + (ea - Z.min ea eb))%Z with (- Z.min ea eb)%Z by lia.
    replace (- eb + (eb - Z.min ea eb))%Z with (- Z.min ea eb)%Z by lia.
    rewrite <- !cond_Zopp_mul, <- Z.mul_add_distr_r.
    set (k := (- Z.min ea eb)%Z).
    replace (Z.min ea eb) with (- k)%Z by (unfold k; lia).
    apply binary_normalize_scaled; unfold k; lia.
Qed.


Lemma digits2_pos_gt (m : positive) :
  (Zpos m < 2 ^ Zpos (digits2_pos m))%Z.
Proof.
  rewrite digits2_pos_size. pose proof (Pos.size_gt m) as Hgt.
  apply Pos2Z.pos_lt_pos in Hgt. now rewrite Pos2Z.inj_pow in Hgt.
Qed.

Lemma digits2_pos_ge (m : positive) :
  (2 ^ (Zpos (digits2_pos m) - 1) <= Zpos m)%Z.
Proof.
  rewrite digits2_pos_size. pose proof (Pos.size_le m) as Hle.
  apply Pos2Z.pos_le_pos in Hle.
  rewrite Pos2Z.inj_pow, (Pos2Z.inj_xO m) in Hle.
  replace (Zpos (Pos.size m)) with (Z.succ (Zpos (Pos.size m) - 1)) in Hle
    by lia.
  rewrite Z.pow_succ_r in Hle by lia. lia.
Qed.

(** The bits of a product: the bits of the factors, or one less. *)
Lemma digits2_pos_mul (a b : positive) :
  (Zpos (digits2_pos a) + Zpos (digits2_pos b) - 1
   <= Zpos (digits2_pos (a * b))
   <= Zpos (digits2_pos a) + Zpos (digits2_pos b))%Z.
Proof.
  pose proof (digits2_pos_gt a) as Ha. pose proof (digits2_pos_gt b) as Hb.
  pose proof (digits2_pos_ge a) as Ha'. pose proof (digits2_pos_ge b) as Hb'.
  pose proof (digits2_pos_gt (a * b)) as Hab.
  split.
  - assert (Hlow : (2 ^ (Zpos (digits2_pos a) - 1 + (Zpos (digits2_pos b) - 1))
                    <= Zpos (a * b))%Z).
    { rewrite Z.pow_add_r, Pos2Z.inj_mul by lia.
      apply Z.mul_le_mono_nonneg; lia. }
    assert (Hlt : (Zpos (digits2_pos a) - 1 + (Zpos (digits2_pos b) - 1)
                   < Zpos (digits2_pos (a * b)))%Z).
    { apply (Z.pow_lt_mono_r_iff 2); lia. }
    lia.
  - apply digits2_pos_le; [lia |].
    rewrite Z.pow_add_r, Pos2Z.inj_mul by lia.
    apply Z.mul_lt_mono_nonneg; lia.
Qed.

Lemma div_eucl_exact (q b : Z) :
  (0 < b)%Z -> Z.div_eucl (q * b) b = (q, 0%Z).
Proof.
  intros Hb.
  pose proof (Z.div_mul q b ltac:(lia)) as Hq.
  pose proof (Z.mod_mul q b ltac:(lia)) as Hr.
  unfold Z.div, Z.modulo in Hq, Hr.
  destruct (Z.div_eucl (q * b) b). now subst.
Qed.

(** Dividing a multiple of a positive integer by that integer is exact, as
    long as the multiple is below [2^53] in magnitude. *)
Lemma SFdiv_normal (s : bool) (mc mb : positive) :
  (Zpos (mc * mb) < 2 ^ 53)%Z ->
  SFdiv prec emax (normal s (mc * mb)) (normal false mb) = normal s mc.
Proof.
  intros Hab.
  pose proof (digits2_pos_mul mc mb) as Hmul.
  assert (Hda : (Zpos (digits2_pos (mc * mb)) <= 53)%Z)
    by (apply digits2_pos_le; lia).
  assert (Hdb : (Zpos (digits2_pos mb) <= 53)%Z) by lia.
  assert (Hdc : (Zpos (digits2_pos mc) <= 53)%Z) by lia.
  destruct (normal_form s (mc * mb) Hda)
    as (Ma & ea & -> & Hea & HMa & HdMa & _).
  destruct (normal_form false mb Hdb)
    as (Mb & eb & -> & Heb & HMb & HdMb & _).
  destruct (normal_form s mc Hdc)
    as (Mc & ec & -> & Hec & HMc & HdMc & Hvalid).
  cbn [SFdiv]. unfold SFdiv_core_binary. cbn [Zdigits2].
  rewrite HdMa, HdMb, fexp_small by lia.
  rewrite Z.min_l by lia.
  replace (ea - eb - (53 + ea - (53 + eb) - 53))%Z with 53%Z by lia.
  rewrite Z.shiftl_mul_pow2 by lia.
  set (n := (Zpos (digits2_pos mb) + Zpos (digits2_pos mc)
             - Zpos (digits2_pos (mc * mb)))%Z).
  assert (Hq : (Zpos Ma * 2 ^ 53 = Zpos Mc * 2 ^ n * Zpos Mb)%Z).
  { rewrite HMa, HMb, HMc, Pos2Z.inj_mul.
    replace (Z.pos mc * Z.pos mb * 2 ^ (- ea) * 2 ^ 53)%Z
      with (Z.pos mc * Z.pos mb * (2 ^ (- ea) * 2 ^ 53))%Z by ring.
    replace (Z.pos mc * 2 ^ (- ec) * 2 ^ n * (Z.pos mb * 2 ^ (- eb)))%Z
      with (Z.pos mc * Z.pos mb * (2 ^ (- ec) * 2 ^ n * 2 ^ (- eb)))%Z
      by ring.
    rewrite <- !Z.pow_add_r by (unfold n; lia).
    do 2 f_equal. unfold n. lia. }
  rewrite Hq, div_eucl_exact by lia.
  replace (new_location (Zpos Mb) 0) with loc_Exact
    by (unfold new_location, new_location_even, new_location_odd;
        now destruct (Z.even (Zpos Mb))).
  cbn [xorb]. rewrite xorb_false_r.
  assert (Hn : n = 0%Z \/ n = 1%Z) by (unfold n; lia).
  destruct Hn as [Hn | Hn]; rewrite Hn.
  - rewrite Z.pow_0_r, Z.mul_1_r.
    rewrite binary_round_aux_canonical.
    + f_equal. unfold n in Hn. lia.
    + apply canonical_53; lia.
    + unfold emax, prec. lia.
  - change (2 ^ 1)%Z with (2 ^ Zpos 1)%Z. rewrite <- Zpos_shift.
    rewrite binary_round_aux_shifted.
    + f_equal. unfold n in Hn. lia.
    + apply canonical_53; lia.
    + unfold emax, prec. lia.
Qed.

Lemma SF64div_integers (c b : Z) :
  (0 < b < 2 ^ 53)%Z -> (Z.abs (c * b) < 2 ^ 53)%Z ->
  SF64div (spec_of_Z (c * b)) (spec_of_Z b)
  = spec_of_Z c.
Proof.
  intros Hb Hcb. unfold SF64div.
  destruct b as [| mb |]; try lia.
  assert (Hmb : (Zpos mb < 2 ^ 53)%Z) by lia.
  pose proof (spec_of_Z_signed false mb Hmb) as Eb.
  cbn [cond_Zopp] in Eb. rewrite Eb. clear Eb.
  destruct (signed_cases c) as [-> | (s & mc & ->)].
  - destruct (normal_form false mb) as (M & e & -> & _);
      [apply digits2_pos_le; lia |].
    reflexivity.
  - rewrite cond_Zopp_mul in *. rewrite <- Pos2Z.inj_mul in *.
    rewrite cond_Zopp_abs in Hcb.
    rewrite !spec_of_Z_signed by nia.
    now apply SFdiv_normal.
Qed.


(** The binary64 value of an integer below [2^53] in magnitude is that
    integer. *)
Lemma spec_of_Z_valid (z : Z) :
  (Z.abs z < 2 ^ 53)%Z -> valid_binary (spec_of_Z z) = true.
Proof.
  intros Hz. destruct (signed_cases z) as [-> | (s & m & ->)].
  - reflexivity.
  - rewrite cond_Zopp_abs in Hz. rewrite spec_of_Z_signed by assumption.
    destruct (normal_form s m) as (M & e & -> & _ & _ & _ & Hvalid);
      [apply digits2_pos_le; lia | exact Hvalid].
Qed.

Lemma Prim2SF_of_Z (z : Z) :
  (Z.abs z < 2 ^ 53)%Z -> Prim2SF (of_Z z) = spec_of_Z z.
Proof.
  intros Hz. unfold of_Z. now apply Prim2SF_SF2Prim, spec_of_Z_valid.
Qed.

Lemma binary64_add_integers (a b : Z) :
  (Z.abs a < 2 ^ 53)%Z -> (Z.abs b < 2 ^ 53)%Z ->
  (Z.abs (a + b) < 2 ^ 53)%Z ->
  (of_Z a + of_Z b)%float = of_Z (a + b).
Proof.
  intros Ha Hb Hab. apply Prim2SF_inj.
  rewrite FloatAxioms.add_spec, !Prim2SF_of_Z by assumption.
  now apply SF64add_integers.
Qed.

Lemma binary64_div_integers (c b : Z) :
  (0 < b < 2 ^ 53)%Z -> (Z.abs (c * b) < 2 ^ 53)%Z ->
  (of_Z (c * b) / of_Z b)%float = of_Z c.
Proof.
  intros Hb Hcb. apply Prim2SF_inj.
  rewrite FloatAxioms.div_spec, !Prim2SF_of_Z by nia.
  now apply SF64div_integers.
Qed.

End Binary64Integers.

(* ------------------------------------------------------------------ *)
(** ** Feature extraction in binary64 *)

Section Binary64Features.
Import Binary64.



(** Integer samples: as long as the running sums stay below [2^53] in
    magnitude, no addition rounds. *)
Lemma binary64_sum_integers (B : Z) (ks : list Z) (sum : Z) :
  (forall k, In k ks -> (Z.abs k <= B)%Z) ->
  (Z.abs sum + Z.of_nat (length ks) * B < 2 ^ 53)%Z ->
  fold_left PrimFloat.add (integers ks) (of_Z sum) = of_Z (sum + Z_sum ks).
Proof.
  revert sum. induction ks as [| k ks IH]; intros sum Hks Hsum.
  - cbn. now rewrite Z.add_0_r.
  - assert (Hk : (Z.abs k <= B)%Z) by (apply Hks; now left).
    cbn [length] in Hsum. rewrite Nat2Z.inj_succ in Hsum.
    assert (Hrest : (0 <= Z.of_nat (length ks) * B)%Z)
      by (apply Z.mul_nonneg_nonneg; lia).
    cbn [integers map fold_left Z_sum fold_right].
    rewrite binary64_add_integers by lia.
    fold (integers ks). fold (Z_sum ks).
    rewrite IH.
    + f_equal. lia.
    + intros k' Hk'. apply Hks. now right.
    + lia.
Qed.

Lemma Z_sum_bound (B : Z) (ks : list Z) :
  (forall k, In k ks -> (Z.abs k <= B)%Z) ->
  (Z.abs (Z_sum ks) <= Z.of_nat (length ks) * B)%Z.
Proof.
  induction ks as [| k ks IH]; intros Hks.
  - cbn. lia.
  - assert (Hk : (Z.abs k <= B)%Z) by (apply Hks; now left).
    assert (IH' : (Z.abs (Z_sum ks) <= Z.of_nat (length ks) * B)%Z)
      by (apply IH; intros k' Hk'; apply Hks; now right).
    cbn [Z_sum fold_right length]. fold (Z_sum ks).
    rewrite Nat2Z.inj_succ. lia.
Qed.

Lemma binary64_mean_integers (B : Z) (ks : list Z) :
  ks <> [] ->
  (forall k, In k ks -> (Z.abs k <= B)%Z) ->
  (Z.of_nat (length ks) * B < 2 ^ 53)%Z ->
  (Z.of_nat (length ks) < 2 ^ 53)%Z ->
  let n := Z.of_nat (length ks) in
  let f := Window.getAxisFeatures (integers ks) in
  Window.mean f = (of_Z (Z_sum ks) / of_Z n)%float
  /\ (forall avg : Z,
        Z_sum ks = (avg * n)%Z -> Window.mean f = of_Z avg).
Proof.
  intros Hne Hks HB Hn n f.
  assert (Hmean : Window.mean f = (of_Z (Z_sum ks) / of_Z n)%float).
  { unfold f, Window.getAxisFeatures, Window.sum_loop.
    cbn [Window.mean num_div num_add num_of_Z number].
    rewrite (binary64_sum_integers B) by (cbn; (assumption || lia)).
    unfold integers. now rewrite length_map, Z.add_0_l. }
  split; [exact Hmean |].
  intros avg Havg. rewrite Hmean, Havg.
  pose proof (Z_sum_bound B ks Hks) as Hsum.
  assert (0 < n)%Z by (destruct ks; [congruence | cbn in n; lia]).
  apply binary64_div_integers; unfold n in *; lia.
Qed.

(** [Math.min] and [Math.max] over samples that are not NaN. *)
Lemma binary64_leb_infinity (v : float) :
  PrimFloat.leb PrimFloat.infinity v = true -> v = PrimFloat.infinity.
Proof.
  rewrite FloatAxioms.leb_spec. intros Hv. apply Prim2SF_inj.
  change (Prim2SF PrimFloat.infinity) with (S754_infinity false) in *.
  destruct (Prim2SF v) as [s | [|] | | s m e]; cbn in Hv;
    try discriminate; reflexivity.
Qed.

Lemma binary64_leb_neg_infinity (v : float) :
  PrimFloat.leb v PrimFloat.neg_infinity = true ->
  v = PrimFloat.neg_infinity.
Proof.
  rewrite FloatAxioms.leb_spec. intros Hv. apply Prim2SF_inj.
  change (Prim2SF PrimFloat.neg_infinity) with (S754_infinity true) in *.
  destruct (Prim2SF v) as [s | [|] | | s m e]; cbn in Hv;
    try discriminate; try reflexivity; now destruct s.
Qed.

Lemma binary64_min_of (v : float) (vs : list float) :
  comparable (v :: vs) ->
  In (min_of (v :: vs)) (v :: vs)
  /\ (forall u, In u (v :: vs) -> PrimFloat.leb (min_of (v :: vs)) u = true).
Proof.
  intros Hvs.
  destruct (binary64_min_from (v :: vs) PrimFloat.infinity eq_refl Hvs)
    as (Hin & _ & Hall).
  fold (min_of (v :: vs)) in Hin, Hall.
  split; [| exact Hall].
  destruct Hin as [Hinf | Hin]; [| exact Hin].
  left. rewrite Hinf. apply binary64_leb_infinity.
  rewrite <- Hinf. apply Hall. now left.
Qed.

Lemma binary64_max_of (v : float) (vs : list float) :
  comparable (v :: vs) ->
  In (max_of (v :: vs)) (v :: vs)
  /\ (forall u, In u (v :: vs) -> PrimFloat.leb u (max_of (v :: vs)) = true).
Proof.
  intros Hvs.
  destruct (binary64_max_from (v :: vs) PrimFloat.neg_infinity eq_refl Hvs)
    as (Hin & _ & Hall).
  fold (max_of (v :: vs)) in Hin, Hall.
  split; [| exact Hall].
  destruct Hin as [Hinf | Hin]; [| exact Hin].
  left. rewrite Hinf. apply binary64_leb_neg_infinity.
  rewrite <- Hinf. apply Hall. now left.
Qed.





End Binary64Features.




(* ------------------------------------------------------------------ *)
(** ** SensorDataHandler: one call, then any number of calls *)

Section CycleArithmetic.
Import HandlerCalls.
Variables C V : Z.
Hypothesis HC : (1 <= C)%Z.
Hypothesis HV : (0 <= V < C)%Z.

Lemma mod_succ (a : Z) :
  (0 <= a)%Z ->
  ((a + 1) mod (C - V)
   = if (a mod (C - V) + 1 =? C - V) then 0 else a mod (C - V) + 1)%Z.
Proof.
  intros Ha.
  pose proof (Z.mod_pos_bound a (C - V) ltac:(lia)) as Hb.
  pose proof (Z.div_mod a (C - V) ltac:(lia)) as Hd.
  destruct (Z.eqb_spec (a mod (C - V) + 1) (C - V)) as [E | E].
  - symmetry. apply Z.mod_unique_pos with (q := (a / (C - V) + 1)%Z); lia.
  - symmetry. apply Z.mod_unique_pos with (q := (a / (C - V))%Z); lia.
Qed.

Lemma levelAfter_bounds (k : nat) : (0 <= levelAfter C V k < C)%Z.
Proof.
  unfold levelAfter.
  destruct (Z.ltb_spec (Z.of_nat k) C); [lia |].
  pose proof (Z.mod_pos_bound (Z.of_nat k - C) (C - V) ltac:(lia)). lia.
Qed.

Lemma levelAfter_succ (k : nat) :
  levelAfter C V (S k)
  = (if (levelAfter C V k + 1 =? C) then V else levelAfter C V k + 1)%Z.
Proof.
  unfold levelAfter.
  destruct (Z.ltb_spec (Z.of_nat k) C) as [Hk | Hk].
  - destruct (Z.eqb_spec (Z.of_nat k + 1) C) as [E | E].
    + destruct (Z.ltb_spec (Z.of_nat (S k)) C); [lia |].
      replace (Z.of_nat (S k) - C)%Z with 0%Z by lia.
      rewrite Z.mod_0_l by lia. lia.
    + destruct (Z.ltb_spec (Z.of_nat (S k)) C); lia.
  - destruct (Z.ltb_spec (Z.of_nat (S k)) C); [lia |].
    replace (Z.of_nat (S k) - C)%Z with (Z.of_nat k - C + 1)%Z by lia.
    rewrite mod_succ by lia.
    pose proof (Z.mod_pos_bound (Z.of_nat k - C) (C - V) ltac:(lia)).
    destruct (Z.eqb_spec ((Z.of_nat k - C) mod (C - V) + 1) (C - V));
      destruct (Z.eqb_spec (V + (Z.of_nat k - C) mod (C - V) + 1) C); lia.
Qed.

Lemma summaryDue_succ (k : nat) :
  summaryDue C V (S k) = (levelAfter C V k + 1 =? C)%Z.
Proof.
  unfold summaryDue, levelAfter.
  destruct (Z.ltb_spec (Z.of_nat k) C) as [Hk | Hk].
  - destruct (Z.eqb_spec (Z.of_nat k + 1) C) as [E | E].
    + replace (Z.of_nat (S k) - C)%Z with 0%Z by lia.
      rewrite Z.mod_0_l by lia.
      destruct (Z.leb_spec C (Z.of_nat (S k))); [reflexivity | lia].
    + destruct (Z.leb_spec C (Z.of_nat (S k))); [lia | reflexivity].
  - destruct (Z.leb_spec C (Z.of_nat (S k))); [| lia].
    replace (Z.of_nat (S k) - C)%Z with (Z.of_nat k - C + 1)%Z by lia.
    rewrite mod_succ by lia.
    pose proof (Z.mod_pos_bound (Z.of_nat k - C) (C - V) ltac:(lia)).
    destruct (Z.eqb_spec ((Z.of_nat k - C) mod (C - V) + 1) (C - V));
      destruct (Z.eqb_spec (V + (Z.of_nat k - C) mod (C - V) + 1) C);
      simpl; lia.
Qed.

End CycleArithmetic.

Section HandlerFacts.
Context {num : Type} `{Number num}.
Import HandlerCalls.

Lemma filled_addData (C V L : Z) (w : Window.t num) (vx vy vz : num) :
  filled C V L w -> (L < C)%Z ->
  exists w',
    Window.addData vx vy vz w = (Normal tt, w') /\ filled C V (L + 1) w'.
Proof.
  intros (HC & HV & Hx & Hy & Hz) HL.
  eexists. split; [apply addData_not_full; lia |].
  unfold filled. cbn. rewrite !length_app. cbn. lia.
Qed.

Lemma filled_slide (C V : Z) (w : Window.t num) :
  (0 <= V < C)%Z -> filled C V C w ->
  exists w', Window.slide w = (Normal tt, w') /\ filled C V V w'.
Proof.
  intros HVC (HC & HV & Hx & Hy & Hz).
  eexists. split; [apply slide_full; lia |].
  unfold filled. cbn -[slice].
  rewrite !slice_length by lia. lia.
Qed.

Lemma filled_isFull (C V L : Z) (w : Window.t num) :
  filled C V L w -> Window.isFull w = (Normal (C <=? L)%Z, w).
Proof.
  intros (HC & HV & Hx & Hy & Hz). rewrite isFull_spec. now rewrite HC, Hx.
Qed.

(** One call of [handleData] on a handler whose windows hold [L < C]
    samples: both additions return; if that fills the windows, features are
    extracted from the full windows, both slide, and the summary is
    returned; otherwise [null] is returned and nothing slides. *)
Lemma handleData_call (C V L : Z) (h : SensorDataHandler.t num)
  (acc gyro : num * num * num) :
  (0 <= V < C)%Z -> (0 <= L < C)%Z -> level C V L h ->
  exists wa wg,
    Window.addData (fst (fst acc)) (snd (fst acc)) (snd acc)
                   (SensorDataHandler.accWindow h) = (Normal tt, wa)
    /\ Window.addData (fst (fst gyro)) (snd (fst gyro)) (snd gyro)
                      (SensorDataHandler.gyroWindow h) = (Normal tt, wg)
    /\ filled C V (L + 1) wa
    /\ filled C V (L + 1) wg
    /\ ((L + 1)%Z = C ->
        exists fa fg wa' wg',
          Window.extractFeatures wa = (Normal fa, wa)
          /\ Window.extractFeatures wg = (Normal fg, wg)
          /\ Window.slide wa = (Normal tt, wa')
          /\ Window.slide wg = (Normal tt, wg')
          /\ filled C V V wa'
          /\ filled C V V wg'
          /\ SensorDataHandler.handleData acc gyro h
             = (Normal (Some (SensorDataHandler.mkSummary fa fg)),
                SensorDataHandler.mk wa' wg'))
    /\ ((L + 1)%Z <> C ->
        SensorDataHandler.handleData acc gyro h
        = (Normal None, SensorDataHandler.mk wa wg)).
Proof.
  intros HVC HL [Ha Hg].
  destruct h as [a g], acc as [[ax ay] az], gyro as [[gx gy] gz].
  cbn [SensorDataHandler.accWindow SensorDataHandler.gyroWindow fst snd] in *.
  destruct (filled_addData C V L a ax ay az Ha ltac:(lia)) as (wa & Ea & Fa).
  destruct (filled_addData C V L g gx gy gz Hg ltac:(lia)) as (wg & Eg & Fg).
  exists wa, wg.
  split; [exact Ea |]. split; [exact Eg |].
  split; [exact Fa |]. split; [exact Fg |].
  unfold SensorDataHandler.handleData, bind, SensorDataHandler.onAcc,
    SensorDataHandler.onGyro, zoom.
  handler_fields.
  rewrite Ea.
  handler_fields.
  rewrite Eg.
  handler_fields.
  rewrite (filled_isFull C V (L + 1) wa Fa).
  handler_fields.
  split.
  - intros E. rewrite E in Fa, Fg.
    destruct (filled_slide C V wa HVC Fa) as (wa' & Sa & Fa').
    destruct (filled_slide C V wg HVC Fg) as (wg' & Sg & Fg').
    eexists _, _, wa', wg'.
    split; [reflexivity |]. split; [reflexivity |].
    split; [exact Sa |]. split; [exact Sg |].
    split; [exact Fa' |]. split; [exact Fg' |].
    rewrite E, Z.leb_refl.
    handler_fields.
    rewrite (filled_isFull C V C wg Fg), Z.leb_refl.
    handler_fields.
    unfold Window.extractFeatures at 1 2. unfold bind, get, ret.
    handler_fields.
    rewrite Sa.
    handler_fields.
    rewrite Sg.
    reflexivity.
  - intros NE.
    destruct (Z.leb_spec C (L + 1)); [lia |].
    reflexivity.
Qed.

(** Any number of calls, from a handler that has the level reached after
    [k] calls. *)
Lemma handleAll_cycle (C V : Z) (inputs : list Input) :
  (1 <= C)%Z -> (0 <= V < C)%Z ->
  forall (k : nat) (h : SensorDataHandler.t num),
    level C V (levelAfter C V k) h ->
    map outcome (fst (handleAll inputs h))
    = map (expected C V) (seq (S k) (length inputs))
    /\ level C V (levelAfter C V (k + length inputs))
             (snd (handleAll inputs h)).
Proof.
  intros HC HV.
  induction inputs as [| [acc gyro] rest IH]; intros k h Hlevel.
  - cbn. rewrite Nat.add_0_r. now split.
  - cbn [handleAll length].
    pose proof (levelAfter_bounds C V HV k) as HL.
    destruct (handleData_call C V (levelAfter C V k) h acc gyro HV HL Hlevel)
      as (wa & wg & _ & _ & Fa & Fg & Hfull & Hnot).
    assert (Hnext : exists r h',
               SensorDataHandler.handleData acc gyro h = (r, h')
               /\ outcome r = expected C V (S k)
               /\ level C V (levelAfter C V (S k)) h').
    { unfold expected.
      rewrite (summaryDue_succ C V HV k), (levelAfter_succ C V HV k).
      destruct (Z.eqb_spec (levelAfter C V k + 1) C) as [E | E].
      - destruct (Hfull E)
          as (fa & fg & wa' & wg' & _ & _ & _ & _ & Fa' & Fg' & Hh).
        eexists _, _. split; [exact Hh |]. split; [reflexivity |].
        now split.
      - eexists _, _. split; [exact (Hnot E) |]. split; [reflexivity |].
        now split. }
    destruct Hnext as (r & h' & Hh & Hout & Hlevel').
    rewrite Hh.
    destruct (IH (S k) h' Hlevel') as [IHout IHlevel].
    destruct (handleAll rest h') as [rs h''].
    cbn [fst snd map seq] in *.
    rewrite Hout, IHout.
    split; [reflexivity |].
    now replace (k + S (length rest))%nat with (S k + length rest)%nat by lia.
Qed.

Lemma new_level (C V : Z) :
  level C V 0 (SensorDataHandler.new (num := num) C (Some V)).
Proof.
  unfold level, filled, SensorDataHandler.new, Window.new. cbn.
  destruct (Z.eqb_spec V 0); repeat split; congruence.
Qed.

End HandlerFacts.

(* ------------------------------------------------------------------ *)
(** ** SensorDataHandler: the properties *)

Section HandlerProperties.
Context {num : Type} `{Number num}.
Import HandlerCalls.

(** C1. From a fresh handler of capacity [C >= 1] and overlap [0 <= V < C],
    the calls of [handleData] return [null] on the first [C - 1] calls, a
    summary on the [C]-th call, and after it a summary on exactly the calls
    whose distance to the [C]-th is a multiple of [C - V], [null] on the
    others; no call throws.  A summary that a call returns combines the
    features extracted from the two windows as they are after the two
    additions of that call. *)
Theorem handleData_summary_cycle (C V : Z) (inputs : list Input) :
  (1 <= C)%Z -> (0 <= V < C)%Z ->
  map outcome (fst (handleAll inputs (SensorDataHandler.new C (Some V))))
  = map (expected C V) (seq 1 (length inputs))
  /\ (forall k, (1 <= Z.of_nat k < C)%Z -> expected C V k = NoOutput)
  /\ (forall k, Z.of_nat k = C -> expected C V k = FeatureSummary)
  /\ (forall k, (C < Z.of_nat k)%Z ->
        ((Z.of_nat k - C) mod (C - V) = 0)%Z ->
        expected C V k = FeatureSummary)
  /\ (forall k, (C < Z.of_nat k)%Z ->
        ((Z.of_nat k - C) mod (C - V) <> 0)%Z ->
        expected C V k = NoOutput)
  /\ (forall acc gyro summary h',
        let h := snd (handleAll inputs (SensorDataHandler.new C (Some V))) in
        SensorDataHandler.handleData acc gyro h = (Normal (Some summary), h') ->
        exists wa wg,
          Window.addData (fst (fst acc)) (snd (fst acc)) (snd acc)
                         (SensorDataHandler.accWindow h) = (Normal tt, wa)
          /\ Window.addData (fst (fst gyro)) (snd (fst gyro)) (snd gyro)
                            (SensorDataHandler.gyroWindow h) = (Normal tt, wg)
          /\ Window.extractFeatures wa
             = (Normal (SensorDataHandler.accelerometer summary), wa)
          /\ Window.extractFeatures wg
             = (Normal (SensorDataHandler.gyroscope summary), wg)).
Proof.
  intros HC HV.
  assert (Hlevel0 : level C V (levelAfter C V 0)
                      (SensorDataHandler.new (num := num) C (Some V))).
  { change (levelAfter C V 0) with (if (0 <? C)%Z then 0%Z
                                    else (V + (0 - C) mod (C - V))%Z).
    destruct (Z.ltb_spec 0 C); [apply new_level | lia]. }
  destruct (handleAll_cycle C V inputs HC HV 0 _ Hlevel0) as [Hout Hlevel].
  split; [exact Hout |].
  assert (Hsummary :
            forall acc gyro summary h',
              SensorDataHandler.handleData acc gyro
                (snd (handleAll inputs (SensorDataHandler.new C (Some V))))
              = (Normal (Some summary), h') ->
              exists wa wg,
                Window.addData (fst (fst acc)) (snd (fst acc)) (snd acc)
                  (SensorDataHandler.accWindow
                     (snd (handleAll inputs
                             (SensorDataHandler.new C (Some V)))))
                = (Normal tt, wa)
                /\ Window.addData (fst (fst gyro)) (snd (fst gyro)) (snd gyro)
                     (SensorDataHandler.gyroWindow
                        (snd (handleAll inputs
                                (SensorDataHandler.new C (Some V)))))
                   = (Normal tt, wg)
                /\ Window.extractFeatures wa
                   = (Normal (SensorDataHandler.accelerometer summary), wa)
                /\ Window.extractFeatures wg
                   = (Normal (SensorDataHandler.gyroscope summary), wg)).
  { intros acc gyro summary h' Hcall.
    cbn [Nat.add] in Hlevel.
    pose proof (levelAfter_bounds C V HV (length inputs)) as HL.
    destruct (handleData_call C V (levelAfter C V (length inputs)) _ acc gyro
                HV HL Hlevel)
      as (wa & wg & Ea & Eg & _ & _ & Hfull & Hnot).
    exists wa, wg. split; [exact Ea |]. split; [exact Eg |].
    destruct (Z.eq_dec (levelAfter C V (length inputs) + 1) C) as [E | E].
    - destruct (Hfull E) as (fa & fg & wa' & wg' & Xa & Xg & _ & _ & _ & _ & Hh).
      rewrite Hh in Hcall. injection Hcall as <- _. now split.
    - rewrite (Hnot E) in Hcall. discriminate Hcall. }
  split; [| split; [| split; [| split; [| exact Hsummary]]]];
    unfold expected, summaryDue; intros k Hk.
  - destruct (Z.leb_spec C (Z.of_nat k)); [lia | reflexivity].
  - rewrite Hk, Z.sub_diag, Z.mod_0_l, Z.leb_refl by lia. reflexivity.
  - intros E. rewrite E.
    destruct (Z.leb_spec C (Z.of_nat k)); [reflexivity | lia].
  - intros E.
    destruct (Z.eqb_spec ((Z.of_nat k - C) mod (C - V)) 0); [lia |].
    now rewrite andb_false_r.
Qed.

(** C10. From a fresh handler of capacity [C >= 1] and overlap
    [0 <= V < C], after any number of calls of [handleData]: none of them
    threw; each window holds at most [C - 1] samples, so that in the next
    call both calls of [addData] return; the next call returns; when it
    returns a summary, both windows held exactly [C] samples on each axis
    after the additions and both calls of [slide] returned; when it returns
    [null], nothing slid. *)
Theorem handleData_never_throws
  (C V : Z) (inputs : list Input) (acc gyro : num * num * num) :
  (1 <= C)%Z -> (0 <= V < C)%Z ->
  let h := snd (handleAll inputs (SensorDataHandler.new C (Some V))) in
  Forall (fun r => exists v, r = Normal v)
         (fst (handleAll inputs (SensorDataHandler.new C (Some V))))
  /\ (Z.of_nat (length (Window.x (SensorDataHandler.accWindow h))) <= C - 1)%Z
  /\ (Z.of_nat (length (Window.x (SensorDataHandler.gyroWindow h))) <= C - 1)%Z
  /\ exists wa wg r h',
       Window.addData (fst (fst acc)) (snd (fst acc)) (snd acc)
                      (SensorDataHandler.accWindow h) = (Normal tt, wa)
       /\ Window.addData (fst (fst gyro)) (snd (fst gyro)) (snd gyro)
                         (SensorDataHandler.gyroWindow h) = (Normal tt, wg)
       /\ SensorDataHandler.handleData acc gyro h = (Normal r, h')
       /\ (r <> None ->
           filled C V C wa /\ filled C V C wg
           /\ Window.slide wa = (Normal tt, SensorDataHandler.accWindow h')
           /\ Window.slide wg = (Normal tt, SensorDataHandler.gyroWindow h'))
       /\ (r = None -> h' = SensorDataHandler.mk wa wg).
Proof.
  intros HC HV h.
  assert (Hlevel0 : level C V (levelAfter C V 0)
                      (SensorDataHandler.new (num := num) C (Some V))).
  { change (levelAfter C V 0) with (if (0 <? C)%Z then 0%Z
                                    else (V + (0 - C) mod (C - V))%Z).
    destruct (Z.ltb_spec 0 C); [apply new_level | lia]. }
  destruct (handleAll_cycle C V inputs HC HV 0 _ Hlevel0) as [Hout Hlevel].
  fold h in Hlevel. cbn [Nat.add] in Hlevel.
  pose proof (levelAfter_bounds C V HV (length inputs)) as HL.
  split.
  { revert Hout.
    generalize (fst (handleAll inputs
                       (SensorDataHandler.new (num := num) C (Some V)))).
    generalize (seq 1 (length inputs)).
    intros ks rs. revert ks.
    induction rs as [| r rs IH]; intros ks Hout; [constructor |].
    destruct ks as [| k ks]; [discriminate |].
    cbn [map] in Hout. injection Hout as Hr Hrs.
    constructor; [| now apply IH with ks].
    destruct r as [v | e]; [now exists v |].
    unfold expected in Hr. cbn in Hr.
    destruct (summaryDue C V k); discriminate. }
  destruct Hlevel as [Ha Hg].
  split; [destruct Ha as (_ & _ & Hx & _); fold h in Hx; lia |].
  split; [destruct Hg as (_ & _ & Hx & _); fold h in Hx; lia |].
  destruct (handleData_call C V (levelAfter C V (length inputs)) h acc gyro
              HV HL (conj Ha Hg))
    as (wa & wg & Ea & Eg & Fa & Fg & Hfull & Hnot).
  exists wa, wg.
  destruct (Z.eq_dec (levelAfter C V (length inputs) + 1) C) as [E | E].
  - destruct (Hfull E)
      as (fa & fg & wa' & wg' & _ & _ & Sa & Sg & _ & _ & Hh).
    eexists _, _. split; [exact Ea |]. split; [exact Eg |].
    split; [exact Hh |]. split.
    + intros _. rewrite E in Fa, Fg.
      split; [exact Fa |]. split; [exact Fg |]. split; [exact Sa | exact Sg].
    + discriminate.
  - eexists _, _. split; [exact Ea |]. split; [exact Eg |].
    split; [exact (Hnot E) |]. split.
    + intros Hr. now contradiction Hr.
    + reflexivity.
Qed.

End HandlerProperties.

(** Witness for C1: capacity 3 and overlap 1, seven calls. *)
Lemma handleData_summary_cycle_witness :
  (1 <= 3)%Z /\ (0 <= 1 < 3)%Z
  /\ map HandlerCalls.outcome
       (fst (HandlerCalls.handleAll
               (repeat ((1, 2, 3), (4, 5, 6))%float 7)
               (SensorDataHandler.new 3 (Some 1%Z))))
     = [HandlerCalls.NoOutput; HandlerCalls.NoOutput;
        HandlerCalls.FeatureSummary; HandlerCalls.NoOutput;
        HandlerCalls.FeatureSummary; HandlerCalls.NoOutput;
        HandlerCalls.FeatureSummary].
Proof.
  split; [lia |]. split; [lia |].
  exact (proj1 (handleData_summary_cycle (num := float) 3 1
                  (repeat ((1, 2, 3), (4, 5, 6))%float 7)
                  ltac:(lia) ltac:(lia))).
Defined.

(** Witness for C10: capacity 2 and overlap 0, after three calls. *)
Lemma handleData_never_throws_witness :
  (1 <= 2)%Z /\ (0 <= 0 < 2)%Z
  /\ Forall (fun r => exists v, r = Normal v)
       (fst (HandlerCalls.handleAll
               (repeat ((1, 2, 3), (4, 5, 6))%float 3)
               (SensorDataHandler.new 2 (Some 0%Z)))).
Proof.
  split; [lia |]. split; [lia |].
  exact (proj1 (handleData_never_throws (num := float) 2 0
                  (repeat ((1, 2, 3), (4, 5, 6))%float 3)
                  (7, 8, 9)%float (7, 8, 9)%float
                  ltac:(lia) ltac:(lia))).
Defined.

(* ------------------------------------------------------------------ *)
(** ** Runs of consecutive samples *)

Section RunFacts.
Context {A : Type}.
Variable p : A -> bool.

Lemma trailingRun_snoc (l : list A) (a : A) :
  trailingRun p (l ++ [a]) = if p a then S (trailingRun p l) else 0%nat.
Proof.
  unfold trailingRun. now rewrite rev_app_distr.
Qed.

Lemma leadingRun_firstn (n : nat) (l : list A) :
  (n <= leadingRun p l)%nat ->
  length (firstn n l) = n /\ Forall (fun a => p a = true) (firstn n l).
Proof.
  revert l. induction n as [| n IH]; intros l Hn.
  - now split.
  - destruct l as [| a l]; [simpl in Hn; lia |].
    simpl in Hn. destruct (p a) eqn:Ea; [| lia].
    destruct (IH l ltac:(lia)) as [Hlen Hall].
    simpl. split; [now rewrite Hlen | now constructor].
Qed.

Lemma leadingRun_app (run l : list A) :
  Forall (fun a => p a = true) run ->
  (length run <= leadingRun p (run ++ l))%nat.
Proof.
  induction 1 as [| a run Ha _ IH]; simpl; [lia |].
  rewrite Ha. lia.
Qed.

(** The counter view and the list view of a run at the end agree. *)
Lemma trailingRun_endsWithRun (n : nat) (l : list A) :
  (n <= trailingRun p l)%nat <-> endsWithRun p n l.
Proof.
  unfold trailingRun. split.
  - intros Hn. destruct (leadingRun_firstn n (rev l) Hn) as [Hlen Hall].
    exists (rev (skipn n (rev l))), (rev (firstn n (rev l))).
    repeat split.
    + rewrite <- rev_app_distr, firstn_skipn. now rewrite rev_involutive.
    + now rewrite length_rev.
    + now apply Forall_rev.
  - intros (before & run & -> & <- & Hall).
    rewrite rev_app_distr, <- length_rev.
    apply leadingRun_app. now apply Forall_rev.
Qed.

Lemma endsWithRun_hasRun (n : nat) (l : list A) :
  endsWithRun p n l -> hasRun p n l.
Proof.
  intros (before & run & -> & Hlen & Hall).
  exists before, run, []. now rewrite app_nil_r.
Qed.

Lemma hasRun_app (n : nat) (l more : list A) :
  hasRun p n l -> hasRun p n (l ++ more).
Proof.
  intros (before & run & post & -> & Hlen & Hall).
  exists before, run, (post ++ more). now rewrite <- !app_assoc.
Qed.

End RunFacts.

(* ------------------------------------------------------------------ *)
(** ** processDataV2: one call *)

Section SegmenterFacts.
Context {num : Type} `{Number num}.
Variable c : Constants num.

Lemma stateAfter_snoc (history : list (Sample num)) (s : Sample num) :
  stateAfter c (history ++ [s]) = step c (stateAfter c history) s.
Proof.
  unfold stateAfter, feed. now rewrite fold_left_app.
Qed.

(** The first statement alone decides [aboveThresholdCounter]. *)
Lemma step_aboveThresholdCounter (g : Globals num) (s : Sample num) :
  aboveThresholdCounter (step c g s)
  = if sampleAbove c s then (aboveThresholdCounter g + 1)%nat else 0%nat.
Proof.
  destruct g as [ac gy col cnt above]. unfold_call. decide_tests.
Qed.

(** Collecting is on in the third statement when it was on before the call
    or the counter has reached [startThresholdCount]. *)
Lemma collected_spec (g : Globals num) (s : Sample num) :
  collected c g s
  = collectingData g
    || (startThresholdCount c
        <=? (if sampleAbove c s then aboveThresholdCounter g + 1 else 0))%nat.
Proof.
  destruct g as [ac gy col cnt above]. unfold_call.
  destruct col; decide_tests.
Qed.

(** A call that does not collect changes [aboveThresholdCounter] only. *)
Lemma processDataV2_not_collected (g : Globals num) (s : Sample num) :
  collected c g s = false ->
  processDataV2 c (fst s) (snd s) g
  = (set_aboveThresholdCounter
       (if sampleAbove c s then aboveThresholdCounter g + 1 else 0)%nat g,
     None).
Proof.
  destruct g as [ac gy col cnt above]. unfold_call.
  destruct col; decide_tests.
Qed.

(** A call that collects: the sample is pushed on the sequences (emptied
    first when the call starts the capture), the end-band counter is
    updated, and the capture is closed when the counter has reached
    [counterThreshold]. *)
Lemma processDataV2_collected (g : Globals num) (s : Sample num) :
  collected c g s = true ->
  let gy := (if collectingData g then gyroSequence g else [])
            ++ [negatedGyroY s] in
  let ac := (if collectingData g then accSequence g else [])
            ++ [accX s] in
  let cnt := (if sampleInBand c s
              then (if collectingData g then inThresholdCounter g else 0) + 1
              else 0)%nat in
  let above :=
    (if sampleAbove c s then aboveThresholdCounter g + 1 else 0)%nat in
  processDataV2 c (fst s) (snd s) g
  = if (counterThreshold c <=? cnt)%nat
    then (mkGlobals [] [] false cnt above,
          if (minimumAnomalyLength c <=? length gy)%nat
          then Some (gy ++ ac) else None)
    else (mkGlobals ac gy true cnt above, None).
Proof.
  destruct g as [ac0 gy0 col cnt0 above0]. unfold_call.
  destruct col; decide_tests.
Qed.

End SegmenterFacts.

(* ------------------------------------------------------------------ *)
(** ** processDataV2: a stream of calls *)

Section SegmenterRuns.
Context {num : Type} `{Number num}.
Variable c : Constants num.

(** [aboveThresholdCounter] is the length of the run of samples above the
    threshold that the stream ends with. *)
Lemma aboveThresholdCounter_trailingRun (history : list (Sample num)) :
  aboveThresholdCounter (stateAfter c history)
  = trailingRun (sampleAbove c) history.
Proof.
  induction history as [| s history IH] using rev_ind; [reflexivity |].
  rewrite stateAfter_snoc, step_aboveThresholdCounter, trailingRun_snoc, IH.
  now rewrite Nat.add_1_r.
Qed.

Lemma collected_when_collecting (g : Globals num) (s : Sample num) :
  collectingData g = true -> collected c g s = true.
Proof.
  intros Hg. now rewrite collected_spec, Hg.
Qed.

Lemma captureOf_start (history : list (Sample num)) (s : Sample num) :
  collectingData (stateAfter c history) = false ->
  collected c (stateAfter c history) s = true ->
  captureOf c (history ++ [s]) [s].
Proof.
  intros Hidle Hs. exists history.
  split; [reflexivity |]. split; [discriminate |]. split; [exact Hidle |].
  intros part s' rest E.
  destruct part as [| a part].
  - injection E as <- _. rewrite app_nil_r. split; [exact Hs |].
    intros Hne. now contradiction Hne.
  - injection E as _ E. now destruct part.
Qed.

Lemma captureOf_extend (history capture : list (Sample num)) (s : Sample num) :
  captureOf c history capture ->
  collectingData (stateAfter c history) = true ->
  captureOf c (history ++ [s]) (capture ++ [s]).
Proof.
  intros (before & -> & Hne & Hidle & Hall) Hon. exists before.
  split; [now rewrite app_assoc |].
  split; [now destruct capture |].
  split; [exact Hidle |].
  intros part s' rest E.
  induction rest as [| x rest _] using rev_ind.
  - apply app_inj_tail in E as [-> ->].
    split; [now apply collected_when_collecting | now intros _].
  - change (part ++ s' :: rest ++ [x]) with (part ++ (s' :: rest) ++ [x]) in E.
    rewrite app_assoc in E. apply app_inj_tail in E as [-> _].
    now apply Hall with rest.
Qed.

(** A stream has at most one current capture. *)
Lemma captureOf_unique (history one other : list (Sample num)) :
  captureOf c history one -> captureOf c history other -> one = other.
Proof.
  assert (Hlonger : forall b1 c1 b2 c2 : list (Sample num),
             b1 ++ c1 = b2 ++ c2 ->
             (length c1 < length c2)%nat ->
             exists part, part <> [] /\ c2 = part ++ c1 /\ b1 = b2 ++ part).
  { intros b1 c1 b2 c2 E Hlen.
    assert (Hb : (length b2 < length b1)%nat).
    { apply (f_equal (@length _)) in E. rewrite !length_app in E. lia. }
    exists (skipn (length b2) b1).
    assert (E1 : firstn (length b2) (b1 ++ c1) = b2)
      by (rewrite E, firstn_app, Nat.sub_diag, firstn_all; cbn;
          now rewrite app_nil_r).
    rewrite firstn_app in E1.
    replace (length b2 - length b1)%nat with 0%nat in E1 by lia.
    cbn in E1. rewrite app_nil_r in E1.
    assert (Hb1 : b1 = b2 ++ skipn (length b2) b1)
      by (rewrite <- E1 at 1; now rewrite firstn_skipn).
    split.
    - intros Hnil. apply (f_equal (@length _)) in Hnil.
      rewrite length_skipn in Hnil. cbn in Hnil. lia.
    - split; [| exact Hb1].
      rewrite Hb1, <- app_assoc in E. now apply app_inv_head in E. }
  intros (b1 & E1 & Hne1 & Hidle1 & Hall1) (b2 & E2 & Hne2 & Hidle2 & Hall2).
  rewrite E1 in E2.
  destruct (Nat.lt_trichotomy (length one) (length other)) as [Hlt | [Heq | Hgt]].
  - destruct (Hlonger b1 one b2 other E2 Hlt) as (part & Hpart & -> & ->).
    destruct one as [| s rest]; [now contradiction Hne1 |].
    destruct (Hall2 part s rest eq_refl) as [_ Hon].
    rewrite (Hon Hpart) in Hidle1. discriminate.
  - apply (f_equal (@rev _)) in E2. rewrite !rev_app_distr in E2.
    apply (f_equal (firstn (length (rev one)))) in E2.
    rewrite firstn_app, Nat.sub_diag, firstn_all in E2.
    rewrite length_rev, Heq, <- length_rev in E2.
    rewrite firstn_app, Nat.sub_diag, firstn_all in E2. cbn in E2.
    rewrite !app_nil_r in E2.
    apply (f_equal (@rev _)) in E2. now rewrite !rev_involutive in E2.
  - symmetry in E2.
    destruct (Hlonger b2 other b1 one E2 Hgt) as (part & Hpart & -> & ->).
    destruct other as [| s rest]; [now contradiction Hne2 |].
    destruct (Hall1 part s rest eq_refl) as [_ Hon].
    rewrite (Hon Hpart) in Hidle2. discriminate.
Qed.

(** What a collecting call pushes and counts, in terms of the capture. *)
Lemma collected_capture_step (history : list (Sample num)) (s : Sample num) :
  let g := stateAfter c history in
  tracksCapture c history g ->
  collected c g s = true ->
  exists capture,
    captureOf c (history ++ [s]) capture
    /\ (exists earlier, capture = earlier ++ [s])
    /\ (if collectingData g then gyroSequence g else []) ++ [negatedGyroY s]
       = map negatedGyroY capture
    /\ (if collectingData g then accSequence g else []) ++ [accX s]
       = map accX capture
    /\ (if sampleInBand c s
        then (if collectingData g then inThresholdCounter g else 0) + 1
        else 0)%nat
       = trailingRun (sampleInBand c) capture.
Proof.
  intros g [Hoff Hon] Hs.
  destruct (collectingData g) eqn:Hg.
  - destruct (Hon eq_refl) as (capture & Hcap & Hgy & Hac & Hcnt).
    exists (capture ++ [s]).
    split; [now apply captureOf_extend |].
    split; [now exists capture |].
    rewrite !map_app, trailingRun_snoc, Hgy, Hac, Hcnt, Nat.add_1_r.
    repeat split.
  - exists [s]%list.
    split; [now apply captureOf_start |].
    split; [now exists []%list |].
    unfold trailingRun. cbn. repeat split.
Qed.

Lemma stateAfter_tracksCapture (history : list (Sample num)) :
  tracksCapture c history (stateAfter c history).
Proof.
  induction history as [| s history IH] using rev_ind.
  - split; [now split | discriminate].
  - rewrite stateAfter_snoc.
    destruct (collected c (stateAfter c history) s) eqn:Hs.
    + destruct (collected_capture_step history s IH Hs)
        as (capture & Hcap & _ & Hgy & Hac & Hcnt).
      unfold step. rewrite (processDataV2_collected c _ s Hs). cbn zeta.
      rewrite Hgy, Hac, Hcnt.
      destruct (counterThreshold c <=? trailingRun (sampleInBand c) capture)%nat.
      * split; [now split | discriminate].
      * split; [discriminate |]. intros _. exists capture. now repeat split.
    + unfold step. rewrite (processDataV2_not_collected c _ s Hs). cbn [fst].
      rewrite collected_spec in Hs. apply orb_false_elim in Hs as [Hg _].
      destruct IH as [Hoff _].
      destruct (stateAfter c history) as [ac gy col cnt above]. cbn in *.
      split; cbn; [intros _; now apply Hoff | congruence].
Qed.

End SegmenterRuns.

(* ------------------------------------------------------------------ *)
(** ** processDataV2: the properties *)

Section SegmenterProperties.
Context {num : Type} `{Number num}.
Variable c : Constants num.

Lemma step_not_collected (g : Globals num) (s : Sample num) :
  collected c g s = false ->
  collectingData (step c g s) = false
  /\ collectingData g = false
  /\ inThresholdCounter (step c g s) = inThresholdCounter g
  /\ prediction c g s = None.
Proof.
  intros Hs. unfold step, prediction.
  rewrite (processDataV2_not_collected c g s Hs).
  rewrite collected_spec in Hs. apply orb_false_elim in Hs as [Hg _].
  destruct g as [ac gy col cnt above]. cbn in *. now repeat split.
Qed.

(** Collecting is on only after a run of samples above the threshold. *)
Lemma collecting_hasRun (history : list (Sample num)) :
  collectingData (stateAfter c history) = true ->
  hasRun (sampleAbove c) (startThresholdCount c) history.
Proof.
  induction history as [| s history IH] using rev_ind; [discriminate |].
  rewrite stateAfter_snoc. intros Hon.
  destruct (collectingData (stateAfter c history)) eqn:Hbefore.
  - now apply hasRun_app, IH.
  - destruct (collected c (stateAfter c history) s) eqn:Hs.
    + rewrite collected_spec, Hbefore, aboveThresholdCounter_trailingRun in Hs.
      cbn [orb] in Hs. apply Nat.leb_le in Hs.
      apply endsWithRun_hasRun, trailingRun_endsWithRun.
      rewrite trailingRun_snoc.
      destruct (sampleAbove c s); [now rewrite Nat.add_1_r in Hs | exact Hs].
    + destruct (step_not_collected _ s Hs) as [Hoff _]. congruence.
Qed.

(** C3. From the initial values, as long as the stream holds no
    [startThresholdCount] consecutive samples above the threshold,
    collecting is off after every call.  When collecting is off and a
    sample completes such a run, the second statement of that call turns
    collecting on, empties both sequences and resets the end-band counter;
    the call then collects this sample as the first of the capture (unless
    the end-band counter closes the capture within the same call).  In
    particular, [startThresholdCount - 1] samples followed by one that is
    not above the threshold leave collecting off. *)
Theorem collecting_starts_on_run (history : list (Sample num)) :
  (~ hasRun (sampleAbove c) (startThresholdCount c) history ->
   forall earlier later,
     history = earlier ++ later ->
     collectingData (stateAfter c earlier) = false)
  /\ (forall s,
        collectingData (stateAfter c history) = false ->
        endsWithRun (sampleAbove c) (startThresholdCount c) (history ++ [s]) ->
        let started :=
          startCollecting c (anomalyDetection c (snd s) (stateAfter c history))
        in
        let g' := step c (stateAfter c history) s in
        let inBand := if sampleInBand c s then 1%nat else 0%nat in
        collectingData started = true
        /\ accSequence started = []
        /\ gyroSequence started = []
        /\ inThresholdCounter started = 0%nat
        /\ (if (counterThreshold c <=? inBand)%nat
            then collectingData g' = false
            else collectingData g' = true
                 /\ gyroSequence g' = [negatedGyroY s]
                 /\ accSequence g' = [accX s]
                 /\ inThresholdCounter g' = inBand))
  /\ (forall run s,
        (1 <= startThresholdCount c)%nat ->
        length run = (startThresholdCount c - 1)%nat ->
        sampleAbove c s = false ->
        collectingData (stateAfter c (run ++ [s])) = false).
Proof.
  split; [| split].
  - intros Hnone earlier later -> .
    destruct (collectingData (stateAfter c earlier)) eqn:Hon; [| reflexivity].
    contradiction Hnone. now apply hasRun_app, collecting_hasRun.
  - intros s Hoff Hrun. cbn zeta.
    apply trailingRun_endsWithRun in Hrun.
    rewrite trailingRun_snoc, <- aboveThresholdCounter_trailingRun in Hrun.
    assert (Hs : collected c (stateAfter c history) s = true).
    { rewrite collected_spec, Hoff. cbn [orb]. apply Nat.leb_le.
      destruct (sampleAbove c s); [now rewrite Nat.add_1_r | exact Hrun]. }
    pose proof (processDataV2_collected c _ s Hs) as Hcall.
    cbn zeta in Hcall. rewrite Hoff in Hcall. cbn [app Nat.add] in Hcall.
    unfold step. rewrite Hcall.
    split; [exact Hs |].
    assert (Hstarted :
              accSequence (startCollecting c (anomalyDetection c (snd s)
                             (stateAfter c history))) = []
              /\ gyroSequence (startCollecting c (anomalyDetection c (snd s)
                                 (stateAfter c history))) = []
              /\ inThresholdCounter (startCollecting c (anomalyDetection c
                                       (snd s) (stateAfter c history))) = 0%nat).
    { clear Hcall. revert Hs Hoff.
      destruct (stateAfter c history) as [ac gy col cnt above].
      unfold_call. intros Hs ->. revert Hs. decide_tests; now repeat split. }
    destruct Hstarted as (Hac & Hgy & Hcnt).
    split; [exact Hac |]. split; [exact Hgy |]. split; [exact Hcnt |].
    destruct (sampleInBand c s);
      destruct (counterThreshold c <=? _)%nat; cbn; now repeat split.
  - intros run s Hn Hlen Hs.
    destruct (collectingData (stateAfter c (run ++ [s]))) eqn:Hon;
      [| reflexivity].
    destruct (collecting_hasRun _ Hon)
      as (before & found & post & E & Hfound & Hall).
    assert (Hsize : (length before + length post = 0)%nat).
    { apply (f_equal (@length _)) in E.
      rewrite !length_app in E. cbn in E. lia. }
    destruct before; [| cbn in Hsize; lia].
    destruct post; [| cbn in Hsize; lia].
    cbn in E. rewrite app_nil_r in E. subst found.
    apply Forall_app in Hall as [_ Hlast].
    inversion Hlast as [| ? ? Hs' _]. congruence.
Qed.

(** C2. A call closes a capture when it collects its sample and leaves
    collecting off.  Such a call sends to [makePredictionV2] exactly when
    the capture holds at least [minimumAnomalyLength] samples, and what it
    sends is the negated gyroscope Y values of the samples of the capture,
    in the order they were fed, followed by their accelerometer X values,
    in the same order: twice as many values as the capture has samples.  No
    other call sends anything. *)
Theorem prediction_is_closed_capture
  (history : list (Sample num)) (s : Sample num) :
  let g := stateAfter c history in
  (collected c g s = true ->
   collectingData (step c g s) = false ->
   exists capture,
     captureOf c (history ++ [s]) capture
     /\ (forall other, captureOf c (history ++ [s]) other -> other = capture)
     /\ prediction c g s
        = (if (minimumAnomalyLength c <=? length capture)%nat
           then Some (payload capture) else None)
     /\ length (payload capture) = (2 * length capture)%nat
     /\ firstn (length capture) (payload capture) = map negatedGyroY capture
     /\ skipn (length capture) (payload capture) = map accX capture)
  /\ (forall out,
        prediction c g s = Some out ->
        collected c g s = true /\ collectingData (step c g s) = false).
Proof.
  intros g. split.
  - intros Hs Hclosed.
    destruct (collected_capture_step c history s
                (stateAfter_tracksCapture c history) Hs)
      as (capture & Hcap & _ & Hgy & Hac & Hcnt).
    exists capture. split; [exact Hcap |].
    split; [intros other Hother;
            now apply (captureOf_unique c (history ++ [s]) other capture) |].
    split.
    + unfold step, prediction in *. fold g in Hgy, Hac, Hcnt.
      rewrite (processDataV2_collected c g s Hs) in *. cbn zeta in *.
      rewrite Hgy, Hac, Hcnt in *.
      destruct (counterThreshold c <=? trailingRun (sampleInBand c) capture)%nat;
        [| discriminate Hclosed].
      cbn [snd]. now rewrite length_map.
    + unfold payload. rewrite length_app, !length_map.
      split; [lia |].
      split.
      * rewrite firstn_app, length_map, Nat.sub_diag. cbn.
        rewrite app_nil_r. rewrite <- (length_map negatedGyroY capture).
        apply firstn_all.
      * rewrite skipn_app, length_map, Nat.sub_diag. cbn.
        rewrite <- (length_map negatedGyroY capture) at 1.
        now rewrite skipn_all.
  - intros out Hout.
    destruct (collected c g s) eqn:Hs.
    + split; [reflexivity |].
      unfold step, prediction in *.
      rewrite (processDataV2_collected c g s Hs) in *. cbn zeta in *.
      destruct (counterThreshold c <=? _)%nat; [reflexivity | discriminate Hout].
    + destruct (step_not_collected g s Hs) as (_ & _ & _ & Hnone). congruence.
Qed.

End SegmenterProperties.

(* ------------------------------------------------------------------ *)
(** ** The thresholds of the source *)

(** With the constants of the source, a sample above the threshold lies
    outside the end band: in exact arithmetic... *)
Lemma exact_above_not_in_band (s : Sample Exact.xnum) :
  sampleAbove sourceConstants s = true ->
  sampleInBand sourceConstants s = false.
Proof.
  unfold sampleAbove, sampleInBand, aboveThreshold, inEndBand.
  cbn [gyroscopeYThreshold anomalyEndThresholdLow anomalyEndThresholdHigh
       sourceConstants num_gt num_le num_div num_neg num_of_Z Math_abs
       Exact.number].
  destruct (Reading.Y (snd s)) as [y | | |]; cbn; try reflexivity;
    try discriminate.
  intros Habove.
  apply andb_false_iff.
  destruct (Exact.Qc_leb (- Q2Qc (inject_Z 1)) y) eqn:Hlow; [| now left].
  destruct (Exact.Qc_leb y (Q2Qc (inject_Z 1))) eqn:Hhigh; [| now right].
  exfalso.
  apply Qc_ltb_lt in Habove.
  assert (Hlo : (- Q2Qc (inject_Z 1) <= y)%Qc).
  { apply Qcle_alt. unfold Exact.Qc_leb in Hlow.
    destruct (_ ?= _)%Qc; congruence. }
  assert (Hhi : (y <= Q2Qc (inject_Z 1))%Qc).
  { apply Qcle_alt. unfold Exact.Qc_leb in Hhigh.
    destruct (_ ?= _)%Qc; congruence. }
  unfold Qclt, Qcle in *.
  assert (Habs : (Qabs y <= 1)%Q).
  { apply Qabs_Qle_condition. split; [exact Hlo | exact Hhi]. }
  cbn [this Qcabs] in Habove.
  apply (Qlt_not_le _ _ Habove).
  apply Qle_trans with 1%Q; [exact Habs |]. discriminate.
Qed.

(** ... and in binary64. *)
Lemma binary64_above_not_in_band (s : Sample float) :
  sampleAbove sourceConstants s = true ->
  sampleInBand sourceConstants s = false.
Proof.
  unfold sampleAbove, sampleInBand, aboveThreshold, inEndBand.
  cbn [gyroscopeYThreshold anomalyEndThresholdLow anomalyEndThresholdHigh
       sourceConstants num_gt num_le num_div num_neg num_of_Z Math_abs
       Binary64.number].
  generalize (Reading.Y (snd s)). intros y.
  rewrite FloatAxioms.ltb_spec, !FloatAxioms.leb_spec, FloatAxioms.abs_spec.
  replace (Prim2SF (Binary64.of_Z 3 / Binary64.of_Z 2))
    with (S754_finite false 6755399441055744 (-52))
    by (vm_compute; reflexivity).
  replace (Prim2SF (Binary64.of_Z 1))
    with (S754_finite false 4503599627370496 (-52))
    by (vm_compute; reflexivity).
  replace (Prim2SF (- Binary64.of_Z 1))
    with (S754_finite true 4503599627370496 (-52))
    by (vm_compute; reflexivity).
  assert (Hm : (4503599627370496 < 6755399441055744)%positive) by reflexivity.
  revert Hm.
  generalize 6755399441055744%positive 4503599627370496%positive (-52)%Z.
  intros threshold one e0 Hm.
  destruct (Prim2SF y) as [sz | si | | sg m e];
    unfold SFltb, SFleb, SFcompare, SFabs.
  - discriminate.
  - destruct si; intros _; reflexivity.
  - discriminate.
  - repeat match goal with
           | |- context [PosDef.Pos.compare_cont Eq ?a ?b] =>
               change (PosDef.Pos.compare_cont Eq a b) with (Pos.compare a b)
           end.
    destruct sg;
      repeat match goal with
             | |- context [Z.compare ?a ?b] => destruct (Z.compare_spec a b)
             | |- context [Pos.compare ?a ?b] =>
                 destruct (Pos.compare_spec a b)
             end;
      cbn; intros Habove; try discriminate Habove; try reflexivity;
      exfalso; lia.
Qed.

(* ------------------------------------------------------------------ *)
(** ** processDataV2: the two counters, and how a capture ends *)

Section CounterProperties.
Context {num : Type} `{Number num}.
Variable c : Constants num.

(** C7, as the code has it.  Every call counts or resets
    [aboveThresholdCounter] by the test on the magnitude of gyroscope Y.
    [inThresholdCounter] is counted or reset by the end-band test only in a
    call that collects its sample (collecting was on, or the call has just
    turned it on and reset the counter); a call that does not collect
    leaves [inThresholdCounter] as it was, leaves collecting off and sends
    nothing. *)
Theorem counters_per_call (g : Globals num) (s : Sample num) :
  aboveThresholdCounter (step c g s)
  = (if sampleAbove c s then aboveThresholdCounter g + 1 else 0)%nat
  /\ (collected c g s = true ->
      inThresholdCounter (step c g s)
      = (if sampleInBand c s
         then (if collectingData g then inThresholdCounter g else 0) + 1
         else 0)%nat)
  /\ (collected c g s = false ->
      inThresholdCounter (step c g s) = inThresholdCounter g
      /\ collectingData g = false
      /\ collectingData (step c g s) = false
      /\ prediction c g s = None).
Proof.
  split; [apply step_aboveThresholdCounter |]. split.
  - intros Hs. unfold step.
    rewrite (processDataV2_collected c g s Hs). cbn zeta.
    now destruct (counterThreshold c <=? _)%nat.
  - intros Hs.
    destruct (step_not_collected c g s Hs) as (Hoff & Hg & Hcnt & Hnone).
    now repeat split.
Qed.

(** While collecting, a call pushes its sample on both sequences, and
    collecting goes off only when the sample completes [counterThreshold]
    consecutive samples of the capture in the end band. *)
Lemma collecting_call (history : list (Sample num)) (s : Sample num) :
  let g := stateAfter c history in
  collectingData g = true ->
  collected c g s = true
  /\ (collectingData (step c g s) = true ->
      gyroSequence (step c g s) = gyroSequence g ++ [negatedGyroY s]
      /\ accSequence (step c g s) = accSequence g ++ [accX s])
  /\ (collectingData (step c g s) = false ->
      exists earlier,
        captureOf c (history ++ [s]) (earlier ++ [s])
        /\ gyroSequence g = map negatedGyroY earlier
        /\ accSequence g = map accX earlier
        /\ endsWithRun (sampleInBand c) (counterThreshold c) (earlier ++ [s])
        /\ prediction c g s
           = if (minimumAnomalyLength c <=? length (earlier ++ [s]))%nat
             then Some (payload (earlier ++ [s])) else None)
  /\ (sampleInBand c s = false ->
      (1 <= counterThreshold c)%nat ->
      collectingData (step c g s) = true).
Proof.
  intros g Hg.
  assert (Hs : collected c g s = true) by now apply collected_when_collecting.
  pose proof (processDataV2_collected c g s Hs) as Hcall.
  cbn zeta in Hcall. rewrite Hg in Hcall.
  split; [exact Hs |]. unfold step, prediction. rewrite Hcall.
  split; [| split].
  - destruct (counterThreshold c <=? _)%nat; [discriminate | now split].
  - intros Hclosed.
    destruct (collected_capture_step c history s
                (stateAfter_tracksCapture c history) Hs)
      as (capture & Hcap & (earlier & ->) & Hgy & Hac & Hcnt).
    fold g in Hgy, Hac, Hcnt. rewrite Hg in Hgy, Hac, Hcnt.
    exists earlier.
    split; [exact Hcap |].
    rewrite map_app in Hgy, Hac. cbn [map] in Hgy, Hac.
    pose proof Hgy as Hgy'. pose proof Hac as Hac'.
    apply app_inj_tail in Hgy' as [Hgy' _].
    apply app_inj_tail in Hac' as [Hac' _].
    split; [exact Hgy' |]. split; [exact Hac' |].
    rewrite Hcnt in *.
    destruct (counterThreshold c <=? _)%nat eqn:Hend; [| discriminate Hclosed].
    split; [apply trailingRun_endsWithRun; now apply Nat.leb_le |].
    cbn [snd]. unfold payload.
    rewrite !map_app. cbn [map]. rewrite <- Hgy', <- Hac'.
    now rewrite !length_app, Hgy', length_map.
  - intros Hout Hthr. rewrite Hout.
    destruct (Nat.leb_spec (counterThreshold c) 0); [lia | reflexivity].
Qed.

End CounterProperties.

(** C8. While collecting, every call collects its sample: if collecting
    stays on, the sample has been pushed on both sequences; collecting goes
    off only in a call whose sample completes [counterThreshold]
    consecutive samples of the capture in the end band, and that sample is
    the last of the closed capture.  A sample outside the end band never
    ends the capture; with the thresholds of the source, a sample above the
    threshold is outside the end band and so never ends it, in exact
    arithmetic and in binary64. *)
Theorem collecting_ends_only_in_end_band :
  (forall (num : Type) (N : Number num) (c : Constants num)
          (history : list (Sample num)) (s : Sample num),
     let g := stateAfter c history in
     collectingData g = true ->
     collected c g s = true
     /\ (collectingData (step c g s) = true ->
         gyroSequence (step c g s) = gyroSequence g ++ [negatedGyroY s]
         /\ accSequence (step c g s) = accSequence g ++ [accX s])
     /\ (collectingData (step c g s) = false ->
         exists earlier,
           captureOf c (history ++ [s]) (earlier ++ [s])
           /\ gyroSequence g = map negatedGyroY earlier
           /\ accSequence g = map accX earlier
           /\ endsWithRun (sampleInBand c) (counterThreshold c)
                          (earlier ++ [s])
           /\ prediction c g s
              = if (minimumAnomalyLength c <=? length (earlier ++ [s]))%nat
                then Some (payload (earlier ++ [s])) else None)
     /\ (sampleInBand c s = false ->
         (1 <= counterThreshold c)%nat ->
         collectingData (step c g s) = true))
  /\ (forall (history : list (Sample Exact.xnum)) (s : Sample Exact.xnum),
        collectingData (stateAfter sourceConstants history) = true ->
        sampleAbove sourceConstants s = true ->
        collectingData (step sourceConstants
                             (stateAfter sourceConstants history) s) = true)
  /\ (forall (history : list (Sample float)) (s : Sample float),
        collectingData (stateAfter sourceConstants history) = true ->
        sampleAbove sourceConstants s = true ->
        collectingData (step sourceConstants
                             (stateAfter sourceConstants history) s) = true).
Proof.
  split; [intros num N c history s; apply collecting_call |].
  split; intros history s Hg Habove.
  - apply (collecting_call sourceConstants history s Hg).
    + now apply exact_above_not_in_band.
    + cbn. lia.
  - apply (collecting_call sourceConstants history s Hg).
    + now apply binary64_above_not_in_band.
    + cbn. lia.
Qed.

(* ------------------------------------------------------------------ *)
(** ** Concrete runs, in binary64 with the constants of the source *)

(** Against C7 as stated: with collecting off, a sample in the end band
    (gyroscope Y = 0) leaves [inThresholdCounter] at 0 instead of counting
    it, so the end-band counter is not updated on every call. *)
Lemma end_band_counter_untouched_when_idle :
  let s := (Reading.mk 0 0 0, Reading.mk 0 0 0)%float in
  collectingData (initialGlobals (num := float)) = false
  /\ sampleInBand sourceConstants s = true
  /\ inThresholdCounter (step sourceConstants initialGlobals s) = 0%nat
  /\ ~ (forall (g : Globals float) (s : Sample float),
          inThresholdCounter (step sourceConstants g s)
          = if sampleInBand sourceConstants s
            then (inThresholdCounter g + 1)%nat else 0%nat).
Proof.
  cbn zeta. split; [reflexivity |]. split; [vm_compute; reflexivity |].
  split; [vm_compute; reflexivity |].
  intros Hclaim.
  specialize (Hclaim initialGlobals
                     (Reading.mk 0 0 0, Reading.mk 0 0 0)%float).
  vm_compute in Hclaim. discriminate Hclaim.
Qed.

(** Witness for C7: the call that starts a capture counts from 0. *)
Lemma counters_per_call_witness :
  let s := (Reading.mk 0.5 0 0, Reading.mk 0 2 0)%float in
  collected sourceConstants (initialGlobals (num := float)) s = true
  /\ inThresholdCounter (step sourceConstants initialGlobals s) = 0%nat
  /\ aboveThresholdCounter (step sourceConstants initialGlobals s) = 1%nat.
Proof.
  cbn zeta.
  assert (Hs : collected sourceConstants (initialGlobals (num := float))
                 (Reading.mk 0.5 0 0, Reading.mk 0 2 0)%float = true)
    by (vm_compute; reflexivity).
  split; [exact Hs |]. split.
  - exact (proj1 (proj2 (counters_per_call (num := float) sourceConstants
                           initialGlobals
                           (Reading.mk 0.5 0 0, Reading.mk 0 2 0)%float))
                 Hs).
  - exact (proj1 (counters_per_call (num := float) sourceConstants
                    initialGlobals
                    (Reading.mk 0.5 0 0, Reading.mk 0 2 0)%float)).
Defined.

(** Witness for C9: capacity 2; the third addition throws, then a slide. *)
Lemma window_axes_in_lockstep_witness :
  (0 <= 2)%Z
  /\ WindowCalls.invariant
       (WindowCalls.afterAll
          [WindowCalls.CallAddData 1 2 3; WindowCalls.CallAddData 4 5 6;
           WindowCalls.CallAddData 7 8 9; WindowCalls.CallSlide;
           WindowCalls.CallExtractFeatures]%float
          (Window.new 2 "accelerometer"%string (Some 1%Z))).
Proof.
  split; [lia |].
  exact (proj1 (window_axes_in_lockstep (num := float) 2
                  "accelerometer"%string (Some 1%Z)
                  [WindowCalls.CallAddData 1 2 3; WindowCalls.CallAddData 4 5 6;
                   WindowCalls.CallAddData 7 8 9; WindowCalls.CallSlide;
                   WindowCalls.CallExtractFeatures]%float
                  ltac:(lia))).
Defined.

(** Witness for C3: two quiet samples, then one above the threshold. *)
Lemma collecting_starts_on_run_witness :
  let quiet := (Reading.mk 0.25 0 0, Reading.mk 0 0.5 0)%float in
  let burst := (Reading.mk 0.5 0 0, Reading.mk 0 2 0)%float in
  ~ hasRun (sampleAbove sourceConstants) 1 [quiet; quiet]
  /\ collectingData (stateAfter sourceConstants [quiet; quiet]) = false
  /\ endsWithRun (sampleAbove sourceConstants) 1 ([quiet; quiet] ++ [burst])
  /\ collectingData
       (step sourceConstants (stateAfter sourceConstants [quiet; quiet]) burst)
     = true.
Proof.
  cbn zeta.
  assert (Hquiet : ~ hasRun (sampleAbove sourceConstants) 1
                     [(Reading.mk 0.25 0 0, Reading.mk 0 0.5 0);
                      (Reading.mk 0.25 0 0, Reading.mk 0 0.5 0)]%float).
  { intros (before & run & post & E & Hlen & Hall).
    destruct run as [| a [| b run]]; try discriminate Hlen.
    inversion Hall as [| ? ? Ha _]; subst.
    destruct before as [| q1 [| q2 [| q3 before]]]; cbn in E;
      injection E as E; subst; try discriminate;
      vm_compute in Ha; discriminate Ha. }
  assert (Hburst : endsWithRun (sampleAbove sourceConstants) 1
                     ([(Reading.mk 0.25 0 0, Reading.mk 0 0.5 0);
                       (Reading.mk 0.25 0 0, Reading.mk 0 0.5 0)] ++
                      [(Reading.mk 0.5 0 0, Reading.mk 0 2 0)])%float).
  { eexists _, _. split; [reflexivity |]. split; [reflexivity |].
    constructor; [vm_compute; reflexivity | constructor]. }
  split; [exact Hquiet |].
  pose proof (collecting_starts_on_run (num := float) sourceConstants
                [(Reading.mk 0.25 0 0, Reading.mk 0 0.5 0);
                 (Reading.mk 0.25 0 0, Reading.mk 0 0.5 0)]%float)
    as (Hidle & Hstart & _).
  split; [apply (Hidle Hquiet _ []); now rewrite app_nil_r |].
  split; [exact Hburst |].
  assert (Hoff : collectingData
                   (stateAfter sourceConstants
                      [(Reading.mk 0.25 0 0, Reading.mk 0 0.5 0);
                       (Reading.mk 0.25 0 0, Reading.mk 0 0.5 0)]%float)
                 = false)
    by (vm_compute; reflexivity).
  destruct (Hstart (Reading.mk 0.5 0 0, Reading.mk 0 2 0)%float Hoff Hburst)
    as (_ & _ & _ & _ & Hcall).
  vm_compute in Hcall. vm_compute. exact (proj1 Hcall).
Defined.

(** Witness for C2: fifteen samples above the threshold and five in the end
    band make a capture of twenty samples, closed by the twentieth. *)
Lemma prediction_is_closed_capture_witness :
  let burst := (Reading.mk 0.5 0 0, Reading.mk 0 2 0)%float in
  let calm := (Reading.mk 0.25 0 0, Reading.mk 0 0.5 0)%float in
  let history := repeat burst 15 ++ repeat calm 4 in
  exists capture,
    captureOf sourceConstants (history ++ [calm]) capture
    /\ prediction sourceConstants (stateAfter sourceConstants history) calm
       = Some (payload capture)
    /\ payload capture
       = (repeat (-2) 15 ++ repeat (-0.5) 5
          ++ repeat 0.5 15 ++ repeat 0.25 5)%float.
Proof.
  cbn zeta.
  set (history := repeat (Reading.mk 0.5 0 0, Reading.mk 0 2 0)%float 15
                  ++ repeat (Reading.mk 0.25 0 0, Reading.mk 0 0.5 0)%float 4).
  set (calm := (Reading.mk 0.25 0 0, Reading.mk 0 0.5 0)%float).
  assert (Hs : collected sourceConstants (stateAfter sourceConstants history)
                 calm = true)
    by (vm_compute; reflexivity).
  assert (Hclosed : collectingData
                      (step sourceConstants
                            (stateAfter sourceConstants history) calm)
                    = false)
    by (vm_compute; reflexivity).
  destruct (proj1 (prediction_is_closed_capture (num := float) sourceConstants
                     history calm) Hs Hclosed)
    as (capture & Hcap & _ & Hsent & _).
  exists capture. split; [exact Hcap |].
  assert (Hrun : prediction sourceConstants
                   (stateAfter sourceConstants history) calm
                 = Some (repeat (-2) 15 ++ repeat (-0.5) 5
                         ++ repeat 0.5 15 ++ repeat 0.25 5)%float)
    by (vm_compute; reflexivity).
  rewrite Hsent in Hrun |- *.
  destruct (minimumAnomalyLength sourceConstants <=? length capture)%nat;
    [| discriminate Hrun].
  split; [reflexivity | now injection Hrun].
Defined.

(** Witness for C8: a second sample above the threshold keeps collecting. *)
Lemma collecting_ends_only_in_end_band_witness :
  let burst := (Reading.mk 0.5 0 0, Reading.mk 0 2 0)%float in
  collectingData (stateAfter sourceConstants [burst]) = true
  /\ sampleAbove sourceConstants burst = true
  /\ collectingData
       (step sourceConstants (stateAfter sourceConstants [burst]) burst)
     = true.
Proof.
  cbn zeta.
  assert (Hon : collectingData
                  (stateAfter sourceConstants
                     [(Reading.mk 0.5 0 0, Reading.mk 0 2 0)%float])
                = true)
    by (vm_compute; reflexivity).
  assert (Habove : sampleAbove sourceConstants
                     (Reading.mk 0.5 0 0, Reading.mk 0 2 0)%float = true)
    by (vm_compute; reflexivity).
  split; [exact Hon |]. split; [exact Habove |].
  exact (proj2 (proj2 collecting_ends_only_in_end_band)
               [(Reading.mk 0.5 0 0, Reading.mk 0 2 0)%float]
               (Reading.mk 0.5 0 0, Reading.mk 0 2 0)%float
               Hon Habove).
Defined.

(* ------------------------------------------------------------------ *)
(** ** The sensor listener and streams of samples *)

Section ListenerProperties.
Context {num : Type} `{Number num}.
Variable c : Constants num.

(** X1. The listener ignores the data of every sensor but the IMU: after
    any stream of data, the variables and the sequences sent to
    [makePredictionV2] are those of calling [processDataV2] on the data
    whose [sensorId] is 0, in the order received. *)
Theorem listener_drops_other_sensors
  (data : list (SensorData num)) (g : Globals num) :
  receiveAll c data g = feedAll c (map sampleOf (filter fromIMU data)) g.
Proof.
  revert g. induction data as [| d data IH]; intros g; [reflexivity |].
  cbn [receiveAll filter]. unfold onSensorDataReceived.
  change (sensorId d =? 0)%Z with (fromIMU d).
  destruct (fromIMU d); cbn [negb map feedAll].
  - unfold sampleOf at 1 2. cbn [fst snd].
    destruct (ACC d) as [ax ay az], (GYRO d) as [gx gy gz].
    cbn [Reading.X Reading.Y Reading.Z].
    destruct (processDataV2 c _ _ g) as [g' call]. rewrite IH. reflexivity.
  - rewrite IH. now destruct (feedAll c _ g).
Qed.

(** The variables that [feedAll] ends with are those of [feed]. *)
Lemma feedAll_feed (samples : list (Sample num)) (g : Globals num) :
  fst (feedAll c samples g) = feed c samples g.
Proof.
  revert g. induction samples as [| s samples IH]; intros g; [reflexivity |].
  change (feed c (s :: samples) g) with (feed c samples (step c g s)).
  cbn [feedAll]. unfold step.
  destruct (processDataV2 c (fst s) (snd s) g) as [g' call]. cbn [fst].
  specialize (IH g'). destruct (feedAll c samples g') as [g'' calls].
  exact IH.
Qed.

(** X2. As long as no sample is above the threshold (and collecting needs at
    least one such sample to start), nothing happens: the variables keep
    their initial values and nothing is sent to [makePredictionV2]. *)
Theorem quiet_stream_sends_nothing (samples : list (Sample num)) :
  (1 <= startThresholdCount c)%nat ->
  Forall (fun s => sampleAbove c s = false) samples ->
  feedAll c samples initialGlobals = (initialGlobals, []).
Proof.
  intros Hstart Hquiet.
  induction Hquiet as [| s samples Hs _ IH]; [reflexivity |].
  cbn [feedAll].
  assert (Hidle : collected c initialGlobals s = false).
  { rewrite collected_spec, Hs. cbn.
    destruct (startThresholdCount c); [lia | reflexivity]. }
  rewrite (processDataV2_not_collected c initialGlobals s Hidle), Hs.
  change (set_aboveThresholdCounter 0 initialGlobals)
    with (initialGlobals (num := num)).
  now rewrite IH.
Qed.

(** X4. After any stream of samples the two sequences have one length;
    they are empty while collecting is off; while collecting is on they are
    not empty, and the end-band counter counts samples of the capture and
    has not reached [counterThreshold]. *)
Theorem sequences_grow_together (history : list (Sample num)) :
  let g := stateAfter c history in
  length (accSequence g) = length (gyroSequence g)
  /\ (collectingData g = false -> accSequence g = [] /\ gyroSequence g = [])
  /\ (collectingData g = true ->
      gyroSequence g <> []
      /\ (inThresholdCounter g <= length (gyroSequence g))%nat
      /\ (inThresholdCounter g < counterThreshold c)%nat).
Proof.
  induction history as [| s history IH] using rev_ind.
  - cbn. repeat split; discriminate.
  - rewrite stateAfter_snoc. cbn zeta in *.
    destruct IH as (Hlen & Hoff & Hon).
    destruct (collected c (stateAfter c history) s) eqn:Hs.
    + unfold step. rewrite (processDataV2_collected c _ s Hs). cbn zeta.
      destruct (counterThreshold c <=? _)%nat eqn:Hend.
      * cbn. repeat split; discriminate.
      * apply Nat.leb_gt in Hend. cbn [fst accSequence gyroSequence
          collectingData inThresholdCounter].
        destruct (collectingData (stateAfter c history)) eqn:Hg.
        -- destruct (Hon eq_refl) as (Hne & Hle & Hlt).
           rewrite !length_app, Hlen. cbn [length].
           split; [reflexivity |]. split; [discriminate |]. intros _.
           split; [now destruct (gyroSequence (stateAfter c history)) |].
           split; [destruct (sampleInBand c s); lia | exact Hend].
        -- cbn [app length]. split; [reflexivity |].
           split; [discriminate |]. intros _.
           split; [discriminate |].
           split; [destruct (sampleInBand c s); cbn; lia | exact Hend].
    + destruct (step_not_collected c _ s Hs) as (Hoff' & Hg & Hcnt & _).
      unfold step in *. rewrite (processDataV2_not_collected c _ s Hs) in *.
      cbn [fst] in *.
      destruct (Hoff Hg) as [Hac Hgy].
      destruct (stateAfter c history) as [ac gy col cnt above]. cbn in *.
      subst. repeat split; congruence.
Qed.

End ListenerProperties.

(* ------------------------------------------------------------------ *)
(** ** A NaN reading, in binary64 *)

Lemma binary64_nan_not_above (c : Constants float) (s : Sample float) :
  Reading.Y (snd s) = PrimFloat.nan -> sampleAbove c s = false.
Proof.
  intros Hy. unfold sampleAbove, aboveThreshold. rewrite Hy.
  cbn [num_gt Math_abs Binary64.number].
  rewrite FloatAxioms.ltb_spec.
  change (Prim2SF (PrimFloat.abs PrimFloat.nan)) with S754_nan.
  unfold SFltb, SFcompare. now destruct (Prim2SF (gyroscopeYThreshold c)).
Qed.

Lemma binary64_nan_not_in_band (c : Constants float) (s : Sample float) :
  Reading.Y (snd s) = PrimFloat.nan -> sampleInBand c s = false.
Proof.
  intros Hy. unfold sampleInBand, inEndBand. rewrite Hy.
  cbn [num_le Binary64.number].
  rewrite FloatAxioms.leb_spec.
  change (Prim2SF PrimFloat.nan) with S754_nan.
  unfold SFleb at 1. unfold SFcompare.
  now destruct (Prim2SF (anomalyEndThresholdLow c)).
Qed.

(** X3. A reading whose gyroscope Y is NaN is neither above the threshold
    nor in the end band, whatever the thresholds are.  With collecting off
    it only resets [aboveThresholdCounter] (if collecting needs at least one
    sample above the threshold to start).  With collecting on it is
    collected as NaN, resets the end-band counter and cannot end the
    capture (if ending needs at least one sample in the end band). *)
Theorem nan_reading_resets_counters
  (c : Constants float) (g : Globals float) (s : Sample float) :
  Reading.Y (snd s) = PrimFloat.nan ->
  sampleAbove c s = false
  /\ sampleInBand c s = false
  /\ aboveThresholdCounter (step c g s) = 0%nat
  /\ (collectingData g = false ->
      (1 <= startThresholdCount c)%nat ->
      processDataV2 c (fst s) (snd s) g
      = (set_aboveThresholdCounter 0 g, None))
  /\ (collectingData g = true ->
      (1 <= counterThreshold c)%nat ->
      processDataV2 c (fst s) (snd s) g
      = (mkGlobals (accSequence g ++ [accX s])
                   (gyroSequence g ++ [PrimFloat.nan])
                   true 0 0,
         None)).
Proof.
  intros Hy.
  pose proof (binary64_nan_not_above c s Hy) as Habove.
  pose proof (binary64_nan_not_in_band c s Hy) as Hband.
  split; [exact Habove |]. split; [exact Hband |].
  split; [now rewrite step_aboveThresholdCounter, Habove |].
  split.
  - intros Hg Hstart.
    assert (Hs : collected c g s = false).
    { rewrite collected_spec, Hg, Habove. cbn.
      destruct (startThresholdCount c); [lia | reflexivity]. }
    now rewrite (processDataV2_not_collected c g s Hs), Habove.
  - intros Hg Hend.
    assert (Hs : collected c g s = true)
      by now apply collected_when_collecting.
    rewrite (processDataV2_collected c g s Hs). cbn zeta.
    rewrite Hg, Habove, Hband.
    destruct (Nat.leb_spec (counterThreshold c) 0); [lia |].
    unfold negatedGyroY. now rewrite Hy.
Qed.

(** Witness for X3: a NaN reading right after the capture has started. *)
Lemma nan_reading_resets_counters_witness :
  let burst := (Reading.mk 0.5 0 0, Reading.mk 0 2 0)%float in
  let glitch := (Reading.mk 0.25 0 0, Reading.mk 0 PrimFloat.nan 0)%float in
  processDataV2 sourceConstants (fst glitch) (snd glitch)
                (stateAfter sourceConstants [burst])
  = (mkGlobals [0.5; 0.25]%float [(-2)%float; PrimFloat.nan] true 0 0, None).
Proof.
  cbn zeta.
  exact (proj2 (proj2 (proj2 (proj2
           (nan_reading_resets_counters sourceConstants
              (stateAfter sourceConstants
                 [(Reading.mk 0.5 0 0, Reading.mk 0 2 0)%float])
              (Reading.mk 0.25 0 0, Reading.mk 0 PrimFloat.nan 0)%float
              eq_refl))))
           eq_refl ltac:(cbn; lia)).
Defined.

(** Witness for X2: three samples below the threshold. *)
Lemma quiet_stream_sends_nothing_witness :
  feedAll sourceConstants
          (repeat (Reading.mk 0.25 0 0, Reading.mk 0 1.5 0)%float 3)
          initialGlobals
  = (initialGlobals, []).
Proof.
  apply (quiet_stream_sends_nothing (num := float) sourceConstants).
  - cbn. lia.
  - repeat constructor.
Defined.

(* ------------------------------------------------------------------ *)
(** ** SensorDataHandler with any window size and overlap *)

Lemma slice_length_full {A} (C V : Z) (a : list A) :
  Z.of_nat (length a) = C ->
  Z.of_nat (length (slice (C - V) a)) = HandlerStreams.effectiveOverlap C V.
Proof.
  intros Hlen. unfold slice, HandlerStreams.effectiveOverlap.
  rewrite length_skipn, Hlen.
  destruct (Z.ltb_spec (C - V) 0), (Z.ltb_spec V 0), (Z.leb_spec V C),
    (Z.ltb_spec V (2 * C)); lia.
Qed.

Section AnyParameters.
Context {num : Type} `{Number num}.
Import HandlerCalls HandlerStreams.

Lemma filled_slide_any (C V : Z) (w : Window.t num) :
  filled C V C w ->
  exists w',
    Window.slide w = (Normal tt, w') /\ filled C V (effectiveOverlap C V) w'.
Proof.
  intros (HC & HV & Hx & Hy & Hz).
  eexists. split; [apply slide_full; lia |].
  unfold filled. cbn -[slice]. rewrite HC, HV.
  now rewrite !slice_length_full.
Qed.

(** A call on a handler whose windows have reached their capacity throws
    in the first [addData] and changes nothing. *)
Lemma handleData_full (C V L : Z) (h : SensorDataHandler.t num)
  (acc gyro : num * num * num) :
  level C V L h -> (C <= L)%Z ->
  SensorDataHandler.handleData acc gyro h = (Throw WindowIsFull, h).
Proof.
  intros [(HC & _ & Hx & _) _] HL.
  destruct h as [a g], acc as [[ax ay] az], gyro as [[gx gy] gz].
  cbn [SensorDataHandler.accWindow] in *.
  unfold SensorDataHandler.handleData, bind, SensorDataHandler.onAcc, zoom.
  handler_fields.
  now rewrite addData_full by lia.
Qed.

(** A call on a handler whose windows are below their capacity, for any
    overlap: as [handleData_call], with what the slide really keeps. *)
Lemma handleData_call_any (C V L : Z) (h : SensorDataHandler.t num)
  (acc gyro : num * num * num) :
  (0 <= L < C)%Z -> level C V L h ->
  exists r h',
    SensorDataHandler.handleData acc gyro h = (Normal r, h')
    /\ (if (L + 1 =? C)%Z
        then r <> None /\ level C V (effectiveOverlap C V) h'
        else r = None /\ level C V (L + 1) h').
Proof.
  intros HL [Ha Hg].
  destruct h as [a g], acc as [[ax ay] az], gyro as [[gx gy] gz].
  cbn [SensorDataHandler.accWindow SensorDataHandler.gyroWindow] in *.
  destruct (filled_addData C V L a ax ay az Ha ltac:(lia)) as (wa & Ea & Fa).
  destruct (filled_addData C V L g gx gy gz Hg ltac:(lia)) as (wg & Eg & Fg).
  unfold SensorDataHandler.handleData, bind, SensorDataHandler.onAcc,
    SensorDataHandler.onGyro, zoom.
  handler_fields. rewrite Ea. handler_fields. rewrite Eg. handler_fields.
  rewrite (filled_isFull C V (L + 1) wa Fa). handler_fields.
  destruct (Z.eqb_spec (L + 1) C) as [E | E].
  - rewrite E in *. rewrite Z.leb_refl. handler_fields.
    rewrite (filled_isFull C V C wg Fg), Z.leb_refl. handler_fields.
    destruct (filled_slide_any C V wa Fa) as (wa' & Sa & Fa').
    destruct (filled_slide_any C V wg Fg) as (wg' & Sg & Fg').
    unfold Window.extractFeatures at 1 2. unfold bind, get, ret.
    handler_fields. rewrite Sa. handler_fields. rewrite Sg.
    eexists _, _. split; [reflexivity |]. split; [discriminate | now split].
  - destruct (Z.leb_spec C (L + 1)); [lia |].
    eexists _, _. split; [reflexivity |]. split; [reflexivity | now split].
Qed.

Lemma new_level_any (C : Z) (V : option Z) :
  level C (match V with Some v => v | None => 0%Z end) 0
        (SensorDataHandler.new (num := num) C V).
Proof.
  unfold level, filled, SensorDataHandler.new, Window.new. cbn.
  destruct V as [v |]; cbn; [| now repeat split].
  destruct (Z.eqb_spec v 0); repeat split; congruence.
Qed.

(** X6. Whatever the window size and the overlap, and whether calls return
    or throw, the two windows of a handler stay in step: after any number
    of calls of [handleData], the six axis arrays have one length. *)
Theorem windows_stay_in_step
  (C : Z) (V : option Z) (inputs : list Input) :
  let h := snd (handleAll inputs (SensorDataHandler.new (num := num) C V)) in
  exists L : nat,
    length (Window.x (SensorDataHandler.accWindow h)) = L
    /\ length (Window.y (SensorDataHandler.accWindow h)) = L
    /\ length (Window.z (SensorDataHandler.accWindow h)) = L
    /\ length (Window.x (SensorDataHandler.gyroWindow h)) = L
    /\ length (Window.y (SensorDataHandler.gyroWindow h)) = L
    /\ length (Window.z (SensorDataHandler.gyroWindow h)) = L.
Proof.
  cbn zeta.
  assert (Hstep : forall (v : Z) (ins : list Input) (h : SensorDataHandler.t num),
             (exists L, (0 <= L)%Z /\ level C v L h) ->
             exists L, (0 <= L)%Z /\ level C v L (snd (handleAll ins h))).
  { intros v. induction ins as [| [acc gyro] rest IH]; intros h Hh;
      [exact Hh |].
    cbn [handleAll].
    destruct Hh as (L & HL & Hlevel).
    assert (Hnext : exists L', (0 <= L')%Z
               /\ level C v L'
                    (snd (SensorDataHandler.handleData acc gyro h))).
    { destruct (Z.lt_ge_cases L C) as [Hlt | Hge].
      - destruct (handleData_call_any C v L h acc gyro ltac:(lia) Hlevel)
          as (r & h' & Hh & Hcase).
        rewrite Hh. cbn [snd].
        destruct (L + 1 =? C)%Z.
        + exists (effectiveOverlap C v). split; [| apply Hcase].
          unfold effectiveOverlap.
          destruct (Z.ltb_spec v 0), (Z.leb_spec v C), (Z.ltb_spec v (2 * C));
            lia.
        + exists (L + 1)%Z. split; [lia | apply Hcase].
      - rewrite (handleData_full C v L h acc gyro Hlevel Hge).
        now exists L. }
    destruct (SensorDataHandler.handleData acc gyro h) as [r h'].
    specialize (IH h' Hnext).
    now destruct (handleAll rest h') as [rs h'']. }
  destruct (Hstep _ inputs _
              (ex_intro _ 0%Z (conj (Z.le_refl 0) (new_level_any C V))))
    as (L & HL & (_ & _ & Hax & Hay & Haz) & (_ & _ & Hgx & Hgy & Hgz)).
  exists (Z.to_nat L). repeat split; lia.
Qed.

(** X7. A handler whose window size is zero or negative is full from the
    start: every call of [handleData] throws "Window is full", and the
    handler never changes. *)
Theorem handleData_throws_without_capacity
  (C : Z) (V : option Z) (inputs : list Input) :
  (C <= 0)%Z ->
  handleAll inputs (SensorDataHandler.new (num := num) C V)
  = (repeat (Throw WindowIsFull) (length inputs),
     SensorDataHandler.new C V).
Proof.
  intros HC.
  induction inputs as [| [acc gyro] rest IH]; [reflexivity |].
  cbn [handleAll length repeat].
  rewrite (handleData_full C _ 0 _ acc gyro (new_level_any C V) HC).
  now rewrite IH.
Qed.

Lemma effectiveOverlap_bounds (C V : Z) :
  (1 <= C)%Z -> (0 <= effectiveOverlap C V <= C)%Z.
Proof.
  intros HC. unfold effectiveOverlap.
  destruct (Z.ltb_spec V 0), (Z.leb_spec V C), (Z.ltb_spec V (2 * C)); lia.
Qed.

Lemma handleAll_cycle_any (C V : Z) (inputs : list Input) :
  (1 <= C)%Z -> (effectiveOverlap C V < C)%Z ->
  forall (k : nat) (h : SensorDataHandler.t num),
    level C V (levelAfter C (effectiveOverlap C V) k) h ->
    map outcome (fst (handleAll inputs h))
    = map (expected C (effectiveOverlap C V)) (seq (S k) (length inputs)).
Proof.
  intros HC HE.
  pose proof (effectiveOverlap_bounds C V HC) as HE0.
  assert (HV : (0 <= effectiveOverlap C V < C)%Z) by lia.
  induction inputs as [| [acc gyro] rest IH]; intros k h Hlevel;
    [reflexivity |].
  cbn [handleAll length seq map].
  pose proof (levelAfter_bounds C _ HV k) as HL.
  destruct (handleData_call_any C V _ h acc gyro HL Hlevel)
    as (r & h' & Hh & Hcase).
  rewrite Hh.
  specialize (IH (S k) h').
  rewrite (levelAfter_succ C _ HV k) in IH.
  unfold expected at 1. rewrite (summaryDue_succ C _ HV k).
  destruct (levelAfter C (effectiveOverlap C V) k + 1 =? C)%Z;
    destruct Hcase as [Hr Hlevel']; specialize (IH Hlevel');
    destruct (handleAll rest h') as [rs h'']; cbn [fst map] in *;
    rewrite IH; f_equal.
  - now destruct r.
  - now subst r.
Qed.

(** X9. For a window size [C >= 1] and an overlap outside [0 <= V < C] that
    still lets a slide drop samples (a negative [V], or [C < V < 2C]), the
    handler behaves as with the overlap that the slide really keeps: none
    for a negative [V], and [V - C] for [C < V < 2C].  No call throws. *)
Theorem handleData_cycle_with_any_overlap
  (C V : Z) (inputs : list Input) :
  (1 <= C)%Z -> (V < 0 \/ C < V < 2 * C)%Z ->
  map outcome
      (fst (handleAll inputs (SensorDataHandler.new (num := num) C (Some V))))
  = map (expected C (if (V <? 0)%Z then 0 else V - C)%Z)
        (seq 1 (length inputs)).
Proof.
  intros HC HV.
  assert (HE : effectiveOverlap C V = (if (V <? 0)%Z then 0 else V - C)%Z).
  { unfold effectiveOverlap.
    destruct (Z.ltb_spec V 0), (Z.leb_spec V C), (Z.ltb_spec V (2 * C)); lia. }
  rewrite <- HE.
  apply handleAll_cycle_any; [exact HC | | ].
  - rewrite HE. destruct (Z.ltb_spec V 0); lia.
  - change (levelAfter C (effectiveOverlap C V) 0)
      with (if (0 <? C)%Z then 0%Z
            else (effectiveOverlap C V
                  + (0 - C) mod (C - effectiveOverlap C V))%Z).
    destruct (Z.ltb_spec 0 C); [apply (new_level_any C (Some V)) | lia].
Qed.

Lemma handleAll_stuck (C V : Z) (inputs : list Input) :
  (1 <= C)%Z -> effectiveOverlap C V = C ->
  forall (k : nat) (h : SensorDataHandler.t num),
    level C V (Z.min (Z.of_nat k) C) h ->
    map outcome (fst (handleAll inputs h))
    = map (stuckOutcome C) (seq (S k) (length inputs))
    /\ ((C <= Z.of_nat k)%Z -> snd (handleAll inputs h) = h).
Proof.
  intros HC HE.
  induction inputs as [| [acc gyro] rest IH]; intros k h Hlevel;
    [now split |].
  cbn [handleAll length seq map].
  destruct (Z.lt_ge_cases (Z.of_nat k) C) as [Hlt | Hge].
  - rewrite Z.min_l in Hlevel by lia.
    destruct (handleData_call_any C V (Z.of_nat k) h acc gyro ltac:(lia) Hlevel)
      as (r & h' & Hh & Hcase).
    rewrite Hh. rewrite HE in Hcase.
    specialize (IH (S k) h').
    unfold stuckOutcome at 1.
    destruct (Z.eqb_spec (Z.of_nat k + 1) C) as [E | E];
      destruct Hcase as [Hr Hlevel'].
    + rewrite Z.min_r in IH by lia.
      destruct (IH Hlevel') as [IHout _].
      destruct (handleAll rest h') as [rs h'']. cbn [fst snd map] in *.
      split; [| lia]. rewrite IHout. f_equal.
      destruct (Z.ltb_spec (Z.of_nat (S k)) C); [lia |].
      destruct (Z.eqb_spec (Z.of_nat (S k)) C); [| lia].
      now destruct r.
    + rewrite Z.min_l in IH by lia.
      replace (Z.of_nat (S k)) with (Z.of_nat k + 1)%Z in IH by lia.
      destruct (IH Hlevel') as [IHout _].
      destruct (handleAll rest h') as [rs h'']. cbn [fst snd map] in *.
      split; [| lia]. rewrite IHout. f_equal.
      destruct (Z.ltb_spec (Z.of_nat (S k)) C); [| lia].
      now subst r.
  - rewrite Z.min_r in Hlevel by lia.
    rewrite (handleData_full C V C h acc gyro Hlevel ltac:(lia)).
    specialize (IH (S k) h).
    rewrite Z.min_r in IH by lia.
    destruct (IH Hlevel) as [IHout IHsame].
    destruct (handleAll rest h) as [rs h'']. cbn [fst snd map] in *.
    split; [| intros _; apply IHsame; lia].
    rewrite IHout. f_equal. unfold stuckOutcome.
    destruct (Z.ltb_spec (Z.of_nat (S k)) C); [lia |].
    destruct (Z.eqb_spec (Z.of_nat (S k)) C); [lia | reflexivity].
Qed.

(** X8. With a window size [C >= 1] and an overlap equal to the window size
    (or at least twice the window size), a slide keeps the whole window:
    the first [C - 1] calls return [null], the [C]-th returns a summary,
    and every later call throws "Window is full"; more calls after the
    [C]-th leave the handler as it is. *)
Theorem handleData_stuck_when_overlap_is_window_size
  (C V : Z) (inputs more : list Input) :
  (1 <= C)%Z -> (V = C \/ 2 * C <= V)%Z ->
  map outcome
      (fst (handleAll inputs (SensorDataHandler.new (num := num) C (Some V))))
  = map (stuckOutcome C) (seq 1 (length inputs))
  /\ ((C <= Z.of_nat (length inputs))%Z ->
      snd (handleAll (inputs ++ more) (SensorDataHandler.new C (Some V)))
      = snd (handleAll inputs (SensorDataHandler.new (num := num) C (Some V)))).
Proof.
  intros HC HV.
  assert (HE : effectiveOverlap C V = C).
  { unfold effectiveOverlap.
    destruct (Z.ltb_spec V 0), (Z.leb_spec V C), (Z.ltb_spec V (2 * C)); lia. }
  assert (Hnew : level C V (Z.min (Z.of_nat 0) C)
                   (SensorDataHandler.new (num := num) C (Some V))).
  { rewrite Z.min_l by lia. apply (new_level_any C (Some V)). }
  split; [apply (handleAll_stuck C V inputs HC HE 0 _ Hnew) |].
  intros Hlen.
  assert (Hsplit : forall (ins1 ins2 : list Input) (h : SensorDataHandler.t num),
             snd (handleAll (ins1 ++ ins2) h)
             = snd (handleAll ins2 (snd (handleAll ins1 h)))).
  { induction ins1 as [| [acc gyro] ins1 IH1]; intros ins2 h; [reflexivity |].
    cbn [app handleAll].
    destruct (SensorDataHandler.handleData acc gyro h) as [r h'].
    specialize (IH1 ins2 h').
    destruct (handleAll (ins1 ++ ins2) h') as [rs1 h1].
    destruct (handleAll ins1 h') as [rs2 h2]. exact IH1. }
  rewrite Hsplit.
  assert (Hreached : forall (ins : list Input) (k : nat)
                            (h : SensorDataHandler.t num),
             level C V (Z.min (Z.of_nat k) C) h ->
             level C V (Z.min (Z.of_nat (k + length ins)) C)
                   (snd (handleAll ins h))).
  { induction ins as [| [acc gyro] ins IHr]; intros k h Hlevel.
    - cbn. now rewrite Nat.add_0_r.
    - cbn [handleAll length].
      replace (k + S (length ins))%nat with (S k + length ins)%nat by lia.
      assert (Hnext : level C V (Z.min (Z.of_nat (S k)) C)
                        (snd (SensorDataHandler.handleData acc gyro h))).
      { destruct (Z.lt_ge_cases (Z.of_nat k) C) as [Hlt | Hge].
        - rewrite Z.min_l in Hlevel by lia.
          destruct (handleData_call_any C V (Z.of_nat k) h acc gyro ltac:(lia) Hlevel)
            as (r & h' & Hh & Hcase).
          rewrite Hh. cbn [snd]. rewrite HE in Hcase.
          destruct (Z.eqb_spec (Z.of_nat k + 1) C) as [E | E];
            destruct Hcase as [_ Hlevel'].
          + now rewrite Z.min_r by lia.
          + rewrite Z.min_l by lia.
            now replace (Z.of_nat (S k)) with (Z.of_nat k + 1)%Z by lia.
        - rewrite Z.min_r in Hlevel by lia.
          rewrite (handleData_full C V C h acc gyro Hlevel ltac:(lia)).
          cbn [snd]. now rewrite Z.min_r by lia. }
      destruct (SensorDataHandler.handleData acc gyro h) as [r h'].
      specialize (IHr (S k) h' Hnext).
      now destruct (handleAll ins h') as [rs h'']. }
  pose proof (Hreached inputs 0%nat _ Hnew) as Hlevel. cbn [Nat.add] in Hlevel.
  apply (handleAll_stuck C V more HC HE (length inputs) _ Hlevel). exact Hlen.
Qed.

End AnyParameters.

(* ------------------------------------------------------------------ *)
(** ** What the windows hold *)

Lemma lastn_snoc {A} (n : nat) (l : list A) (a : A) :
  (n <= length l)%nat -> lastn (S n) (l ++ [a]) = lastn n l ++ [a].
Proof.
  intros Hn. unfold lastn. rewrite length_app. cbn [length].
  replace (length l + 1 - S n)%nat with (length l - n)%nat by lia.
  rewrite skipn_app.
  replace (length l - n - length l)%nat with 0%nat by lia.
  reflexivity.
Qed.

Lemma skipn_lastn {A} (m n : nat) (l : list A) :
  (m <= n <= length l)%nat -> skipn (n - m) (lastn n l) = lastn m l.
Proof.
  intros Hmn. unfold lastn. rewrite skipn_skipn. f_equal. lia.
Qed.

Lemma length_lastn {A} (n : nat) (l : list A) :
  (n <= length l)%nat -> length (lastn n l) = n.
Proof.
  intros Hn. unfold lastn. rewrite length_skipn. lia.
Qed.

Lemma levelAfter_le (C V : Z) (k : nat) :
  (0 <= V < C)%Z -> (HandlerCalls.levelAfter C V k <= Z.of_nat k)%Z.
Proof.
  intros HV. unfold HandlerCalls.levelAfter.
  destruct (Z.ltb_spec (Z.of_nat k) C); [lia |].
  pose proof (Z.mod_pos_bound (Z.of_nat k - C) (C - V) ltac:(lia)). lia.
Qed.

Section RecentSamples.
Context {num : Type} `{Number num}.
Import HandlerCalls HandlerStreams.

Lemma holds_addData (w : Window.t num) (samples : list (num * num * num))
  (vx vy vz : num) :
  holds w samples ->
  (Z.of_nat (length (Window.x w)) < Window.windowSize w)%Z ->
  exists w',
    Window.addData vx vy vz w = (Normal tt, w')
    /\ holds w' (samples ++ [(vx, vy, vz)]).
Proof.
  intros (Hx & Hy & Hz) Hlen. eexists.
  split; [now apply addData_not_full |].
  unfold holds. cbn. rewrite !map_app, Hx, Hy, Hz. now repeat split.
Qed.

Lemma holds_slide (C V : Z) (w : Window.t num)
  (samples : list (num * num * num)) :
  (0 <= V < C)%Z -> filled C V C w -> holds w samples ->
  exists w',
    Window.slide w = (Normal tt, w')
    /\ holds w' (skipn (Z.to_nat (C - V)) samples).
Proof.
  intros HV (HC & HO & Lx & Ly & Lz) (Hx & Hy & Hz). eexists.
  split; [apply slide_full; lia |].
  unfold holds. cbn -[slice]. rewrite HC, HO.
  rewrite !slice_nonneg by lia.
  rewrite Hx, Hy, Hz, !skipn_map. now repeat split.
Qed.

Lemma holds_extractFeatures (w : Window.t num)
  (samples : list (num * num * num)) :
  holds w samples -> samples <> [] ->
  Window.extractFeatures w = (Normal (featuresOver samples), w).
Proof.
  intros (Hx & Hy & Hz) Hne.
  unfold Window.extractFeatures, bind, get, ret, featuresOver.
  rewrite Hx, Hy, Hz, !length_map.
  destruct samples as [| s samples]; [now contradiction Hne | reflexivity].
Qed.

(** One call, with what the windows hold before and after it. *)
Lemma handleData_recent (C V L : Z) (h : SensorDataHandler.t num)
  (past : list Input) (acc gyro : num * num * num) :
  (0 <= V < C)%Z -> (0 <= L < C)%Z -> (L <= Z.of_nat (length past))%Z ->
  level C V L h ->
  holds (SensorDataHandler.accWindow h) (lastn (Z.to_nat L) (map fst past)) ->
  holds (SensorDataHandler.gyroWindow h) (lastn (Z.to_nat L) (map snd past)) ->
  let past' := past ++ [(acc, gyro)] in
  let L' := (if (L + 1 =? C) then V else L + 1)%Z in
  exists r h',
    SensorDataHandler.handleData acc gyro h = (Normal r, h')
    /\ r = (if (L + 1 =? C)%Z
            then Some (SensorDataHandler.mkSummary
                         (featuresOver (lastn (Z.to_nat C) (map fst past')))
                         (featuresOver (lastn (Z.to_nat C) (map snd past'))))
            else None)
    /\ level C V L' h'
    /\ holds (SensorDataHandler.accWindow h')
             (lastn (Z.to_nat L') (map fst past'))
    /\ holds (SensorDataHandler.gyroWindow h')
             (lastn (Z.to_nat L') (map snd past')).
Proof.
  intros HV HL Hpast Hlevel Ha Hg past' L'. unfold Input in *.
  destruct (handleData_call C V L h acc gyro HV HL Hlevel)
    as (wa & wg & Ea & Eg & Fa & Fg & Hfull & Hnot).
  destruct acc as [[ax ay] az], gyro as [[gx gy] gz]. cbn [fst snd] in Ea, Eg.
  destruct Hlevel as [La Lg].
  destruct (holds_addData _ _ ax ay az Ha) as (wa1 & Ea1 & Ha1);
    [destruct La as (-> & _ & -> & _); lia |].
  destruct (holds_addData _ _ gx gy gz Hg) as (wg1 & Eg1 & Hg1);
    [destruct Lg as (-> & _ & -> & _); lia |].
  rewrite Ea1 in Ea. injection Ea as ->.
  rewrite Eg1 in Eg. injection Eg as ->.
  assert (Hlen : (Z.to_nat L <= length (map fst past)
                  /\ Z.to_nat L <= length (map snd past))%nat)
    by (rewrite !length_map; lia).
  rewrite <- (lastn_snoc _ _ (ax, ay, az)) in Ha1 by apply Hlen.
  rewrite <- (lastn_snoc _ _ (gx, gy, gz)) in Hg1 by apply Hlen.
  change (map fst past ++ [(ax, ay, az)]) with
    (map fst past ++ map fst [((ax, ay, az), (gx, gy, gz))]) in Ha1.
  change (map snd past ++ [(gx, gy, gz)]) with
    (map snd past ++ map snd [((ax, ay, az), (gx, gy, gz))]) in Hg1.
  rewrite <- map_app in Ha1, Hg1. fold past' in Ha1, Hg1.
  replace (S (Z.to_nat L)) with (Z.to_nat (L + 1)) in Ha1, Hg1 by lia.
  subst L'.
  destruct (Z.eqb_spec (L + 1) C) as [E | E].
  - destruct (Hfull E)
      as (fa & fg & wa' & wg' & Xa & Xg & Sa & Sg & Fa' & Fg' & Hh).
    rewrite E in *.
    assert (Hsize : (Z.to_nat C <= length (map fst past')
                     /\ Z.to_nat C <= length (map snd past'))%nat).
    { unfold past'. rewrite !length_map, length_app. cbn [length]. lia. }
    assert (Hnea : lastn (Z.to_nat C) (map fst past') <> []).
    { intros Hnil. apply (f_equal (@length _)) in Hnil.
      rewrite length_lastn in Hnil by apply Hsize. cbn in Hnil. lia. }
    assert (Hneg : lastn (Z.to_nat C) (map snd past') <> []).
    { intros Hnil. apply (f_equal (@length _)) in Hnil.
      rewrite length_lastn in Hnil by apply Hsize. cbn in Hnil. lia. }
    rewrite (holds_extractFeatures _ _ Ha1 Hnea) in Xa. injection Xa as <-.
    rewrite (holds_extractFeatures _ _ Hg1 Hneg) in Xg. injection Xg as <-.
    destruct (holds_slide C V _ _ HV Fa Ha1) as (wa2 & Sa2 & Ha2).
    destruct (holds_slide C V _ _ HV Fg Hg1) as (wg2 & Sg2 & Hg2).
    rewrite Sa2 in Sa. injection Sa as ->.
    rewrite Sg2 in Sg. injection Sg as ->.
    replace (Z.to_nat (C - V)) with (Z.to_nat C - Z.to_nat V)%nat
      in Ha2, Hg2 by lia.
    rewrite skipn_lastn in Ha2 by (split; [lia | apply Hsize]).
    rewrite skipn_lastn in Hg2 by (split; [lia | apply Hsize]).
    eexists _, _. split; [exact Hh |]. split; [reflexivity |].
    split; [now split |]. now split.
  - eexists _, _. split; [exact (Hnot E) |]. split; [reflexivity |].
    split; [now split |]. now split.
Qed.

(** Any number of calls, with what the windows hold. *)
Lemma handleAll_recent (C V : Z) (inputs : list Input) :
  (1 <= C)%Z -> (0 <= V < C)%Z ->
  forall (past : list Input) (h : SensorDataHandler.t num),
    let L := levelAfter C V (length past) in
    level C V L h ->
    holds (SensorDataHandler.accWindow h)
          (lastn (Z.to_nat L) (map fst past)) ->
    holds (SensorDataHandler.gyroWindow h)
          (lastn (Z.to_nat L) (map snd past)) ->
    let h' := snd (handleAll inputs h) in
    let L' := levelAfter C V (length (past ++ inputs)) in
    level C V L' h'
    /\ holds (SensorDataHandler.accWindow h')
             (lastn (Z.to_nat L') (map fst (past ++ inputs)))
    /\ holds (SensorDataHandler.gyroWindow h')
             (lastn (Z.to_nat L') (map snd (past ++ inputs))).
Proof.
  intros HC HV.
  induction inputs as [| [acc gyro] rest IH]; intros past h L Hlevel Ha Hg.
  - cbn [handleAll snd]. rewrite app_nil_r.
    split; [exact Hlevel |]. split; [exact Ha | exact Hg].
  - cbn [handleAll].
    pose proof (levelAfter_bounds C V HV (length past)) as HL.
    pose proof (levelAfter_le C V (length past) HV) as Hle.
    destruct (handleData_recent C V L h past acc gyro HV HL Hle Hlevel Ha Hg)
      as (r & h1 & Hh & _ & Hlevel1 & Ha1 & Hg1).
    rewrite Hh.
    specialize (IH (past ++ [(acc, gyro)]) h1).
    rewrite length_app in IH. cbn [length] in IH.
    rewrite Nat.add_1_r, (levelAfter_succ C V HV (length past)) in IH.
    specialize (IH Hlevel1 Ha1 Hg1).
    rewrite <- app_assoc in IH. cbn [app] in IH.
    destruct (handleAll rest h1) as [rs h2]. exact IH.
Qed.

(** X5. From a fresh handler of capacity [C >= 1] and overlap
    [0 <= V < C], after any number of calls each window holds the most
    recent samples it was given, oldest first, as many as its level says;
    and a summary that the next call returns is computed, axis by axis,
    over exactly the [C] most recent samples, that call's sample being the
    last. *)
Theorem summary_covers_latest_window
  (C V : Z) (inputs : list Input) (acc gyro : num * num * num) :
  (1 <= C)%Z -> (0 <= V < C)%Z ->
  let h := snd (handleAll inputs (SensorDataHandler.new C (Some V))) in
  let L := Z.to_nat (levelAfter C V (length inputs)) in
  holds (SensorDataHandler.accWindow h) (lastn L (map fst inputs))
  /\ holds (SensorDataHandler.gyroWindow h) (lastn L (map snd inputs))
  /\ (forall summary h',
        SensorDataHandler.handleData acc gyro h = (Normal (Some summary), h') ->
        summary
        = SensorDataHandler.mkSummary
            (featuresOver
               (lastn (Z.to_nat C) (map fst (inputs ++ [(acc, gyro)]))))
            (featuresOver
               (lastn (Z.to_nat C) (map snd (inputs ++ [(acc, gyro)]))))).
Proof.
  intros HC HV h L.
  assert (Hnew : level C V (levelAfter C V (length (@nil (@Input num))))
                   (SensorDataHandler.new (num := num) C (Some V))).
  { change (levelAfter C V (length (@nil (@Input num))))
      with (if (0 <? C)%Z then 0%Z else (V + (0 - C) mod (C - V))%Z).
    destruct (Z.ltb_spec 0 C); [apply new_level | lia]. }
  destruct (handleAll_recent C V inputs HC HV [] _ Hnew)
    as (Hlevel & Ha & Hg).
  { change (levelAfter C V (length (@nil (@Input num))))
      with (if (0 <? C)%Z then 0%Z else (V + (0 - C) mod (C - V))%Z).
    destruct (Z.ltb_spec 0 C); [| lia]. now repeat split. }
  { change (levelAfter C V (length (@nil (@Input num))))
      with (if (0 <? C)%Z then 0%Z else (V + (0 - C) mod (C - V))%Z).
    destruct (Z.ltb_spec 0 C); [| lia]. now repeat split. }
  cbn [app] in Hlevel, Ha, Hg. fold h in Hlevel, Ha, Hg.
  split; [exact Ha |]. split; [exact Hg |].
  intros summary h' Hcall.
  pose proof (levelAfter_bounds C V HV (length inputs)) as HL.
  pose proof (levelAfter_le C V (length inputs) HV) as Hle.
  destruct (handleData_recent C V _ h inputs acc gyro HV HL Hle Hlevel Ha Hg)
    as (r & h1 & Hh & Hr & _).
  rewrite Hh in Hcall. injection Hcall as Hsome _.
  rewrite Hr in Hsome.
  destruct (levelAfter C V (length inputs) + 1 =? C)%Z;
    [now injection Hsome | discriminate Hsome].
Qed.

End RecentSamples.

(* ------------------------------------------------------------------ *)
(** ** More on the features of an axis *)

Section MeanAndSampleRange.
Import Binary64.

(** The comparisons order integers below [2^53] in magnitude as the
    integers are ordered. *)
Lemma Pos_compare_shift (a b k : positive) :
  Pos.compare (Pos.iter xO a k) (Pos.iter xO b k) = Pos.compare a b.
Proof.
  induction k as [| k IH] using Pos.peano_ind.
  - reflexivity.
  - rewrite !Pos.iter_succ. cbn [Pos.compare Pos.compare_cont]. exact IH.
Qed.

Lemma normal_compare (ma mb : positive) :
  (Zpos ma < 2 ^ 53)%Z -> (Zpos mb < 2 ^ 53)%Z ->
  SFcompare (normal false ma) (normal false mb) = Some (Pos.compare ma mb).
Proof.
  intros Ha Hb.
  assert (Hda : (Zpos (digits2_pos ma) <= 53)%Z)
    by (apply digits2_pos_le; lia).
  assert (Hdb : (Zpos (digits2_pos mb) <= 53)%Z)
    by (apply digits2_pos_le; lia).
  pose proof (digits2_pos_gt ma) as Hgta.
  pose proof (digits2_pos_gt mb) as Hgtb.
  pose proof (digits2_pos_ge ma) as Hgea.
  pose proof (digits2_pos_ge mb) as Hgeb.
  unfold normal.
  destruct (prec - Zpos (digits2_pos ma))%Z as [| ka | ka] eqn:Ea;
    destruct (prec - Zpos (digits2_pos mb))%Z as [| kb | kb] eqn:Eb;
    unfold prec in Ea, Eb; try lia; cbn [SFcompare]; f_equal;
    change (Pos.compare_cont Eq) with Pos.compare.
  - (* [mb] has fewer bits *)
    destruct (Z.compare_spec 0 (- Zpos kb)); try lia.
    symmetry. apply Pos.compare_gt_iff.
    assert (2 ^ Zpos (digits2_pos mb) <= 2 ^ (Zpos (digits2_pos ma) - 1))%Z
      by (apply Z.pow_le_mono_r; lia).
    lia.
  - destruct (Z.compare_spec (- Zpos ka) 0); try lia.
    symmetry. apply Pos.compare_lt_iff.
    assert (2 ^ Zpos (digits2_pos ma) <= 2 ^ (Zpos (digits2_pos mb) - 1))%Z
      by (apply Z.pow_le_mono_r; lia).
    lia.
  - destruct (Z.compare_spec (- Zpos ka) (- Zpos kb)) as [E | E | E].
    + assert (ka = kb) by lia. subst kb. apply Pos_compare_shift.
    + symmetry. apply Pos.compare_lt_iff.
      assert (2 ^ Zpos (digits2_pos ma) <= 2 ^ (Zpos (digits2_pos mb) - 1))%Z
        by (apply Z.pow_le_mono_r; lia).
      lia.
    + symmetry. apply Pos.compare_gt_iff.
      assert (2 ^ Zpos (digits2_pos mb) <= 2 ^ (Zpos (digits2_pos ma) - 1))%Z
        by (apply Z.pow_le_mono_r; lia).
      lia.
Qed.

Lemma normal_sign (s : bool) (m : positive) :
  exists M e, normal s m = S754_finite s M e.
Proof.
  unfold normal. destruct (prec - Zpos (digits2_pos m))%Z; eauto.
Qed.

Lemma normal_opp (s : bool) (m : positive) :
  normal (negb s) m = SFopp (normal s m).
Proof.
  unfold normal. now destruct (prec - Zpos (digits2_pos m))%Z.
Qed.

Lemma spec_of_Z_compare (a b : Z) :
  (Z.abs a < 2 ^ 53)%Z -> (Z.abs b < 2 ^ 53)%Z ->
  SFcompare (spec_of_Z a) (spec_of_Z b) = Some (a ?= b)%Z.
Proof.
  intros Ha Hb.
  destruct a as [| ma | ma], b as [| mb | mb];
    try change (spec_of_Z 0) with (S754_zero false);
    try change (Z.pos ma) with (cond_Zopp false (Z.pos ma)) at 1;
    try change (Z.neg ma) with (cond_Zopp true (Z.pos ma)) at 1;
    try change (Z.pos mb) with (cond_Zopp false (Z.pos mb)) at 1;
    try change (Z.neg mb) with (cond_Zopp true (Z.pos mb)) at 1;
    rewrite ?spec_of_Z_signed by (cbn in *; lia);
    try reflexivity.
  all: try (destruct (normal_sign false ma) as (Ma & ea & Ea));
    try (destruct (normal_sign true ma) as (Ma' & ea' & Ea'));
    try (destruct (normal_sign false mb) as (Mb & eb & Eb));
    try (destruct (normal_sign true mb) as (Mb' & eb' & Eb')).
  all: try (rewrite ?Ea, ?Ea', ?Eb, ?Eb'; reflexivity).
  - now apply normal_compare.
  - change true with (negb false). rewrite !normal_opp.
    destruct (normal_sign false ma) as (Ma0 & ea0 & Ea0).
    destruct (normal_sign false mb) as (Mb0 & eb0 & Eb0).
    pose proof (normal_compare ma mb ltac:(cbn in *; lia)
                  ltac:(cbn in *; lia)) as Hcmp.
    rewrite Ea0, Eb0 in *. cbn [SFopp negb SFcompare] in *.
    injection Hcmp as Hcmp. f_equal.
    cbn [Z.compare]. rewrite <- Hcmp.
    destruct (ea0 ?= eb0)%Z; reflexivity.
Qed.

Lemma binary64_leb_integers (a b : Z) :
  (Z.abs a < 2 ^ 53)%Z -> (Z.abs b < 2 ^ 53)%Z ->
  PrimFloat.leb (of_Z a) (of_Z b) = (a <=? b)%Z.
Proof.
  intros Ha Hb.
  rewrite FloatAxioms.leb_spec, !Prim2SF_of_Z by assumption.
  unfold SFleb. rewrite spec_of_Z_compare by assumption.
  unfold Z.leb. now destruct (a ?= b)%Z.
Qed.


Lemma binary64_integer_not_nan (z : Z) :
  (Z.abs z < 2 ^ 53)%Z -> PrimFloat.is_nan (of_Z z) = false.
Proof.
  intros Hz. apply binary64_not_nan. rewrite Prim2SF_of_Z by assumption.
  destruct (signed_cases z) as [-> | (s & m & ->)]; [discriminate |].
  rewrite cond_Zopp_abs in Hz. rewrite spec_of_Z_signed by assumption.
  destruct (normal_sign s m) as (M & e & ->). discriminate.
Qed.

Lemma Z_sum_lower (lo : Z) (ks : list Z) :
  (forall k, In k ks -> (lo <= k)%Z) ->
  (Z.of_nat (length ks) * lo <= Z_sum ks)%Z.
Proof.
  induction ks as [| k ks IH]; intros Hks.
  - cbn. lia.
  - assert (Hk : (lo <= k)%Z) by (apply Hks; now left).
    assert (IH' : (Z.of_nat (length ks) * lo <= Z_sum ks)%Z)
      by (apply IH; intros k' Hk'; apply Hks; now right).
    cbn [Z_sum fold_right length]. fold (Z_sum ks).
    rewrite Nat2Z.inj_succ. lia.
Qed.

Lemma Z_sum_upper (hi : Z) (ks : list Z) :
  (forall k, In k ks -> (k <= hi)%Z) ->
  (Z_sum ks <= Z.of_nat (length ks) * hi)%Z.
Proof.
  induction ks as [| k ks IH]; intros Hks.
  - cbn. lia.
  - assert (Hk : (k <= hi)%Z) by (apply Hks; now left).
    assert (IH' : (Z_sum ks <= Z.of_nat (length ks) * hi)%Z)
      by (apply IH; intros k' Hk'; apply Hks; now right).
    cbn [Z_sum fold_right length]. fold (Z_sum ks).
    rewrite Nat2Z.inj_succ. lia.
Qed.

(** X10. In binary64 the three features of an axis are ordered in part
    only.  On samples none of which is NaN, [min] and [max] are not NaN and
    [min <= max].  On integer samples of magnitude at most [B], [n] of them
    with [n * B < 2^53], whose average is an integer, [mean] lies between
    [min] and [max].  In general it does not: on the samples 0.1, 0.1, 0.1,
    [min] and [max] are 0.1 and [mean] is above [max]; on their negations
    [mean] is below [min]; on the finite samples 1e308, 1e308, -1e308,
    [mean] is [+Infinity]. *)
Theorem mean_and_sample_range :
  (forall (v : float) (vs : list float),
     comparable (v :: vs) ->
     let f := Window.getAxisFeatures (v :: vs) in
     PrimFloat.is_nan (Window.min f) = false
     /\ PrimFloat.is_nan (Window.max f) = false
     /\ PrimFloat.leb (Window.min f) (Window.max f) = true)
  /\ (forall (B : Z) (ks : list Z) (avg : Z),
        ks <> [] ->
        (forall k, In k ks -> (Z.abs k <= B)%Z) ->
        (Z.of_nat (length ks) * B < 2 ^ 53)%Z ->
        (Z.of_nat (length ks) < 2 ^ 53)%Z ->
        Z_sum ks = (avg * Z.of_nat (length ks))%Z ->
        let f := Window.getAxisFeatures (integers ks) in
        PrimFloat.leb (Window.min f) (Window.mean f) = true
        /\ PrimFloat.leb (Window.mean f) (Window.max f) = true)
  /\ (let f := Window.getAxisFeatures
                 [0x1.999999999999ap-4; 0x1.999999999999ap-4;
                  0x1.999999999999ap-4]%float in
      Window.min f = 0x1.999999999999ap-4%float
      /\ Window.max f = 0x1.999999999999ap-4%float
      /\ PrimFloat.ltb (Window.max f) (Window.mean f) = true)
  /\ (let f := Window.getAxisFeatures
                 [(- 0x1.999999999999ap-4); (- 0x1.999999999999ap-4);
                  (- 0x1.999999999999ap-4)]%float in
      Window.min f = (- 0x1.999999999999ap-4)%float
      /\ PrimFloat.ltb (Window.mean f) (Window.min f) = true)
  /\ (let f := Window.getAxisFeatures
                 [0x1.1ccf385ebc8ap+1023; 0x1.1ccf385ebc8ap+1023;
                  (- 0x1.1ccf385ebc8ap+1023)]%float in
      Window.min f = (- 0x1.1ccf385ebc8ap+1023)%float
      /\ Window.max f = 0x1.1ccf385ebc8ap+1023%float
      /\ Window.mean f = PrimFloat.infinity).
Proof.
  split; [| split; [| split; [| split]]];
    [| | cbn zeta; repeat split; vm_compute; reflexivity ..].
  - intros v vs Hvs f.
    destruct (binary64_min_of v vs Hvs) as (Hmin_in & Hmin).
    destruct (binary64_max_of v vs Hvs) as (Hmax_in & Hmax).
    split; [now apply Hvs |]. split; [now apply Hvs |].
    now apply Hmin.
  - intros B ks avg Hne Hks HB Hn Havg f.
    destruct ks as [| k0 ks0]; [congruence |].
    set (ks := k0 :: ks0) in *.
    assert (Hlen : (0 < Z.of_nat (length ks))%Z) by (cbn [ks length]; lia).
    assert (Hsmall : forall k, In k ks -> (Z.abs k < 2 ^ 53)%Z)
      by (intros k Hk; specialize (Hks k Hk); nia).
    pose proof (Z_sum_bound B ks Hks) as Hsum.
    assert (Havg_small : (Z.abs avg < 2 ^ 53)%Z)
      by (rewrite Havg in Hsum; nia).
    assert (Hcomparable : comparable (of_Z k0 :: integers ks0)).
    { intros v Hv. change (of_Z k0 :: integers ks0) with (integers ks) in Hv.
      apply in_map_iff in Hv. destruct Hv as (k & <- & Hk).
      now apply binary64_integer_not_nan, Hsmall. }
    destruct (binary64_mean_integers B ks Hne Hks HB Hn) as (_ & Hmean).
    specialize (Hmean avg Havg).
    destruct (binary64_min_of _ _ Hcomparable) as (Hmin_in & Hmin).
    destruct (binary64_max_of _ _ Hcomparable) as (Hmax_in & Hmax).
    change (of_Z k0 :: integers ks0) with (integers ks) in *.
    change (min_of (integers ks)) with (Window.min f) in *.
    change (max_of (integers ks)) with (Window.max f) in *.
    fold f in Hmean. rewrite Hmean.
    apply in_map_iff in Hmin_in, Hmax_in.
    destruct Hmin_in as (lo & Hlo & Hlo_in), Hmax_in as (hi & Hhi & Hhi_in).
    rewrite <- Hlo, <- Hhi in *.
    rewrite !binary64_leb_integers by auto.
    assert (Hlower : (Z.of_nat (length ks) * lo <= Z_sum ks)%Z).
    { apply Z_sum_lower. intros k Hk. apply Z.leb_le.
      rewrite <- binary64_leb_integers by auto.
      apply Hmin. unfold integers. now apply in_map. }
    assert (Hupper : (Z_sum ks <= Z.of_nat (length ks) * hi)%Z).
    { apply Z_sum_upper. intros k Hk. apply Z.leb_le.
      rewrite <- binary64_leb_integers by auto.
      apply Hmax. unfold integers. now apply in_map. }
    split; apply Z.leb_le; nia.
Qed.

End MeanAndSampleRange.

Section NaNSamples.

Lemma binary64_add_nan_r (v : float) :
  PrimFloat.add v PrimFloat.nan = PrimFloat.nan.
Proof.
  rewrite <- (FloatAxioms.SF2Prim_Prim2SF (PrimFloat.add v PrimFloat.nan)).
  rewrite FloatAxioms.add_spec.
  change (Prim2SF PrimFloat.nan) with S754_nan.
  unfold SF64add, SFadd. now destruct (Prim2SF v).
Qed.

Lemma binary64_add_nan_l (v : float) :
  PrimFloat.add PrimFloat.nan v = PrimFloat.nan.
Proof.
  rewrite <- (FloatAxioms.SF2Prim_Prim2SF (PrimFloat.add PrimFloat.nan v)).
  rewrite FloatAxioms.add_spec.
  change (Prim2SF PrimFloat.nan) with S754_nan.
  reflexivity.
Qed.

Lemma binary64_div_nan_l (v : float) :
  PrimFloat.div PrimFloat.nan v = PrimFloat.nan.
Proof.
  rewrite <- (FloatAxioms.SF2Prim_Prim2SF (PrimFloat.div PrimFloat.nan v)).
  rewrite FloatAxioms.div_spec.
  change (Prim2SF PrimFloat.nan) with S754_nan.
  reflexivity.
Qed.

(** Once NaN is reached, a fold stays at NaN; and it reaches NaN at the
    first NaN element. *)
Lemma fold_left_absorbing {A} (f : A -> A -> A) (bad : A) :
  (forall a, f bad a = bad) -> (forall a, f a bad = bad) ->
  forall (l : list A) (start : A), In bad l -> fold_left f l start = bad.
Proof.
  intros Hl Hr.
  assert (Hstay : forall l, fold_left f l bad = bad).
  { induction l as [| a l IH]; [reflexivity |]. cbn. now rewrite Hl. }
  induction l as [| a l IH]; intros start Hin; [contradiction |].
  cbn. destruct Hin as [-> | Hin].
  - now rewrite Hr.
  - now apply IH.
Qed.

(** X11. One NaN sample on an axis makes the three features of that axis
    NaN, in binary64 and in exact arithmetic. *)
Theorem nan_sample_spoils_features :
  (forall axisData : list float,
     In PrimFloat.nan axisData ->
     Window.getAxisFeatures axisData
     = Window.mkAxis PrimFloat.nan PrimFloat.nan PrimFloat.nan)
  /\ (forall axisData : list Exact.xnum,
        In Exact.XNaN axisData ->
        Window.getAxisFeatures axisData
        = Window.mkAxis Exact.XNaN Exact.XNaN Exact.XNaN).
Proof.
  split; intros axisData Hin; unfold Window.getAxisFeatures, Window.sum_loop;
    cbn [num_add num_div num_of_Z Math_min Math_max
         Binary64.number Exact.number].
  - rewrite (fold_left_absorbing PrimFloat.add PrimFloat.nan
               binary64_add_nan_l binary64_add_nan_r _ _ Hin).
    rewrite binary64_div_nan_l.
    unfold Binary64.min_of, Binary64.max_of.
    rewrite (fold_left_absorbing Binary64.min2 PrimFloat.nan); trivial;
      try (intros a; unfold Binary64.min2;
           change (PrimFloat.is_nan PrimFloat.nan) with true;
           now rewrite ?orb_true_r).
    rewrite (fold_left_absorbing Binary64.max2 PrimFloat.nan); trivial;
      try (intros a; unfold Binary64.max2;
           change (PrimFloat.is_nan PrimFloat.nan) with true;
           now rewrite ?orb_true_r).
  - rewrite (fold_left_absorbing Exact.add Exact.XNaN); trivial;
      try (now intros [? | | |]).
    unfold Exact.min_of, Exact.max_of.
    rewrite (fold_left_absorbing Exact.min2 Exact.XNaN); trivial;
      try (now intros [? | | |]).
    rewrite (fold_left_absorbing Exact.max2 Exact.XNaN); trivial;
      try (now intros [? | | |]).
Qed.

End NaNSamples.

(* ------------------------------------------------------------------ *)
(** ** The page: animations *)

Section PageProperties.
Context {num : Type} `{Number num} `{Multiplication num}.
Import Page.

Lemma getElementById_change (id id2 : string) (f : Element num -> Element num)
  (doc : list (string * Element num)) :
  getElementById id2 (change id f doc)
  = if (id =? id2)%string then option_map f (getElementById id2 doc)
    else getElementById id2 doc.
Proof.
  induction doc as [| [id' e] doc IH]; cbn [change getElementById].
  - now destruct (id =? id2)%string.
  - destruct (String.eqb_spec id' id) as [-> | Hne]; cbn [getElementById].
    + destruct (String.eqb_spec id id2) as [-> | Hne2]; [reflexivity |].
      reflexivity.
    + destruct (String.eqb_spec id' id2) as [-> | Hne2].
      * destruct (String.eqb_spec id id2) as [-> | _];
          [now contradiction Hne | reflexivity].
      * exact IH.
Qed.

Lemma onElement_found (id : string) (f : Element num -> Element num)
  (p : Page.t num) :
  getElementById id (document p) <> None ->
  onElement id f p
  = (Done tt, mk (isAnimationPlaying p) (change id f (document p))).
Proof.
  intros Hfound. unfold onElement.
  now destruct (getElementById id (document p)).
Qed.

Lemma onElement_missing (id : string) (f : Element num -> Element num)
  (p : Page.t num) :
  getElementById id (document p) = None ->
  onElement id f p = (Threw TypeError, p).
Proof.
  intros Hnone. unfold onElement. now rewrite Hnone.
Qed.

Lemma found_after_change (id id2 : string) (f : Element num -> Element num)
  (doc : list (string * Element num)) :
  getElementById id2 doc <> None ->
  getElementById id2 (change id f doc) <> None.
Proof.
  intros Hfound. rewrite getElementById_change.
  destruct (id =? id2)%string; [| exact Hfound].
  now destruct (getElementById id2 doc).
Qed.

Lemma playAnimation_busy (modelID : string) (p : Page.t num) :
  isAnimationPlaying p = true ->
  modelID <> "idle_model"%string ->
  playAnimation modelID p = (Done tt, p).
Proof.
  intros Hbusy Hm. unfold playAnimation. rewrite Hbusy.
  apply String.eqb_neq in Hm. now rewrite Hm.
Qed.

Lemma predictionReceived_busy (prediction : string) (p : Page.t num) :
  isAnimationPlaying p = true ->
  predictionReceived prediction p = (Done tt, p).
Proof.
  intros Hbusy. unfold predictionReceived.
  repeat match goal with
         | |- context [if (prediction =? ?label)%string then _ else _] =>
             destruct (prediction =? label)%string
         end;
    try (apply playAnimation_busy; [exact Hbusy | discriminate]).
  reflexivity.
Qed.

(** X12. While an animation is playing, [playAnimation] of any model but
    the idle model does nothing, and so a prediction that arrives, whatever
    it is, changes nothing on the page.  A prediction that is none of the
    five gestures changes nothing at any time. *)
Theorem predictions_dropped_while_playing (p : Page.t num) :
  (isAnimationPlaying p = true ->
   (forall modelID,
      modelID <> "idle_model"%string ->
      playAnimation modelID p = (Done tt, p))
   /\ (forall prediction, predictionReceived prediction p = (Done tt, p)))
  /\ (forall prediction,
        ~ In prediction ["Left Slip"; "Right Slip"; "Left Roll";
                         "Right Roll"; "Pull Back"]%string ->
        predictionReceived prediction p = (Done tt, p)).
Proof.
  split.
  - intros Hbusy. split; [intros modelID; now apply playAnimation_busy |].
    intros prediction. now apply predictionReceived_busy.
  - intros prediction Hother. unfold predictionReceived.
    repeat match goal with
           | |- context [if (prediction =? ?label)%string then _ else _] =>
               destruct (String.eqb_spec prediction label) as [-> | _]
           end;
      try (contradiction Hother; cbn; tauto).
    reflexivity.
Qed.

(** [playAnimation] when nothing is playing and the elements exist. *)
Lemma playAnimation_starts (modelID : string) (p : Page.t num) :
  isAnimationPlaying p = false ->
  getElementById "idle_model" (document p) <> None ->
  getElementById "idle_model_indicator" (document p) <> None ->
  getElementById modelID (document p) <> None ->
  getElementById (modelID ++ "_indicator") (document p) <> None ->
  playAnimation modelID p
  = (Done tt,
     mk true
        (change modelID (addFinishedListener modelID)
        (change modelID (play 1)
        (change modelID (set_currentTime 0)
        (change (modelID ++ "_indicator") (set_style_opacity "100%")
        (change modelID (set_style_height "30vh")
        (change "idle_model_indicator" (set_style_opacity "30%")
        (change "idle_model" (set_style_height "0") (document p))))))))).
Proof.
  intros Hidle H1 H2 H3 H4. unfold playAnimation. rewrite Hidle.
  cbn [andb]. unfold andThen, assignPlaying, set_isAnimationPlaying.
  repeat (rewrite onElement_found;
          [cbn [document isAnimationPlaying]
          | cbn [document]; repeat apply found_after_change; assumption]).
  reflexivity.
Qed.

Lemma switchBackToIdle_runs (modelID : string) (p : Page.t num) :
  getElementById "idle_model" (document p) <> None ->
  getElementById "idle_model_indicator" (document p) <> None ->
  getElementById modelID (document p) <> None ->
  getElementById (modelID ++ "_indicator") (document p) <> None ->
  switchBackToIdle modelID p
  = (Done tt,
     mk false
        (change "idle_model_indicator" (set_style_opacity "100%")
        (change "idle_model" (set_style_height "30vh")
        (change (modelID ++ "_indicator") (set_style_opacity "30%")
        (change modelID (set_style_height "0") (document p)))))).
Proof.
  intros H1 H2 H3 H4. unfold switchBackToIdle, andThen.
  repeat (rewrite onElement_found;
          [cbn [document isAnimationPlaying]
          | cbn [document]; repeat apply found_after_change; assumption]).
  reflexivity.
Qed.

Lemma string_length_append (s1 s2 : string) :
  String.length (s1 ++ s2) = (String.length s1 + String.length s2)%nat.
Proof.
  induction s1 as [| a s1 IH]; [reflexivity |]. cbn. now rewrite IH.
Qed.

Lemma string_append_inv_tail (s1 s2 t : string) :
  (s1 ++ t)%string = (s2 ++ t)%string -> s1 = s2.
Proof.
  revert s2. induction s1 as [| a s1 IH]; intros [| b s2] E.
  - reflexivity.
  - apply (f_equal String.length) in E. cbn in E.
    rewrite string_length_append in E. lia.
  - apply (f_equal String.length) in E. cbn in E.
    rewrite string_length_append in E. lia.
  - cbn in E. injection E as -> E. f_equal. now apply IH.
Qed.

(** The indicator of a model is another element than the model, the idle
    model and, unless the model is the idle model, its indicator. *)
Lemma indicator_ids (modelID : string) :
  modelID <> "idle_model"%string ->
  (modelID ++ "_indicator")%string <> modelID
  /\ (modelID ++ "_indicator")%string <> "idle_model"%string
  /\ (modelID ++ "_indicator")%string <> "idle_model_indicator"%string.
Proof.
  intros Hm. repeat split; intros E.
  - apply (f_equal String.length) in E.
    rewrite string_length_append in E. cbn in E. lia.
  - destruct modelID as [| a modelID]; [discriminate E |].
    apply (f_equal String.length) in E. cbn in E.
    rewrite string_length_append in E. cbn in E. lia.
  - apply Hm. now apply string_append_inv_tail with "_indicator"%string.
Qed.

(** X13. When nothing is playing and the idle model, the model and their
    two indicators are in the document, [playAnimation] of a model (other
    than the idle model and its indicator) hides the idle model, shows the
    model, swaps the opacities of the two indicators, restarts the model
    with one repetition and registers one listener; [switchBackToIdle] of
    that model then undoes the display: the model is hidden, the idle model
    shown, the opacities swapped back, and animations are accepted
    again. *)
Theorem animation_plays_then_returns_to_idle
  (modelID : string) (p : Page.t num) (model : Element num) :
  isAnimationPlaying p = false ->
  modelID <> "idle_model"%string ->
  modelID <> "idle_model_indicator"%string ->
  getElementById "idle_model" (document p) <> None ->
  getElementById "idle_model_indicator" (document p) <> None ->
  getElementById modelID (document p) = Some model ->
  getElementById (modelID ++ "_indicator") (document p) <> None ->
  exists playing idle,
    playAnimation modelID p = (Done tt, playing)
    /\ isAnimationPlaying playing = true
    /\ heightOf "idle_model" playing = Some "0"%string
    /\ heightOf modelID playing = Some "30vh"%string
    /\ opacityOf "idle_model_indicator" playing = Some "30%"%string
    /\ opacityOf (modelID ++ "_indicator") playing = Some "100%"%string
    /\ option_map currentTime (getElementById modelID (document playing))
       = Some 0%Z
    /\ option_map plays (getElementById modelID (document playing))
       = Some (1%Z :: plays model)
    /\ option_map finishedListeners
                  (getElementById modelID (document playing))
       = Some (modelID :: finishedListeners model)
    /\ switchBackToIdle modelID playing = (Done tt, idle)
    /\ isAnimationPlaying idle = false
    /\ heightOf "idle_model" idle = Some "30vh"%string
    /\ heightOf modelID idle = Some "0"%string
    /\ opacityOf "idle_model_indicator" idle = Some "100%"%string
    /\ opacityOf (modelID ++ "_indicator") idle = Some "30%"%string.
Proof.
  intros Hidle Hm Hm2 F1 F2 F3 F4.
  destruct (indicator_ids modelID Hm) as (Hi1 & Hi2 & Hi3).
  assert (Hc : "idle_model"%string <> "idle_model_indicator"%string)
    by discriminate.
  assert (F3' : getElementById modelID (document p) <> None)
    by (rewrite F3; discriminate).
  pose proof (playAnimation_starts modelID p Hidle F1 F2 F3' F4) as Hplay.
  match type of Hplay with _ = (_, ?q) => set (playing := q) in * end.
  assert (Hrun : switchBackToIdle modelID playing
                 = (Done tt,
                    mk false
                       (change "idle_model_indicator"
                               (set_style_opacity "100%")
                       (change "idle_model" (set_style_height "30vh")
                       (change (modelID ++ "_indicator")
                               (set_style_opacity "30%")
                       (change modelID (set_style_height "0")
                               (document playing))))))).
  { apply switchBackToIdle_runs; subst playing; cbn [document];
      repeat apply found_after_change; assumption. }
  eexists playing, _.
  split; [exact Hplay |].
  split; [reflexivity |].
  destruct (getElementById "idle_model" (document p)) as [e1 |] eqn:G1;
    [| now contradiction F1].
  destruct (getElementById "idle_model_indicator" (document p))
    as [e2 |] eqn:G2; [| now contradiction F2].
  destruct (getElementById (modelID ++ "_indicator") (document p))
    as [e4 |] eqn:G4; [| now contradiction F4].
  rewrite Hrun. clear Hrun Hplay.
  unfold heightOf, opacityOf. subst playing.
  cbn [document isAnimationPlaying].
  repeat split; try reflexivity; cbn [document];
    rewrite ?getElementById_change; compare_ids;
    rewrite ?G1, ?G2, ?F3, ?G4; cbn [option_map];
    try (now destruct e1); try (now destruct e2); try (now destruct e4);
    now destruct model.
Qed.

(** X14. When nothing is playing and the idle model and its indicator are
    in the document but the model is not, [playAnimation] throws a
    [TypeError] after it has set [isAnimationPlaying] and hidden the idle
    model; no listener has been registered, and from then on every
    prediction that arrives is dropped. *)
Theorem missing_model_blocks_animations
  (modelID : string) (p : Page.t num) :
  isAnimationPlaying p = false ->
  getElementById "idle_model" (document p) <> None ->
  getElementById "idle_model_indicator" (document p) <> None ->
  getElementById modelID (document p) = None ->
  exists stuck,
    playAnimation modelID p = (Threw TypeError, stuck)
    /\ isAnimationPlaying stuck = true
    /\ heightOf "idle_model" stuck = Some "0"%string
    /\ (forall id,
          option_map finishedListeners (getElementById id (document stuck))
          = option_map finishedListeners (getElementById id (document p)))
    /\ (forall prediction, predictionReceived prediction stuck = (Done tt, stuck)).
Proof.
  intros Hidle F1 F2 Hmissing.
  assert (Hc : "idle_model"%string <> "idle_model_indicator"%string)
    by discriminate.
  eexists. split.
  - unfold playAnimation. rewrite Hidle. cbn [andb].
    unfold andThen, assignPlaying, set_isAnimationPlaying.
    repeat (rewrite onElement_found;
            [cbn [document isAnimationPlaying]
            | cbn [document]; repeat apply found_after_change; assumption]).
    rewrite onElement_missing; [reflexivity |].
    cbn [document]. rewrite !getElementById_change, Hmissing.
    now repeat match goal with
               | |- context [if ?b then _ else _] => destruct b
               end.
  - split; [reflexivity |].
    split.
    { unfold heightOf. cbn [document].
      rewrite !getElementById_change. compare_ids.
      destruct (getElementById "idle_model" (document p)) as [e |];
        [now destruct e | now contradiction F1]. }
    split.
    { intros id. cbn [document]. rewrite !getElementById_change.
      destruct (getElementById id (document p)) as [e |];
        repeat match goal with
               | |- context [if ?b then _ else _] => destruct b
               end; cbn [option_map]; try reflexivity; now destruct e. }
    intros prediction. now apply predictionReceived_busy.
Qed.

End PageProperties.

(* ------------------------------------------------------------------ *)
(** ** The page: the progress bar *)

(** *** Binary64: rounding, and the percentage of the progress bar *)

Section Binary64Rounding.
Import Binary64.

(** One step of the right shift halves the mantissa. *)
Lemma shr_m_shr_1 (r : shr_record) :
  (0 <= shr_m r)%Z -> shr_m (shr_1 r) = (shr_m r / 2)%Z.
Proof.
  destruct r as [m rb sb]. cbn [shr_m]. intros Hm.
  destruct m as [| [p | p |] |]; cbn [shr_1 shr_m]; try lia.
  - reflexivity.
  - rewrite Pos2Z.inj_xI. apply Z.div_unique with 1%Z; lia.
  - rewrite Pos2Z.inj_xO. apply Z.div_unique with 0%Z; lia.
  - reflexivity.
Qed.

Lemma shr_m_iter (n : positive) (r : shr_record) :
  (0 <= shr_m r)%Z ->
  shr_m (iter_pos shr_1 n r) = (shr_m r / 2 ^ Zpos n)%Z.
Proof.
  revert r. induction n as [n IH | n IH |]; intros r Hr; cbn [iter_pos].
  - assert (H1 : (0 <= shr_m (shr_1 r))%Z)
      by (rewrite shr_m_shr_1 by assumption; apply Z.div_pos; lia).
    assert (H2 : (0 <= shr_m (iter_pos shr_1 n (shr_1 r)))%Z)
      by (rewrite IH by assumption; apply Z.div_pos; lia).
    rewrite !IH, shr_m_shr_1 by assumption.
    rewrite !Z.div_div by lia.
    f_equal.
    replace (Z.pos n~1) with (1 + Z.pos n + Z.pos n)%Z by lia.
    rewrite !Z.pow_add_r by lia. change (2 ^ 1)%Z with 2%Z. ring.
  - assert (H2 : (0 <= shr_m (iter_pos shr_1 n r))%Z)
      by (rewrite IH by assumption; apply Z.div_pos; lia).
    rewrite !IH by assumption.
    rewrite !Z.div_div by lia.
    f_equal.
    replace (Z.pos n~0) with (Z.pos n + Z.pos n)%Z by lia.
    now rewrite Z.pow_add_r by lia.
  - rewrite shr_m_shr_1 by assumption. reflexivity.
Qed.

Lemma shr_m_of_loc (m : Z) (loc : location) :
  shr_m (shr_record_of_loc m loc) = m.
Proof. now destruct loc as [| []]. Qed.

Lemma round_nearest_even_bounds (x : Z) (loc : location) :
  (x <= round_nearest_even x loc <= x + 1)%Z.
Proof.
  unfold round_nearest_even.
  destruct loc as [| []]; try destruct (Z.even x); lia.
Qed.

Lemma digits2_pos_unique (m : positive) (k : Z) :
  (2 ^ (k - 1) <= Zpos m < 2 ^ k)%Z -> Zpos (digits2_pos m) = k.
Proof.
  intros (Hlow & Hhigh).
  assert (Hk : (0 <= k)%Z).
  { destruct (Z.le_gt_cases 0 k) as [| Hneg]; [assumption |].
    rewrite (Z.pow_neg_r 2 k) in Hhigh by assumption. lia. }
  pose proof (digits2_pos_le m k Hk Hhigh) as Hle.
  pose proof (digits2_pos_gt m) as Hgt.
  assert (Hlt : (k - 1 < Zpos (digits2_pos m))%Z).
  { apply (Z.pow_lt_mono_r_iff 2); lia. }
  lia.
Qed.

(** Rounding a mantissa of [53 + n] bits: the [n] low bits are shifted out
    and the mantissa goes up by at most one; when that gives [2^53], one
    more bit is shifted out. *)
Lemma binary_round_aux_bounds (m : positive) (e n : Z) (loc : location) :
  Zpos (digits2_pos m) = (53 + n)%Z -> (0 <= n)%Z ->
  (-1021 <= 53 + n + e)%Z -> (e + n + 1 <= 971)%Z ->
  exists M E,
    binary_round_aux prec emax false (Zpos m) e loc = S754_finite false M E
    /\ Zpos (digits2_pos M) = 53%Z
    /\ ((E = (e + n)%Z
         /\ (Zpos m / 2 ^ n <= Zpos M <= Zpos m / 2 ^ n + 1)%Z)
        \/ (E = (e + n + 1)%Z /\ Zpos M = (2 ^ 52)%Z
            /\ (Zpos m / 2 ^ n = 2 ^ 53 - 1)%Z)).
Proof.
  intros Hd Hn Hlow Hhigh.
  pose proof (digits2_pos_gt m) as Hgt.
  pose proof (digits2_pos_ge m) as Hge.
  rewrite Hd in Hgt, Hge.
  assert (Hx : (2 ^ 52 <= Zpos m / 2 ^ n < 2 ^ 53)%Z).
  { replace (53 + n - 1)%Z with (52 + n)%Z in Hge by lia.
    rewrite Z.pow_add_r in Hgt, Hge by lia.
    assert (0 < 2 ^ n)%Z by (apply Z.pow_pos_nonneg; lia).
    split.
    - apply Z.div_le_lower_bound; lia.
    - apply Z.div_lt_upper_bound; lia. }
  unfold binary_round_aux, shr_fexp at 1. cbn [Zdigits2].
  rewrite Hd, fexp_small by lia.
  replace (53 + n + e - 53 - e)%Z with n by lia.
  set (first := shr (shr_record_of_loc (Zpos m) loc) e n).
  assert (Hfirst : shr_m (fst first) = (Zpos m / 2 ^ n)%Z
                   /\ snd first = (e + n)%Z).
  { unfold first, shr. destruct n as [| n | n]; try lia; cbn [fst snd].
    - rewrite shr_m_of_loc, Z.pow_0_r, Z.div_1_r. split; lia.
    - rewrite shr_m_iter by (rewrite shr_m_of_loc; lia).
      now rewrite shr_m_of_loc. }
  destruct first as (mrs, e1). cbn [fst snd] in Hfirst.
  destruct Hfirst as (Hm1 & ->).
  pose proof (round_nearest_even_bounds (shr_m mrs) (loc_of_shr_record mrs))
    as Hround.
  set (m2 := round_nearest_even (shr_m mrs) (loc_of_shr_record mrs)) in *.
  clearbody m2. rewrite Hm1 in Hround. clear Hm1 mrs.
  destruct (Z.eq_dec m2 (2 ^ 53)) as [-> | Hm2].
  - exists (Z.to_pos (2 ^ 52)), (e + n + 1)%Z.
    unfold shr_fexp. cbn [Zdigits2 digits2_pos Z.pow Z.pow_pos Pos.iter
                          Z.mul Pos.mul Pos.succ].
    change (Z.pos (digits2_pos (Z.to_pos (2 ^ 53)))) with 54%Z.
    rewrite fexp_small by lia.
    replace (54 + (e + n) - 53 - (e + n))%Z with 1%Z by lia.
    cbn [shr shr_record_of_loc iter_pos]. cbn.
    match goal with
    | |- context [(?a <=? ?b)%Z] =>
        replace (a <=? b)%Z with true
          by (symmetry; apply Z.leb_le; unfold emax, prec; lia)
    end.
    split; [reflexivity |]. split; [reflexivity |]. right.
    repeat split; lia.
  - destruct m2 as [| M |]; try lia.
    assert (HdM : Zpos (digits2_pos M) = 53%Z)
      by (apply digits2_pos_unique; lia).
    exists M, (e + n)%Z.
    unfold shr_fexp. cbn [Zdigits2]. rewrite HdM, fexp_small by lia.
    replace (53 + (e + n) - 53 - (e + n))%Z with 0%Z by lia.
    cbn [shr shr_record_of_loc shr_m].
    match goal with
    | |- context [(?a <=? ?b)%Z] =>
        replace (a <=? b)%Z with true
          by (symmetry; apply Z.leb_le; unfold emax, prec; lia)
    end.
    split; [reflexivity |]. split; [reflexivity |]. left. split; lia.
Qed.

End Binary64Rounding.

Section Binary64Percentage.
Import Binary64.

Lemma digits2_pos_mono (a b : positive) :
  (Zpos a <= Zpos b)%Z -> (Zpos (digits2_pos a) <= Zpos (digits2_pos b))%Z.
Proof.
  intros Hab. pose proof (digits2_pos_gt b) as Hb.
  apply digits2_pos_le; lia.
Qed.

Lemma div_eucl_div_mod (a b : Z) : Z.div_eucl a b = ((a / b)%Z, (a mod b)%Z).
Proof. unfold Z.div, Z.modulo. now destruct (Z.div_eucl a b). Qed.

(** A quotient of integers below [2^53], the smaller by the greater, is a
    binary64 value below one. *)
Lemma SFdiv_below_one (ml mc : positive) :
  (Zpos ml < Zpos mc < 2 ^ 53)%Z ->
  exists M E,
    SFdiv prec emax (normal false ml) (normal false mc)
    = S754_finite false M E
    /\ Zpos (digits2_pos M) = 53%Z /\ (-106 <= E <= -53)%Z.
Proof.
  intros Hlc.
  assert (Hdc : (Zpos (digits2_pos mc) <= 53)%Z)
    by (apply digits2_pos_le; lia).
  assert (Hdl : (Zpos (digits2_pos ml) <= Zpos (digits2_pos mc))%Z)
    by (apply digits2_pos_mono; lia).
  destruct (normal_form false ml ltac:(lia))
    as (M1 & e1 & -> & He1 & HM1 & HdM1 & _).
  destruct (normal_form false mc Hdc)
    as (M2 & e2 & -> & He2 & HM2 & HdM2 & _).
  pose proof (digits2_pos_gt M1) as Hgt1.
  pose proof (digits2_pos_ge M1) as Hge1.
  pose proof (digits2_pos_gt M2) as Hgt2.
  pose proof (digits2_pos_ge M2) as Hge2.
  rewrite HdM1 in Hgt1, Hge1. rewrite HdM2 in Hgt2, Hge2.
  change (2 ^ (53 - 1))%Z with (2 ^ 52)%Z in *.
  cbn [SFdiv]. unfold SFdiv_core_binary. cbn [Zdigits2].
  rewrite HdM1, HdM2, fexp_small by lia.
  rewrite Z.min_l by lia.
  replace (e1 - e2 - (53 + e1 - (53 + e2) - 53))%Z with 53%Z by lia.
  replace (53 + e1 - (53 + e2) - 53)%Z with (e1 - e2 - 53)%Z by lia.
  rewrite Z.shiftl_mul_pow2 by lia.
  rewrite div_eucl_div_mod. cbv beta iota zeta. cbn [xorb].
  set (q0 := (Zpos M1 * 2 ^ 53 / Zpos M2)%Z).
  assert (Hq0 : (2 ^ 52 <= q0 < 2 ^ 54)%Z).
  { unfold q0. split.
    - apply Z.div_le_lower_bound; lia.
    - apply Z.div_lt_upper_bound; lia. }
  assert (Hmul : (Zpos M2 * q0 <= Zpos M1 * 2 ^ 53)%Z)
    by (unfold q0; apply Z.mul_div_le; lia).
  destruct q0 as [| q |] eqn:Eq0; try lia.
  assert (Hdq : (53 <= Zpos (digits2_pos q) <= 54)%Z).
  { split.
    - pose proof (digits2_pos_gt q) as Hq.
      assert (52 < Zpos (digits2_pos q))%Z
        by (apply (Z.pow_lt_mono_r_iff 2); lia).
      lia.
    - apply digits2_pos_le; lia. }
  set (loc := new_location (Zpos M2) (Zpos M1 * 2 ^ 53 mod Zpos M2)).
  clearbody loc.
  destruct (binary_round_aux_bounds q (e1 - e2 - 53)
              (Zpos (digits2_pos q) - 53) loc)
    as (M & E & -> & HdM & Hcases); try lia.
  exists M, E. split; [reflexivity |]. split; [exact HdM |].
  remember (Zpos (digits2_pos q) - 53)%Z as n eqn:En.
  assert (Hn : n = 0%Z \/ n = 1%Z) by lia.
  assert (Hsame : Zpos (digits2_pos ml) = Zpos (digits2_pos mc) ->
                  (Zpos M1 < Zpos M2)%Z).
  { intros Hsame. assert (He : e1 = e2) by lia.
    rewrite HM1, HM2, He.
    apply Z.mul_lt_mono_pos_r; [apply Z.pow_pos_nonneg |]; lia. }
  assert (Hlong : n = 1%Z ->
                  Zpos (digits2_pos ml) <> Zpos (digits2_pos mc)).
  { intros Hn1 Heq. specialize (Hsame Heq).
    pose proof (digits2_pos_ge q) as Hq.
    replace (Zpos (digits2_pos q)) with 54%Z in Hq by lia.
    change (2 ^ (54 - 1))%Z with (2 ^ 53)%Z in Hq.
    assert (Zpos M2 * 2 ^ 53 <= Zpos M2 * Zpos q)%Z
      by (apply Z.mul_le_mono_nonneg_l; lia).
    assert (Zpos M1 * 2 ^ 53 < Zpos M2 * 2 ^ 53)%Z
      by (apply Z.mul_lt_mono_pos_r; lia).
    lia. }
  destruct Hcases as [(-> & _) | (-> & _ & Hfull)].
  - (* no carry out of the mantissa *)
    destruct Hn as [Hn | Hn]; [lia |]. specialize (Hlong Hn). lia.
  - destruct Hn as [Hn | Hn]; rewrite Hn in Hfull |- *.
    + (* the quotient is [2^53 - 1] and rounds up *)
      rewrite Z.pow_0_r, Z.div_1_r in Hfull.
      destruct (Z.eq_dec (Zpos (digits2_pos ml)) (Zpos (digits2_pos mc)))
        as [Heq | Hne]; [| lia].
      exfalso. specialize (Hsame Heq).
      rewrite Hfull in Hmul. lia.
    + (* half the quotient is [2^53 - 1] and rounds up *)
      specialize (Hlong Hn).
      change (2 ^ 1)%Z with 2%Z in Hfull.
      assert (Hq : (2 ^ 54 - 2 <= Zpos q)%Z).
      { pose proof (Z.div_mod (Zpos q) 2 ltac:(lia)) as Hdm.
        pose proof (Z.mod_pos_bound (Zpos q) 2 ltac:(lia)). lia. }
      destruct (Z.eq_dec (Zpos (digits2_pos ml) + 1) (Zpos (digits2_pos mc)))
        as [Hnext | Hne]; [| lia].
      exfalso.
      assert (Hmul' : (Zpos M2 * (2 ^ 54 - 2) <= Zpos M2 * Zpos q)%Z)
        by (apply Z.mul_le_mono_nonneg_l; lia).
      assert (HM1' : Zpos M1 = (2 ^ 53 - 1)%Z) by lia.
      replace (- e1)%Z with (1 + (52 - Zpos (digits2_pos ml)))%Z in HM1
        by lia.
      rewrite Z.pow_add_r in HM1 by lia.
      change (2 ^ 1)%Z with 2%Z in HM1. lia.
Qed.


Lemma normal_hundred :
  normal false 100 = S754_finite false 7036874417766400 (-46).
Proof. vm_compute. reflexivity. Qed.

Lemma spec_of_Z_hundred :
  spec_of_Z 100 = S754_finite false 7036874417766400 (-46).
Proof. vm_compute. reflexivity. Qed.

(** Such a value times 100 is a binary64 value below 100. *)
Lemma SFmul_hundred (M : positive) (E : Z) :
  Zpos (digits2_pos M) = 53%Z -> (-106 <= E <= -53)%Z ->
  exists M' E',
    SFmul prec emax (S754_finite false M E) (normal false 100)
    = S754_finite false M' E'
    /\ (E' < -46 \/ (E' = -46 /\ Zpos M' < 7036874417766400))%Z.
Proof.
  intros HdM HE.
  destruct (Z.eq_dec E (-53)) as [-> | HE'].
  - destruct (Pos.eq_dec M 9007199254740991) as [-> | HM].
    + (* the greatest value below one *)
      exists 7036874417766399%positive, (-46)%Z.
      split; [now vm_compute | right; split; lia].
    + pose proof (digits2_pos_gt M) as Hgt.
      pose proof (digits2_pos_ge M) as Hge.
      rewrite HdM in Hgt, Hge.
      change (2 ^ (53 - 1))%Z with (2 ^ 52)%Z in Hge.
      assert (HM' : (Zpos M <= 2 ^ 53 - 2)%Z) by lia.
      rewrite normal_hundred.
      cbn [SFmul xorb].
      set (P := (M * 7036874417766400)%positive).
      assert (HP : Zpos P = (Zpos M * 7036874417766400)%Z) by reflexivity.
      assert (HdP : (105 <= Zpos (digits2_pos P) <= 106)%Z).
      { split.
        - pose proof (digits2_pos_gt P) as HgtP.
          assert (104 < Zpos (digits2_pos P))%Z
            by (apply (Z.pow_lt_mono_r_iff 2); lia).
          lia.
        - apply digits2_pos_le; lia. }
      destruct (binary_round_aux_bounds P (-53 + -46)
                  (Zpos (digits2_pos P) - 53) loc_Exact)
        as (M' & E' & -> & _ & Hcases); try lia.
      exists M', E'. split; [reflexivity |].
      remember (Zpos (digits2_pos P) - 53)%Z as n eqn:En.
      assert (Hn : n = 52%Z \/ n = 53%Z) by lia.
      destruct Hn as [-> | ->].
      * destruct Hcases as [(-> & _) | (-> & -> & _)]; [left; lia |].
        right. split; lia.
      * assert (Hquot : (Zpos P / 2 ^ 53 < 7036874417766400 - 1)%Z)
          by (apply Z.div_lt_upper_bound; lia).
        destruct Hcases as [(-> & _ & Hup) | (_ & _ & Hfull)]; [| lia].
        right. split; lia.
  - pose proof (digits2_pos_gt M) as Hgt.
    pose proof (digits2_pos_ge M) as Hge.
    rewrite HdM in Hgt, Hge.
    change (2 ^ (53 - 1))%Z with (2 ^ 52)%Z in Hge.
    rewrite normal_hundred.
    cbn [SFmul xorb].
    set (P := (M * 7036874417766400)%positive).
    assert (HP : Zpos P = (Zpos M * 7036874417766400)%Z) by reflexivity.
    assert (HdP : (105 <= Zpos (digits2_pos P) <= 106)%Z).
    { split.
      - pose proof (digits2_pos_gt P) as HgtP.
        assert (104 < Zpos (digits2_pos P))%Z
          by (apply (Z.pow_lt_mono_r_iff 2); lia).
        lia.
      - apply digits2_pos_le; lia. }
    destruct (binary_round_aux_bounds P (E + -46)
                (Zpos (digits2_pos P) - 53) loc_Exact)
      as (M' & E' & -> & _ & Hcases); try lia.
    exists M', E'. split; [reflexivity |].
    destruct Hcases as [(-> & _) | (-> & -> & _)]; [left; lia |].
    destruct (Z.eq_dec (E + -46 + (Zpos (digits2_pos P) - 53) + 1) (-46))
      as [-> | Hne]; [right; split; lia | left; lia].
Qed.

Lemma percentage_spec (L C : Z) :
  (0 <= L < C)%Z -> (C < 2 ^ 53)%Z ->
  Prim2SF (of_Z L / of_Z C * of_Z 100)%float
  = SFmul prec emax (SFdiv prec emax (spec_of_Z L) (spec_of_Z C))
          (normal false 100).
Proof.
  intros HL HC.
  rewrite FloatAxioms.mul_spec, FloatAxioms.div_spec.
  rewrite !Prim2SF_of_Z by lia.
  now rewrite spec_of_Z_hundred, normal_hundred.
Qed.

Lemma SFcompare_zero_positive (M : positive) (E : Z) :
  SFleb (S754_zero false) (S754_finite false M E) = true.
Proof. reflexivity. Qed.

Lemma SFltb_below (M M' : positive) (E E' : Z) :
  (E' < E \/ (E' = E /\ Zpos M' < Zpos M))%Z ->
  SFltb (S754_finite false M' E') (S754_finite false M E) = true.
Proof.
  intros Hbelow. unfold SFltb. cbn [SFcompare].
  destruct Hbelow as [Hexp | (-> & Hmant)].
  - apply Z.compare_lt_iff in Hexp. now rewrite Hexp.
  - rewrite Z.compare_refl.
    change (Pos.compare_cont Eq) with Pos.compare.
    apply Pos.compare_lt_iff in Hmant. now rewrite Hmant.
Qed.

(** The percentage of a level below a capacity is at least 0 and below
    100, whatever the capacity that binary64 holds. *)
Lemma percentage_in_range (L C : Z) :
  (0 <= L < C)%Z -> (C < 2 ^ 53)%Z ->
  let percentage := (of_Z L / of_Z C * of_Z 100)%float in
  PrimFloat.leb 0 percentage = true
  /\ PrimFloat.ltb percentage (of_Z 100) = true.
Proof.
  intros HL HC percentage.
  assert (Hzero : Prim2SF 0 = S754_zero false) by now vm_compute.
  rewrite FloatAxioms.leb_spec, FloatAxioms.ltb_spec.
  unfold percentage. rewrite percentage_spec by assumption.
  rewrite (Prim2SF_of_Z 100), spec_of_Z_hundred, Hzero by lia.
  destruct C as [| mc |]; try lia.
  pose proof (spec_of_Z_signed false mc ltac:(lia)) as EC.
  cbn [cond_Zopp] in EC. rewrite EC.
  destruct L as [| ml |]; try lia.
  - destruct (normal_form false mc) as (M & E & -> & _);
      [apply digits2_pos_le; lia |].
    rewrite normal_hundred.
    change (spec_of_Z 0) with (S754_zero false).
    cbn [SFdiv SFmul xorb]. split; reflexivity.
  - pose proof (spec_of_Z_signed false ml ltac:(lia)) as EL.
    cbn [cond_Zopp] in EL. rewrite EL.
    destruct (SFdiv_below_one ml mc ltac:(lia)) as (M & E & -> & HdM & HE).
    destruct (SFmul_hundred M E HdM HE) as (M' & E' & -> & Hbelow).
    split; [apply SFcompare_zero_positive | now apply SFltb_below].
Qed.

End Binary64Percentage.

Section ProgressBar.
Import Page HandlerCalls.

(** X15. From a fresh handler of capacity [C >= 1] that binary64 holds
    ([C < 2^53]) and overlap [0 <= V < C], after any number of calls of
    [handleData], [updateProgressBar] sets the width of the progress bar to
    the binary64 value of [(windowLength / windowSize) * 100] for the level
    of the window and the capacity, and this value is at least 0 and less
    than 100: the bar is never shown full.  Without an element
    "progressBar" the call throws a [TypeError] and changes nothing. *)
Theorem progress_bar_never_full
  (C V : Z) (inputs : list Input) (p : Page.t float) :
  (1 <= C < 2 ^ 53)%Z -> (0 <= V < C)%Z ->
  let h := snd (handleAll inputs (SensorDataHandler.new C (Some V))) in
  let percentage :=
    (Binary64.of_Z (levelAfter C V (length inputs)) / Binary64.of_Z C
     * Binary64.of_Z 100)%float in
  (getElementById "progressBar" (document p) <> None ->
   updateProgressBar h p
   = (Done tt,
      mk (isAnimationPlaying p)
         (change "progressBar" (set_style_width (Percent percentage))
                 (document p))))
  /\ PrimFloat.leb 0 percentage = true
  /\ PrimFloat.ltb percentage (Binary64.of_Z 100) = true
  /\ (getElementById "progressBar" (document p) = None ->
      updateProgressBar h p = (Threw TypeError, p)).
Proof.
  intros HC HV h percentage.
  assert (Hlevel0 : level C V (levelAfter C V 0)
                      (SensorDataHandler.new (num := float) C (Some V))).
  { change (levelAfter C V 0) with (if (0 <? C)%Z then 0%Z
                                    else (V + (0 - C) mod (C - V))%Z).
    destruct (Z.ltb_spec 0 C); [apply new_level | lia]. }
  destruct (handleAll_cycle C V inputs ltac:(lia) HV 0 _ Hlevel0)
    as [_ [(Hsize & _ & Hlen & _) _]].
  fold h in Hsize, Hlen. cbn [Nat.add] in Hlen.
  pose proof (levelAfter_bounds C V HV (length inputs)) as HL.
  assert (Hrun : forall p',
             updateProgressBar h p'
             = onElement "progressBar"
                 (set_style_width (Percent percentage)) p').
  { intros p'. unfold updateProgressBar, Window.getLength,
      Window.getMaxLength, bind, get, ret.
    now rewrite Hsize, Hlen. }
  destruct (percentage_in_range _ C HL ltac:(lia)) as (Hlow & Hhigh).
  split; [intros Hfound; rewrite Hrun; now apply onElement_found |].
  split; [exact Hlow |]. split; [exact Hhigh |].
  intros Hmissing. rewrite Hrun. now apply onElement_missing.
Qed.

End ProgressBar.

(* ------------------------------------------------------------------ *)
(** ** Concrete runs for the properties above *)

(** Witness for X7: window size 0, two calls. *)
Lemma handleData_throws_without_capacity_witness :
  (0 <= 0)%Z
  /\ HandlerCalls.handleAll (repeat ((1, 2, 3), (4, 5, 6))%float 2)
                            (SensorDataHandler.new 0 None)
     = ([Throw WindowIsFull; Throw WindowIsFull],
        SensorDataHandler.new 0 None).
Proof.
  split; [lia |].
  exact (handleData_throws_without_capacity (num := float) 0 None
           (repeat ((1, 2, 3), (4, 5, 6))%float 2) ltac:(lia)).
Defined.

(** Witness for X9: window size 2 and overlap -3, five calls. *)
Lemma handleData_cycle_with_any_overlap_witness :
  (1 <= 2)%Z /\ (-3 < 0 \/ 2 < -3 < 2 * 2)%Z
  /\ map HandlerCalls.outcome
       (fst (HandlerCalls.handleAll
               (repeat ((1, 2, 3), (4, 5, 6))%float 5)
               (SensorDataHandler.new 2 (Some (-3)%Z))))
     = [HandlerCalls.NoOutput; HandlerCalls.FeatureSummary;
        HandlerCalls.NoOutput; HandlerCalls.FeatureSummary;
        HandlerCalls.NoOutput].
Proof.
  split; [lia |]. split; [left; lia |].
  exact (handleData_cycle_with_any_overlap (num := float) 2 (-3)
           (repeat ((1, 2, 3), (4, 5, 6))%float 5)
           ltac:(lia) ltac:(left; lia)).
Defined.

(** Witness for X8: window size and overlap 2, four calls. *)
Lemma handleData_stuck_when_overlap_is_window_size_witness :
  (1 <= 2)%Z /\ (2 = 2 \/ 2 * 2 <= 2)%Z
  /\ map HandlerCalls.outcome
       (fst (HandlerCalls.handleAll
               (repeat ((1, 2, 3), (4, 5, 6))%float 4)
               (SensorDataHandler.new 2 (Some 2%Z))))
     = [HandlerCalls.NoOutput; HandlerCalls.FeatureSummary;
        HandlerCalls.Failure WindowIsFull; HandlerCalls.Failure WindowIsFull].
Proof.
  split; [lia |]. split; [left; reflexivity |].
  exact (proj1 (handleData_stuck_when_overlap_is_window_size (num := float)
                  2 2 (repeat ((1, 2, 3), (4, 5, 6))%float 4) []
                  ltac:(lia) ltac:(left; reflexivity))).
Defined.

(** Witness for X5: window size 2 and overlap 1; after three calls each
    window holds the third sample. *)
Lemma summary_covers_latest_window_witness :
  (1 <= 2)%Z /\ (0 <= 1 < 2)%Z
  /\ HandlerStreams.holds
       (SensorDataHandler.accWindow
          (snd (HandlerCalls.handleAll
                  [((1, 2, 3), (4, 5, 6)); ((7, 8, 9), (10, 11, 12));
                   ((13, 14, 15), (16, 17, 18))]%float
                  (SensorDataHandler.new 2 (Some 1%Z)))))
       [(13, 14, 15)%float].
Proof.
  split; [lia |]. split; [lia |].
  exact (proj1 (summary_covers_latest_window (num := float) 2 1
                  [((1, 2, 3), (4, 5, 6)); ((7, 8, 9), (10, 11, 12));
                   ((13, 14, 15), (16, 17, 18))]%float
                  (0, 0, 0)%float (0, 0, 0)%float
                  ltac:(lia) ltac:(lia))).
Defined.

(** Witness for X13: the left slip on the sample page. *)
Lemma animation_plays_then_returns_to_idle_witness :
  exists playing idle,
    Page.playAnimation "leftslip_model" (samplePage float) = (Page.Done tt, playing)
    /\ heightOf "leftslip_model" playing = Some "30vh"%string
    /\ Page.switchBackToIdle "leftslip_model" playing = (Page.Done tt, idle)
    /\ heightOf "idle_model" idle = Some "30vh"%string
    /\ Page.isAnimationPlaying idle = false.
Proof.
  destruct (animation_plays_then_returns_to_idle (num := float)
              "leftslip_model" (samplePage float)
              (Page.mkElement "0" "30%" Page.WidthOfStylesheet 0 [] []))
    as (playing & idle & Hplay & _ & _ & Hshown & _ & _ & _ & _ & _
        & Hback & Hfree & Hidle & _);
    try discriminate; try reflexivity.
  exists playing, idle. repeat split; assumption.
Defined.

(** Witness for X14: a model that the sample page does not have. *)
Lemma missing_model_blocks_animations_witness :
  exists stuck,
    Page.playAnimation "pullback_model" (samplePage float)
    = (Page.Threw Page.TypeError, stuck)
    /\ Page.isAnimationPlaying stuck = true
    /\ Page.predictionReceived "Left Slip" stuck = (Page.Done tt, stuck).
Proof.
  destruct (missing_model_blocks_animations (num := float)
              "pullback_model" (samplePage float))
    as (stuck & Hthrow & Hbusy & _ & _ & Hdrop);
    try discriminate; try reflexivity.
  exists stuck. split; [exact Hthrow |]. split; [exact Hbusy |].
  apply Hdrop.
Defined.

(** Witness for X15: window size 4, no overlap, after three calls: 75%. *)
Lemma progress_bar_never_full_witness :
  (1 <= 4 < 2 ^ 53)%Z /\ (0 <= 0 < 4)%Z
  /\ Page.updateProgressBar
       (snd (HandlerCalls.handleAll
               (repeat ((1, 2, 3), (4, 5, 6))%float 3)
               (SensorDataHandler.new 4 (Some 0%Z))))
       (samplePage float)
     = (Page.Done tt,
        Page.mk false
          (Page.change "progressBar"
             (Page.set_style_width (Page.Percent 75%float))
             (Page.document (samplePage float))))
  /\ PrimFloat.ltb 75 (Binary64.of_Z 100) = true.
Proof.
  split; [lia |]. split; [lia |].
  destruct (progress_bar_never_full 4 0
              (repeat ((1, 2, 3), (4, 5, 6))%float 3)
              (samplePage float) ltac:(lia) ltac:(lia))
    as (Hset & _ & Hhigh & _).
  split; [apply Hset; discriminate | exact Hhigh].
Defined.

(** Witness for X12: a prediction that arrives while an animation plays. *)
Lemma predictions_dropped_while_playing_witness :
  let busy := Page.mk true (Page.document (samplePage float)) in
  Page.isAnimationPlaying busy = true
  /\ Page.predictionReceived "Left Slip" busy = (Page.Done tt, busy).
Proof.
  cbn zeta. split; [reflexivity |].
  exact (proj2 (proj1 (predictions_dropped_while_playing
                         (Page.mk true (Page.document (samplePage float))))
                      eq_refl)
               "Left Slip"%string).
Defined.

(** Witness for X11: a NaN between two samples. *)
Lemma nan_sample_spoils_features_witness :
  In PrimFloat.nan [1; PrimFloat.nan; 3]%float
  /\ Window.getAxisFeatures [1; PrimFloat.nan; 3]%float
     = Window.mkAxis PrimFloat.nan PrimFloat.nan PrimFloat.nan.
Proof.
  assert (Hin : In PrimFloat.nan [1; PrimFloat.nan; 3]%float)
    by (right; left; reflexivity).
  split; [exact Hin |].
  exact (proj1 nan_sample_spoils_features _ Hin).
Defined.

(** Witness for X10: the samples 3, 1, 2, and the integers 1, 2, 3 with
    their average 2. *)
Lemma mean_and_sample_range_witness :
  comparable [3; 1; 2]%float
  /\ PrimFloat.leb (Window.min (Window.getAxisFeatures [3; 1; 2]%float))
                   (Window.max (Window.getAxisFeatures [3; 1; 2]%float))
     = true
  /\ PrimFloat.leb
       (Window.min (Window.getAxisFeatures (integers [1; 2; 3]%Z)))
       (Window.mean (Window.getAxisFeatures (integers [1; 2; 3]%Z)))
     = true
  /\ PrimFloat.leb
       (Window.mean (Window.getAxisFeatures (integers [1; 2; 3]%Z)))
       (Window.max (Window.getAxisFeatures (integers [1; 2; 3]%Z)))
     = true.
Proof.
  assert (Hnumbers : comparable [3; 1; 2]%float)
    by (intros v [<- | [<- | [<- | []]]]; reflexivity).
  assert (Hbound : forall k, In k [1; 2; 3]%Z -> (Z.abs k <= 3)%Z)
    by (intros k [<- | [<- | [<- | []]]]; cbn; lia).
  destruct mean_and_sample_range as (Hordered & Hbetween & _).
  destruct (Hordered 3%float [1; 2]%float Hnumbers) as (_ & _ & Hle).
  destruct (Hbetween 3%Z [1; 2; 3]%Z 2%Z ltac:(discriminate) Hbound
              ltac:(cbn; lia) ltac:(cbn; lia) eq_refl) as (Hlow & Hhigh).
  split; [exact Hnumbers |]. split; [exact Hle |].
  split; [exact Hlow | exact Hhigh].
Defined.
